(** * Snow test-case execution engine: action contract, dispatcher, orchestrator

    A shallow embedding of
      - packages/core/src/shared/schemas.ts            (the Zod action contract),
      - packages/core/src/shared/factory/AIClient.ts   (PromptGenerator and the
        AutomationAgent dispatcher),
      - packages/core/src/shared/factory/TestCaseExecutor.ts (the orchestrator),
    together with the properties of the engine that the specification states. *)

From Stdlib Require Import ZArith String List Bool Lia.
From stdpp Require Import base option list strings gmap.

Local Open Scope string_scope.
Local Open Scope Z_scope.

(* ====================================================================== *)
(** ** JavaScript values *)
(* ====================================================================== *)

Module Js.

(** Runtime values as the validator and the dispatcher see them.  Numbers are
    kept abstract as integers: the code only tests [typeof], truthiness and
    [undefined].  An object is its list of own properties in insertion order;
    a property is read at its first occurrence. *)
#[warnings="-register-all"]
Inductive JsValue : Type :=
| JUndefined : JsValue
| JNull : JsValue
| JBool (b : bool) : JsValue
| JNum (n : Z) : JsValue
| JStr (s : string) : JsValue
| JArr (xs : list JsValue) : JsValue
| JObj (fields : list (string * JsValue)) : JsValue.

Definition Obj : Type := list (string * JsValue).

(** [obj[k]]: a missing property reads as [undefined]. *)
Fixpoint get (k : string) (o : Obj) : JsValue :=
  match o with
  | [] => JUndefined
  | (k', v) :: r => if String.eqb k k' then v else get k r
  end.

(** [k in obj]. *)
Fixpoint has (k : string) (o : Obj) : bool :=
  match o with
  | [] => false
  | (k', _) :: r => if String.eqb k k' then true else has k r
  end.

(** [obj[k] = v]: an existing property keeps its place, a new one is appended. *)
Fixpoint set (k : string) (v : JsValue) (o : Obj) : Obj :=
  match o with
  | [] => [(k, v)]
  | (k', v') :: r => if String.eqb k k' then (k', v) :: r else (k', v') :: set k v r
  end.

(** [{ ...base, ...ext }]. *)
Definition spread (base ext : Obj) : Obj :=
  fold_left (fun acc kv => set (fst kv) (snd kv) acc) ext base.

(** [mem k ks]: membership in a list of keys. *)
Definition mem (k : string) (ks : list string) : bool :=
  existsb (String.eqb k) ks.

(** JavaScript truthiness, as used by [if (x)], [x || d] and [x ||= d]. *)
Definition truthy (v : JsValue) : bool :=
  match v with
  | JUndefined | JNull => false
  | JBool b => b
  | JNum n => negb (n =? 0)%Z
  | JStr s => negb (String.eqb s "")
  | JArr _ | JObj _ => true
  end.

(** [x ?? d]. *)
Definition nullish (v d : JsValue) : JsValue :=
  match v with
  | JUndefined | JNull => d
  | _ => v
  end.

(** [x || d]. *)
Definition or_else (v d : JsValue) : JsValue :=
  if truthy v then v else d.

Definition is_undefined (v : JsValue) : bool :=
  match v with JUndefined => true | _ => false end.

(** What a [catch (error)] clause can receive: an [Error] instance with its
    message, or any other thrown value. *)
Inductive JsExn : Type :=
| ErrorObj (message : string)
| Thrown (v : JsValue).

(** [error instanceof Error ? error.message : fallback]. *)
Definition message_or (e : JsExn) (fallback : string) : string :=
  match e with
  | ErrorObj m => m
  | Thrown _ => fallback
  end.

End Js.
Export Js.

(* ====================================================================== *)
(** ** The fragment of Zod that schemas.ts uses *)
(* ====================================================================== *)

Module Zod.

#[warnings="-register-all"]
Inductive Schema : Type :=
| ZString : Schema                                   (* z.string() *)
| ZNumber : Schema                                   (* z.number() *)
| ZBoolean : Schema                                  (* z.boolean() *)
| ZAny : Schema                                      (* z.any() *)
| ZLiteral (s : string) : Schema                     (* z.literal('s') *)
| ZEnum (values : list string) : Schema              (* z.enum([...]) *)
| ZUnion (alts : list Schema) : Schema               (* z.union([...]) *)
| ZOptional (inner : Schema) : Schema                (* s.optional() *)
| ZArray (elem : Schema) : Schema                    (* z.array(s) *)
| ZRecord (val : Schema) : Schema                    (* z.record(z.string(), s) *)
| ZObject (shape : list (string * Schema)) (strict : bool) : Schema
                                                     (* z.object({...}) [.strict()] *)
| ZDiscriminatedUnion (key : string) (options : list Schema) : Schema.
                                                     (* z.discriminatedUnion(key, [...]) *)

Definition Shape : Type := list (string * Schema).

(** [z.object(shape)]: unknown keys are stripped unless [.strict()] is called. *)
Definition object (sh : Shape) : Schema := ZObject sh false.

(** [s.shape]. *)
Definition shape (s : Schema) : Shape :=
  match s with
  | ZObject sh _ => sh
  | _ => []
  end.

(** [s.strict()]. *)
Definition strict (s : Schema) : Schema :=
  match s with
  | ZObject sh _ => ZObject sh true
  | _ => s
  end.

Fixpoint shape_set (k : string) (s : Schema) (sh : Shape) : Shape :=
  match sh with
  | [] => [(k, s)]
  | (k', s') :: r => if String.eqb k k' then (k', s) :: r else (k', s') :: shape_set k s r
  end.

(** [s.extend(aug)]: the shape becomes [{ ...s.shape, ...aug }]; the unknown-key
    policy of [s] is kept. *)
Definition extend (s : Schema) (aug : Shape) : Schema :=
  match s with
  | ZObject sh st =>
      ZObject (fold_left (fun acc ks => shape_set (fst ks) (snd ks) acc) aug sh) st
  | _ => s
  end.

Fixpoint shape_get (k : string) (sh : Shape) : option Schema :=
  match sh with
  | [] => None
  | (k', s) :: r => if String.eqb k k' then Some s else shape_get k r
  end.

Definition keys (sh : Shape) : list string := map fst sh.

(** The literal an option of a discriminated union carries at the
    discriminator key. *)
Definition discriminator (key : string) (opt : Schema) : option string :=
  match shape_get key (shape opt) with
  | Some (ZLiteral t) => Some t
  | _ => None
  end.

Definition has_discriminator (key t : string) (opt : Schema) : bool :=
  match discriminator key opt with
  | Some t' => String.eqb t t'
  | None => false
  end.

Section Combinators.
Variable P : Schema -> JsValue -> option JsValue.

(** A union returns the output of its first alternative that accepts. *)
Definition first_accepting (v : JsValue) : list Schema -> option JsValue :=
  fix go (alts : list Schema) : option JsValue :=
    match alts with
    | [] => None
    | a :: r => match P a v with
                | Some y => Some y
                | None => go r
                end
    end.

(** The option selected by the discriminator value parses the input. *)
Definition selected (key t : string) (v : JsValue) : list Schema -> option JsValue :=
  fix go (opts : list Schema) : option JsValue :=
    match opts with
    | [] => None
    | o :: r => if has_discriminator key t o then P o v else go r
    end.

(** Every key of the shape is parsed at [input[key]]; the output holds the
    keys of the shape that the input has, in shape order. *)
Definition parse_shape (fs : Obj) : Shape -> option Obj :=
  fix go (sh : Shape) : option Obj :=
    match sh with
    | [] => Some []
    | (k, s) :: r =>
        match P s (get k fs) with
        | None => None
        | Some y =>
            match go r with
            | None => None
            | Some out => Some (if has k fs then (k, y) :: out else out)
            end
        end
    end.
End Combinators.

(** Elementwise parsing of an array. *)
Fixpoint parse_all (p : JsValue -> option JsValue) (xs : list JsValue) : option (list JsValue) :=
  match xs with
  | [] => Some []
  | x :: r =>
      match p x with
      | None => None
      | Some y => match parse_all p r with
                  | None => None
                  | Some ys => Some (y :: ys)
                  end
      end
  end.

(** Valuewise parsing of a record. *)
Fixpoint parse_values (p : JsValue -> option JsValue) (fs : Obj) : option Obj :=
  match fs with
  | [] => Some []
  | (k, x) :: r =>
      match p x with
      | None => None
      | Some y => match parse_values p r with
                  | None => None
                  | Some ys => Some ((k, y) :: ys)
                  end
      end
  end.

(** [unknown_keys sh fs]: the input has a key outside the shape. *)
Definition unknown_keys (sh : Shape) (fs : Obj) : bool :=
  negb (forallb (fun kv => mem (fst kv) (keys sh)) fs).

(** [schema.safeParse(v)]: [Some out] on success, [None] for a ZodError. *)
Fixpoint parse (s : Schema) (v : JsValue) {struct s} : option JsValue :=
  match s with
  | ZString => match v with JStr _ => Some v | _ => None end
  | ZNumber => match v with JNum _ => Some v | _ => None end
  | ZBoolean => match v with JBool _ => Some v | _ => None end
  | ZAny => Some v
  | ZLiteral l => match v with
                  | JStr t => if String.eqb t l then Some v else None
                  | _ => None
                  end
  | ZEnum vs => match v with
                | JStr t => if mem t vs then Some v else None
                | _ => None
                end
  | ZUnion alts => first_accepting parse v alts
  | ZOptional inner => match v with
                       | JUndefined => Some JUndefined
                       | _ => parse inner v
                       end
  | ZArray elem => match v with
                   | JArr xs => option_map JArr (parse_all (parse elem) xs)
                   | _ => None
                   end
  | ZRecord val => match v with
                   | JObj fs => option_map JObj (parse_values (parse val) fs)
                   | _ => None
                   end
  | ZObject sh st => match v with
                     | JObj fs =>
                         if st && unknown_keys sh fs then None
                         else option_map JObj (parse_shape parse fs sh)
                     | _ => None
                     end
  | ZDiscriminatedUnion key opts =>
      match v with
      | JObj fs => match get key fs with
                   | JStr t => selected parse key t v opts
                   | _ => None
                   end
      | _ => None
      end
  end.

(** Parsing an output of the schema again returns it unchanged. *)
Definition idempotent (s : Schema) : Prop :=
  forall x y, parse s x = Some y -> parse s y = Some y.

(** The schema returns what it accepts as it is. *)
Definition transparent (s : Schema) : Prop :=
  forall x y, parse s x = Some y -> y = x.

End Zod.
Export Zod.

(* ====================================================================== *)
(** ** schemas.ts *)
(* ====================================================================== *)

Module Schemas.

(** Basic types. *)
Definition PointSchema : Schema :=
  object [("x", ZNumber); ("y", ZNumber)].

Definition ScrollDirectionSchema : Schema :=
  ZEnum ["up"; "down"; "left"; "right"].

Definition ScrollTypeSchema : Schema :=
  ZEnum ["once"; "untilBottom"; "untilTop"; "untilLeft"; "untilRight"].

Definition DomIncludeOptionSchema : Schema :=
  ZUnion [ZBoolean; ZLiteral "visible-only"].

Definition KeyboardKeySchema : Schema :=
  ZUnion [ZEnum ["Enter"; "Tab"; "Escape"; "Backspace"; "Delete";
                 "ArrowUp"; "ArrowDown"; "ArrowLeft"; "ArrowRight"];
          ZString].

Definition TestStepStatusSchema : Schema :=
  ZEnum ["pending"; "running"; "success"; "failed"; "skipped"].

Definition TestCaseStatusSchema : Schema :=
  ZEnum ["created"; "running"; "completed"; "failed"; "stopped"].

Definition action_types : list string :=
  ["ai"; "aiAction";
   "aiTap"; "aiInput"; "aiHover"; "aiKeyboardPress"; "aiScroll";
   "aiRightClick"; "aiDoubleClick";
   "aiLocate"; "aiWaitFor"; "aiAssert";
   "aiQuery"; "aiExtract"; "aiAsk"; "aiBoolean"; "aiNumber"; "aiString";
   "runYaml"; "evaluateJavaScript"; "logScreenshot"; "describeElementAtPoint";
   "verifyLocator"; "freezePageContext"; "unfreezePageContext";
   "setAIActionContext"].

Definition AIActionTypeSchema : Schema := ZEnum action_types.

(** Option types, each closed with [.strict()]. *)
Definition LocateOptionSchema : Schema :=
  strict (object [("deepThink", ZOptional ZBoolean);
                  ("cacheable", ZOptional ZBoolean)]).

Definition AndroidDeviceInputOptSchema : Schema :=
  strict (object [("autoDismissKeyboard", ZOptional ZBoolean)]).

Definition ScrollParamSchema : Schema :=
  strict (object [("direction", ScrollDirectionSchema);
                  ("scrollType", ScrollTypeSchema);
                  ("distance", ZOptional ZNumber)]).

Definition InsightExtractOptionSchema : Schema :=
  strict (object [("domIncluded", ZOptional DomIncludeOptionSchema);
                  ("screenshotIncluded", ZOptional ZBoolean)]).

Definition AgentAssertOptSchema : Schema :=
  strict (object [("timeoutMs", ZOptional ZNumber)]).

Definition AgentWaitForOptSchema : Schema :=
  strict (object [("timeoutMs", ZOptional ZNumber);
                  ("checkIntervalMs", ZOptional ZNumber)]).

Definition LocatorValidatorOptionSchema : Schema :=
  strict (object [("verifyPrompt", ZOptional ZBoolean);
                  ("retryLimit", ZOptional ZNumber);
                  ("deepThink", ZOptional ZBoolean)]).

(** Action parameters: the option shapes are merged in through [.shape], so
    each of these is a plain [z.object]. *)
Definition BaseActionParamsSchema : Schema :=
  object [("type", AIActionTypeSchema)].

Definition AIPlanningParamsSchema : Schema :=
  extend BaseActionParamsSchema
    [("prompt", ZString); ("cacheable", ZOptional ZBoolean)].

Definition InteractionParamsSchema : Schema :=
  extend (extend BaseActionParamsSchema [("locate", ZString)])
    (shape LocateOptionSchema).

Definition InputParamsSchema : Schema :=
  extend (extend InteractionParamsSchema [("text", ZString)])
    (shape AndroidDeviceInputOptSchema).

Definition KeyboardParamsSchema : Schema :=
  extend (extend BaseActionParamsSchema
            [("key", KeyboardKeySchema); ("locate", ZOptional ZString)])
    (shape LocateOptionSchema).

Definition ScrollParamsSchema : Schema :=
  extend (extend BaseActionParamsSchema
            [("scrollParam", ScrollParamSchema); ("locate", ZOptional ZString)])
    (shape LocateOptionSchema).

Definition QueryParamsSchema : Schema :=
  extend (extend BaseActionParamsSchema
            [("dataDemand", ZUnion [ZString; ZRecord ZString])])
    (shape InsightExtractOptionSchema).

Definition AssertParamsSchema : Schema :=
  extend (extend BaseActionParamsSchema
            [("assertion", ZString); ("errorMsg", ZOptional ZString)])
    (shape AgentAssertOptSchema).

Definition WaitForParamsSchema : Schema :=
  extend (extend BaseActionParamsSchema [("assertion", ZString)])
    (shape AgentWaitForOptSchema).

Definition DescribeElementParamsSchema : Schema :=
  extend (extend BaseActionParamsSchema [("x", ZNumber); ("y", ZNumber)])
    (shape LocatorValidatorOptionSchema).

Definition YamlParamsSchema : Schema :=
  extend BaseActionParamsSchema [("yamlScriptContent", ZString)].

Definition ContextParamsSchema : Schema :=
  extend BaseActionParamsSchema [("actionContext", ZString)].

Definition JavaScriptParamsSchema : Schema :=
  extend BaseActionParamsSchema [("script", ZString)].

Definition ScreenshotParamsSchema : Schema :=
  extend BaseActionParamsSchema
    [("title", ZOptional ZString); ("content", ZOptional ZString)].

(** [S.extend({ type: z.literal(t) })]. *)
Definition tagged (s : Schema) (t : string) : Schema :=
  extend s [("type", ZLiteral t)].

(** The options of the action union, in source order. *)
Definition AIAction_options : list Schema :=
  [ tagged AIPlanningParamsSchema "ai";
    tagged AIPlanningParamsSchema "aiAction";
    tagged InteractionParamsSchema "aiTap";
    tagged InteractionParamsSchema "aiHover";
    tagged InteractionParamsSchema "aiRightClick";
    tagged InteractionParamsSchema "aiDoubleClick";
    tagged InteractionParamsSchema "aiLocate";
    tagged InputParamsSchema "aiInput";
    tagged KeyboardParamsSchema "aiKeyboardPress";
    tagged ScrollParamsSchema "aiScroll";
    tagged QueryParamsSchema "aiQuery";
    tagged QueryParamsSchema "aiExtract";
    tagged (extend AIPlanningParamsSchema (shape InsightExtractOptionSchema)) "aiAsk";
    tagged (extend AIPlanningParamsSchema (shape InsightExtractOptionSchema)) "aiBoolean";
    tagged (extend AIPlanningParamsSchema (shape InsightExtractOptionSchema)) "aiNumber";
    tagged (extend AIPlanningParamsSchema (shape InsightExtractOptionSchema)) "aiString";
    tagged AssertParamsSchema "aiAssert";
    tagged WaitForParamsSchema "aiWaitFor";
    tagged DescribeElementParamsSchema "describeElementAtPoint";
    tagged YamlParamsSchema "runYaml";
    tagged ContextParamsSchema "setAIActionContext";
    tagged JavaScriptParamsSchema "evaluateJavaScript";
    tagged ScreenshotParamsSchema "logScreenshot";
    tagged BaseActionParamsSchema "freezePageContext";
    tagged BaseActionParamsSchema "unfreezePageContext";
    extend (extend BaseActionParamsSchema
              [("type", ZLiteral "verifyLocator");
               ("prompt", ZString);
               ("expectCenter", PointSchema)])
      (shape LocatorValidatorOptionSchema) ].

Definition AIActionSchema : Schema :=
  ZDiscriminatedUnion "type" AIAction_options.

(** Action sequence. *)
Definition ActionSequenceSchema : Schema :=
  object [("actions", ZArray AIActionSchema);
          ("display", object [("code", ZArray ZString);
                              ("description", ZString)])].


(** The options of the action union with [extend] and [shape] carried out. *)
Definition AIAction_shapes : list Schema :=
  Eval vm_compute in AIAction_options.

(** [PromptGenerator.validateAction]. *)
Definition validateAction (action : JsValue) : bool :=
  match parse AIActionSchema action with
  | Some _ => true
  | None => false
  end.

(** [PromptGenerator.validateActionSequence]. *)
Definition validateActionSequence (sequence : JsValue) : bool :=
  match parse ActionSequenceSchema sequence with
  | Some _ => true
  | None => false
  end.

End Schemas.
Export Schemas.

(* ====================================================================== *)
(** ** The host: everything the engine reaches outside itself *)
(* ====================================================================== *)

(** [agent.<method>(...args, options)] on the browser-automation driver: the
    positional arguments, and the options object in last position when the
    call site passes one. *)
Inductive BackendCall : Type :=
| Call (method : string) (args : list JsValue) (options : option Obj).

(** The outcome of an awaited call: a thrown value or a returned one. *)
Definition Outcome (A : Type) : Type := JsExn + A.

(** The collaborators are opaque; they act on a world [W] that the engine
    threads through its steps in program order. *)
Record Host (W : Type) : Type := {
  (** [new ChromeExtensionProxyPage(true)] and
      [new ChromeExtensionProxyPageAgent(page)]: a handle on the new driver.
      The two constructors are taken to return. *)
  construct : W -> nat * W;
  (** A method of the driver with the given handle. *)
  invoke : nat -> BackendCall -> W -> Outcome JsValue * W;
  (** [agent.page.destroy()]. *)
  page_destroy : nat -> W -> Outcome unit * W;
  (** [Date.now()]. *)
  Date_now : W -> Z * W;
  (** [nanoid()]. *)
  nanoid : W -> string * W;
  (** [JSON5.parse(code)]. *)
  JSON5_parse : string -> Outcome JsValue;
  (** The message of the ZodError that a failed [parse] throws. *)
  ZodError_message : Schema -> JsValue -> string;
  (** String conversion of a value that is not a string, in a template
      literal or in [join]. *)
  ToString : JsValue -> string
}.

Arguments construct {W}.
Arguments invoke {W}.
Arguments page_destroy {W}.
Arguments Date_now {W}.
Arguments nanoid {W}.
Arguments JSON5_parse {W}.
Arguments ZodError_message {W}.
Arguments ToString {W}.

(** Sequencing of effects on the world. *)
Definition M (W A : Type) : Type := W -> A * W.

Definition ret {W A : Type} (a : A) : M W A := fun w => (a, w).

Definition bind {W A B : Type} (c : M W A) (k : A -> M W B) : M W B :=
  fun w => let (a, w') := c w in k a w'.

Declare Scope engine_scope.
Delimit Scope engine_scope with engine.
Notation "x <- c ;; k" := (bind c (fun x => k))
  (at level 20, c at level 99, k at level 200, only parsing) : engine_scope.
Notation "' p <- c ;; k" := (bind c (fun x => let 'p := x in k))
  (at level 20, p pattern, c at level 99, k at level 200, only parsing) : engine_scope.

(* ====================================================================== *)
(** ** automationTypes.ts: steps, action sequences and cases *)
(* ====================================================================== *)

Inductive TestStepStatus : Type :=
| StepPending | StepRunning | StepSuccess | StepFailed | StepSkipped.

Inductive TestCaseStatus : Type :=
| CaseCreated | CaseRunning | CaseCompleted | CaseFailed | CaseStopped.

Definition step_status_eqb (a b : TestStepStatus) : bool :=
  match a, b with
  | StepPending, StepPending | StepRunning, StepRunning
  | StepSuccess, StepSuccess | StepFailed, StepFailed
  | StepSkipped, StepSkipped => true
  | _, _ => false
  end.

(** A step is [{ ...action, id, description, status, rawCode }] plus the
    fields execution fills in.  The own fields of the action are kept as the
    object they are spread from; no action shape has a key among the status
    fields, which are the record fields here.  [None] is [undefined]. *)
Module TestStep.
Record t : Type := mk {
  action : Obj;
  id : string;
  description : string;
  status : TestStepStatus;
  startTime : option Z;
  endTime : option Z;
  error : option string;
  result : JsValue;
  rawCode : option string
}.

(** [step.k] for a key of the action. *)
Definition field (k : string) (s : t) : JsValue := get k (action s).

(** ['k' in step] for a key of the action. *)
Definition has_field (k : string) (s : t) : bool := has k (action s).

Definition with_status (v : TestStepStatus) (s : t) : t :=
  mk (action s) (id s) (description s) v (startTime s) (endTime s)
     (error s) (result s) (rawCode s).

Definition with_startTime (v : option Z) (s : t) : t :=
  mk (action s) (id s) (description s) (status s) v (endTime s)
     (error s) (result s) (rawCode s).

Definition with_endTime (v : option Z) (s : t) : t :=
  mk (action s) (id s) (description s) (status s) (startTime s) v
     (error s) (result s) (rawCode s).

Definition with_error (v : option string) (s : t) : t :=
  mk (action s) (id s) (description s) (status s) (startTime s) (endTime s)
     v (result s) (rawCode s).

Definition with_result (v : JsValue) (s : t) : t :=
  mk (action s) (id s) (description s) (status s) (startTime s) (endTime s)
     (error s) v (rawCode s).
End TestStep.

(** [{ actions, display: { code, description } }], as the type
    [ActionSequence] has it. *)
Module ActionSequence.
Record t : Type := mk {
  actions : list Obj;
  code : list string;
  description : string
}.

(** The sequence as the object it is at run time. *)
Definition to_js (sq : t) : JsValue :=
  JObj [("actions", JArr (map JObj (actions sq)));
        ("display", JObj [("code", JArr (map JStr (code sq)));
                          ("description", JStr (description sq))])].
End ActionSequence.

Module TestCase.
Record t : Type := mk {
  id : string;
  name : string;
  userInput : string;
  code : option string;
  actionSequence : option ActionSequence.t;
  steps : list TestStep.t;
  status : TestCaseStatus;
  startTime : option Z;
  endTime : option Z;
  error : option string
}.

Definition with_steps (v : list TestStep.t) (c : t) : t :=
  mk (id c) (name c) (userInput c) (code c) (actionSequence c) v
     (status c) (startTime c) (endTime c) (error c).

Definition with_status (v : TestCaseStatus) (c : t) : t :=
  mk (id c) (name c) (userInput c) (code c) (actionSequence c) (steps c)
     v (startTime c) (endTime c) (error c).

Definition with_startTime (v : option Z) (c : t) : t :=
  mk (id c) (name c) (userInput c) (code c) (actionSequence c) (steps c)
     (status c) v (endTime c) (error c).

Definition with_endTime (v : option Z) (c : t) : t :=
  mk (id c) (name c) (userInput c) (code c) (actionSequence c) (steps c)
     (status c) (startTime c) v (error c).

Definition with_error (v : option string) (c : t) : t :=
  mk (id c) (name c) (userInput c) (code c) (actionSequence c) (steps c)
     (status c) (startTime c) (endTime c) v.
End TestCase.

(* ====================================================================== *)
(** ** AutomationAgent: the dispatcher *)
(* ====================================================================== *)

Module AutomationAgent.

(** [agent], [page] and [isInitialized]; a driver is known by its handle. *)
Record t : Type := mk {
  agent : option nat;
  page : option nat;
  isInitialized : bool
}.

(** The field initialisers of the class. *)
Definition new : t := mk None None false.

(** [isReady()]. *)
Definition isReady (a : t) : bool :=
  isInitialized a && match agent a with Some _ => true | None => false end.

(** [reset()]. *)
Definition reset (a : t) : t := mk None None false.

(** The options the dispatcher copies from the step, in source order. *)
Definition option_keys : list string :=
  ["deepThink"; "xpath"; "cacheable"; "autoDismissKeyboard"; "domIncluded";
   "screenshotIncluded"; "timeoutMs"; "checkIntervalMs"; "verifyPrompt";
   "retryLimit"].

(** ['k' in step && step.k !== undefined]. *)
Definition present (k : string) (step : TestStep.t) : bool :=
  TestStep.has_field k step && negb (is_undefined (TestStep.field k step)).

(** [if ('k' in step && step.k !== undefined) options.k = step.k]. *)
Definition copy_option (step : TestStep.t) (options : Obj) (k : string) : Obj :=
  if present k step then set k (TestStep.field k step) options else options.

(** [buildExecutionOptions(step)]. *)
Definition buildExecutionOptions (step : TestStep.t) : Obj :=
  fold_left (copy_option step) option_keys [].

(** What one [case] of the dispatch [switch] does. *)
Inductive Routed : Type :=
| Invoke (c : BackendCall)            (* result = await this.agent.m(...) *)
| InvokeThen (c : BackendCall) (r : JsValue)
                                      (* this.agent.m(...); result = r *)
| Nothing                             (* the guard of the case is false *)
| Unsupported.                        (* default: throw *)

Definition guarded (cond : bool) (c : BackendCall) : Routed :=
  if cond then Invoke c else Nothing.

(** The driver call of a case, when it makes one. *)
Definition routed_call (r : Routed) : option BackendCall :=
  match r with
  | Invoke c | InvokeThen c _ => Some c
  | Nothing | Unsupported => None
  end.

(** The options object a call forwards, when it forwards one. *)
Definition call_options (c : BackendCall) : option Obj :=
  match c with
  | Call _ _ o => o
  end.

(** The keys of a step object that are fields of [TestStep.t]. *)
Definition step_keys : list string :=
  ["id"; "description"; "status"; "startTime"; "endTime"; "error"; "result";
   "rawCode"].

(** [step.startTime] and [step.endTime] of a spread object, at the type
    [number | undefined]. *)
Definition number_at (k : string) (o : Obj) : option Z :=
  match get k o with
  | JNum n => Some n
  | _ => None
  end.

(** [step.error] of a spread object, at the type [string | undefined]. *)
Definition string_at (k : string) (o : Obj) : option string :=
  match get k o with
  | JStr s => Some s
  | _ => None
  end.

(** The keys of an action that are not fields of the step made of it. *)
Definition action_part (action : Obj) : Obj :=
  List.filter (fun kv => negb (mem (fst kv) step_keys)) action.

(** [{ ...action, id, description, status: 'pending', rawCode }], read at
    the type [TestStep].  The spread copies every key of the action; a key
    named like a field of the step is that field of the new object: [id],
    [description], [status] and [rawCode] are then written over by the
    literal, while [startTime], [endTime], [error] and [result] keep what
    the action holds.  The remaining keys are the action of the step.  The
    fields have the types of [TestStepBaseSchema]: a [startTime] or
    [endTime] that is not a number, or an [error] that is not a string, has
    no value of the field's type and reads as the absent field. *)
Definition spread_step (action : Obj) (id description : string)
    (rawCode : option string) : TestStep.t :=
  TestStep.mk (action_part action) id description StepPending
    (number_at "startTime" action) (number_at "endTime" action)
    (string_at "error" action) (get "result" action) rawCode.

(** A field of the type [number | undefined] next to the value that the
    spread object holds under its key. *)
Definition number_field (v : JsValue) (f : option Z) : Prop :=
  match v with
  | JNum n => f = Some n
  | JUndefined => f = None
  | _ => True
  end.

(** The same for a field of the type [string | undefined]. *)
Definition string_field (v : JsValue) (f : option string) : Prop :=
  match v with
  | JStr m => f = Some m
  | JUndefined => f = None
  | _ => True
  end.

(** What the spread of an action [a] leaves in the step [s] made of it. *)
Definition spread_of (a : Obj) (s : TestStep.t) : Prop :=
  TestStep.action s = action_part a
  /\ TestStep.status s = StepPending
  /\ TestStep.result s = get "result" a
  /\ number_field (get "startTime" a) (TestStep.startTime s)
  /\ number_field (get "endTime" a) (TestStep.endTime s)
  /\ string_field (get "error" a) (TestStep.error s).

(** The keys that the object literals of [executeStep] write themselves,
    ahead of [...options]. *)
Definition literal_keys : list string :=
  ["cacheable"; "autoDismissKeyboard"; "domIncluded"; "screenshotIncluded";
   "timeoutMs"; "checkIntervalMs"; "title"; "content"; "verifyPrompt";
   "retryLimit"; "deepThink"].

(** The defaults that the object literals of [executeStep] write for a
    field the step does not define: [step.k ?? d] and [step.k || d] ahead
    of [...options], by the type of the step. *)
Definition case_defaults (ty : string) : Obj :=
  if String.eqb ty "aiAction" then [("cacheable", JBool true)]
  else if String.eqb ty "aiInput" then [("autoDismissKeyboard", JBool true)]
  else if String.eqb ty "aiQuery" || String.eqb ty "aiExtract"
          || String.eqb ty "aiAsk" || String.eqb ty "aiBoolean"
          || String.eqb ty "aiNumber" || String.eqb ty "aiString"
  then [("domIncluded", JBool false); ("screenshotIncluded", JBool true)]
  else if String.eqb ty "aiAssert" then [("timeoutMs", JNum 15000)]
  else if String.eqb ty "aiWaitFor"
  then [("timeoutMs", JNum 15000); ("checkIntervalMs", JNum 3000)]
  else [].

Section Dispatch.
Context {W : Type} (host : Host W).

(** [`${v}`]. *)
Definition template (v : JsValue) : string :=
  match v with
  | JStr s => s
  | _ => ToString host v
  end.

(** [{ domIncluded: step.domIncluded ?? false,
       screenshotIncluded: step.screenshotIncluded ?? true, ...options }]. *)
Definition extract_options (step : TestStep.t) (options : Obj) : Obj :=
  spread [("domIncluded", nullish (TestStep.field "domIncluded" step) (JBool false));
          ("screenshotIncluded",
           nullish (TestStep.field "screenshotIncluded" step) (JBool true))]
         options.

(** The [switch (step.type)] of [executeStep]. *)
Definition route (step : TestStep.t) (options : Obj) : Routed :=
  let f k := TestStep.field k step in
  match f "type" with
  | JStr ty =>
      if String.eqb ty "ai" then
        guarded (truthy (f "prompt")) (Call "ai" [f "prompt"] (Some options))
      else if String.eqb ty "aiAction" then
        guarded (truthy (f "prompt"))
          (Call "aiAction"
             [f "prompt"]
             (Some (spread [("cacheable", nullish (f "cacheable") (JBool true))]
                      options)))
      else if String.eqb ty "aiTap" then
        guarded (truthy (f "locate")) (Call "aiTap" [f "locate"] (Some options))
      else if String.eqb ty "aiInput" then
        guarded (truthy (f "text") && truthy (f "locate"))
          (Call "aiInput"
             [f "text"; f "locate"]
             (Some (spread [("autoDismissKeyboard",
                             nullish (f "autoDismissKeyboard") (JBool true))]
                      options)))
      else if String.eqb ty "aiHover" then
        guarded (truthy (f "locate")) (Call "aiHover" [f "locate"] (Some options))
      else if String.eqb ty "aiKeyboardPress" then
        guarded (truthy (f "key"))
          (Call "aiKeyboardPress" [f "key"; f "locate"] (Some options))
      else if String.eqb ty "aiScroll" then
        guarded (truthy (f "scrollParam"))
          (Call "aiScroll" [f "scrollParam"; f "locate"] (Some options))
      else if String.eqb ty "aiRightClick" then
        guarded (truthy (f "locate"))
          (Call "aiRightClick" [f "locate"] (Some options))
      else if String.eqb ty "aiDoubleClick" then
        guarded (truthy (f "locate"))
          (Call "aiTap"
             [JStr ("double click on " ++ template (f "locate"))] (Some options))
      else if String.eqb ty "aiQuery" then
        guarded (truthy (f "dataDemand"))
          (Call "aiQuery" [f "dataDemand"] (Some (extract_options step options)))
      else if String.eqb ty "aiExtract" then
        guarded (truthy (f "dataDemand"))
          (Call "aiQuery" [f "dataDemand"] (Some (extract_options step options)))
      else if String.eqb ty "aiAssert" then
        guarded (truthy (f "assertion"))
          (Call "aiAssert"
             [f "assertion"; f "errorMsg"]
             (Some (spread [("timeoutMs", or_else (f "timeoutMs") (JNum 15000))]
                      options)))
      else if String.eqb ty "aiWaitFor" then
        guarded (truthy (f "assertion"))
          (Call "aiWaitFor"
             [f "assertion"]
             (Some (spread [("timeoutMs", or_else (f "timeoutMs") (JNum 15000));
                            ("checkIntervalMs",
                             or_else (f "checkIntervalMs") (JNum 3000))]
                      options)))
      else if String.eqb ty "aiLocate" then
        guarded (truthy (f "locate")) (Call "aiLocate" [f "locate"] (Some options))
      else if String.eqb ty "aiAsk" then
        guarded (truthy (f "prompt"))
          (Call "aiAsk" [f "prompt"] (Some (extract_options step options)))
      else if String.eqb ty "aiBoolean" then
        guarded (truthy (f "prompt"))
          (Call "aiBoolean" [f "prompt"] (Some (extract_options step options)))
      else if String.eqb ty "aiNumber" then
        guarded (truthy (f "prompt"))
          (Call "aiNumber" [f "prompt"] (Some (extract_options step options)))
      else if String.eqb ty "aiString" then
        guarded (truthy (f "prompt"))
          (Call "aiString" [f "prompt"] (Some (extract_options step options)))
      else if String.eqb ty "logScreenshot" then
        Invoke (Call "logScreenshot"
                  [f "title"]
                  (Some (spread [("title", f "title"); ("content", f "content")]
                           options)))
      else if String.eqb ty "runYaml" then
        guarded (truthy (f "yamlScriptContent"))
          (Call "runYaml" [f "yamlScriptContent"] None)
      else if String.eqb ty "setAIActionContext" then
        if truthy (f "actionContext")
        then InvokeThen (Call "setAIActionContext" [f "actionContext"] None) (JBool true)
        else Nothing
      else if String.eqb ty "evaluateJavaScript" then
        guarded (truthy (f "script")) (Call "evaluateJavaScript" [f "script"] None)
      else if String.eqb ty "describeElementAtPoint" then
        guarded (negb (is_undefined (f "x")) && negb (is_undefined (f "y")))
          (Call "describeElementAtPoint"
             [JArr [f "x"; f "y"]]
             (Some (spread [("verifyPrompt", f "verifyPrompt");
                            ("retryLimit", f "retryLimit");
                            ("deepThink", f "deepThink")]
                      options)))
      else Unsupported
  | _ => Unsupported
  end.

(** The body of the [try] block up to the assignment of [result]. *)
Definition dispatch (d : nat) (step : TestStep.t) : M W (Outcome JsValue) :=
  match route step (buildExecutionOptions step) with
  | Invoke c => invoke host d c
  | InvokeThen c r =>
      (o <- invoke host d c ;;
       ret (match o with
            | inl e => inl e
            | inr _ => inr r
            end))%engine
  | Nothing => ret (inr JUndefined)
  | Unsupported =>
      ret (inl (ErrorObj ("Unsupported step type: "
                          ++ template (TestStep.field "type" step))))
  end.

(** [createAgent()]. *)
Definition createAgent (a : t) : M W t :=
  (d <- construct host ;;
   ret (mk (Some d) (Some d) true))%engine.

(** [destroy()]: an error of [page.destroy()] is logged and dropped, and
    [reset()] runs in the [finally]. *)
Definition destroy (a : t) : M W t :=
  match agent a with
  | Some d => (_ <- page_destroy host d ;; ret (reset a))%engine
  | None => ret (reset a)
  end.

(** [step.startTime ||= Date.now()]. *)
Definition stamp_start (step : TestStep.t) : M W TestStep.t :=
  match TestStep.startTime step with
  | Some t0 =>
      if (t0 =? 0)%Z
      then (now <- Date_now host ;; ret (TestStep.with_startTime (Some now) step))%engine
      else ret step
  | None => (now <- Date_now host ;; ret (TestStep.with_startTime (Some now) step))%engine
  end.

(** [executeStep(step)]: the agent after the call, and the returned step
    or the error that left the method.  [step.status ||= 'running'] changes
    nothing, every status being a non-empty string. *)
Definition executeStep (a : t) (step : TestStep.t) : M W (t * Outcome TestStep.t) :=
  (a1 <- destroy a ;;
   a2 <- createAgent a1 ;;
   match agent a2 with
   | None => ret (a2, inl (ErrorObj "Agent not initialized"))
   | Some d =>
       step1 <- stamp_start step ;;
       o <- dispatch d step1 ;;
       now <- Date_now host ;;
       let step2 :=
         match o with
         | inr r =>
             TestStep.with_result r
               (TestStep.with_endTime (Some now)
                  (TestStep.with_status StepSuccess step1))
         | inl e =>
             TestStep.with_error
               (Some (message_or e "Unknown error when executing step"))
               (TestStep.with_endTime (Some now)
                  (TestStep.with_status StepFailed step1))
         end in
       a3 <- destroy a2 ;;
       ret (a3, inr step2)
   end)%engine.
End Dispatch.

(** [v?.k] and [v.k] on a value that is not known to be an object. *)
Definition prop (k : string) (v : JsValue) : JsValue :=
  match v with
  | JObj fs => get k fs
  | _ => JUndefined
  end.

(** The double-quote character, as a string. *)
Definition dq : string := String (Ascii.ascii_of_nat 34) EmptyString.

(** The keys of an object, each once, in insertion order. *)
Fixpoint own_keys (fs : Obj) (seen : list string) : list string :=
  match fs with
  | [] => []
  | (k, _) :: r => if mem k seen then own_keys r seen else k :: own_keys r (k :: seen)
  end.

Section Parsing.
Context {W : Type} (host : Host W).

(** [xs.join(', ')]: [null] and [undefined] elements print as nothing. *)
Fixpoint join (xs : list JsValue) : string :=
  let item v := match v with
                | JUndefined | JNull => ""
                | _ => template host v
                end in
  match xs with
  | [] => ""
  | [x] => item x
  | x :: r => item x ++ ", " ++ join r
  end.

(** [typeof d === 'object' ? Object.keys(d) : [d]]; [Object.keys(null)]
    throws a TypeError. *)
Definition demand_keys (d : JsValue) : Outcome (list JsValue) :=
  match d with
  | JObj fs => inr (map JStr (own_keys fs []))
  | JArr xs => inr (map (fun i => JStr (ToString host (JNum (Z.of_nat i))))
                        (seq 0 (length xs)))
  | JNull => inl (ErrorObj "Cannot convert undefined or null to object")
  | _ => inr [d]
  end.

(** ['k' in action ? action.k : dflt]. *)
Definition field_or (k : string) (action : Obj) (dflt : string) : JsValue :=
  if has k action then get k action else JStr dflt.

(** The feature suffix of a description. *)
Definition featureText (action : Obj) : string :=
  let features :=
    ((if has "deepThink" action && truthy (get "deepThink" action)
      then [JStr "deep think"] else [])
     ++ (if has "cacheable" action
            && match get "cacheable" action with JBool false => true | _ => false end
         then [JStr "no cache"] else [])
     ++ (if has "xpath" action && truthy (get "xpath" action)
         then [JStr "xpath override"] else []))%list in
  match features with
  | [] => ""
  | _ => " (" ++ join features ++ ")"
  end.

(** [generateDescription(action)]. *)
Definition generateDescription (action : Obj) : Outcome string :=
  let ft := featureText action in
  let tpl := template host in
  let g k := get k action in
  match g "type" with
  | JStr ty =>
      if String.eqb ty "ai" then inr ("AI auto-plan: " ++ tpl (g "prompt") ++ ft)
      else if String.eqb ty "aiAction" then inr ("AI action: " ++ tpl (g "prompt") ++ ft)
      else if String.eqb ty "aiTap" then inr ("AI tap: " ++ tpl (g "locate") ++ ft)
      else if String.eqb ty "aiInput" then
        inr ("AI input " ++ dq ++ tpl (g "text") ++ dq ++ " to "
             ++ dq ++ tpl (g "locate") ++ dq ++ ft)
      else if String.eqb ty "aiHover" then inr ("AI hover: " ++ tpl (g "locate") ++ ft)
      else if String.eqb ty "aiKeyboardPress" then
        let keyName := field_or "key" action "unknown" in
        let keyTarget :=
          if has "locate" action && truthy (g "locate")
          then " on " ++ dq ++ tpl (g "locate") ++ dq
          else "" in
        inr ("AI keyboard press " ++ dq ++ tpl keyName ++ dq ++ keyTarget ++ ft)
      else if String.eqb ty "aiScroll" then
        let scrollInfo :=
          if has "scrollParam" action && truthy (prop "distance" (g "scrollParam"))
          then " " ++ tpl (prop "distance" (g "scrollParam")) ++ "px"
          else "" in
        let scrollDirection :=
          or_else (if has "scrollParam" action
                   then prop "direction" (g "scrollParam")
                   else JBool false)
                  (JStr "unknown") in
        inr ("AI scroll " ++ tpl scrollDirection ++ scrollInfo ++ ft)
      else if String.eqb ty "aiRightClick" then
        inr ("AI right click: " ++ tpl (field_or "locate" action "unknown") ++ ft)
      else if String.eqb ty "aiDoubleClick" then
        inr ("AI double click: " ++ tpl (field_or "locate" action "unknown") ++ ft)
      else if String.eqb ty "aiQuery" then
        match demand_keys (field_or "dataDemand" action "") with
        | inl e => inl e
        | inr ks => inr ("AI query: " ++ join ks ++ ft)
        end
      else if String.eqb ty "aiExtract" then
        match demand_keys (field_or "dataDemand" action "") with
        | inl e => inl e
        | inr ks => inr ("AI extract: " ++ join ks ++ ft)
        end
      else if String.eqb ty "aiAssert" then
        inr ("AI assert: " ++ tpl (field_or "assertion" action "unknown") ++ ft)
      else if String.eqb ty "aiWaitFor" then
        let timeoutInfo :=
          if has "timeoutMs" action && truthy (g "timeoutMs")
          then " (timeout: " ++ tpl (g "timeoutMs") ++ "ms)"
          else "" in
        inr ("AI wait for: " ++ tpl (field_or "assertion" action "unknown")
             ++ timeoutInfo ++ ft)
      else if String.eqb ty "aiLocate" then
        inr ("AI locate: " ++ tpl (field_or "locate" action "unknown") ++ ft)
      else if String.eqb ty "aiAsk" then
        inr ("AI ask: " ++ tpl (field_or "prompt" action "unknown") ++ ft)
      else if String.eqb ty "aiBoolean" then
        inr ("AI boolean: " ++ tpl (field_or "prompt" action "unknown") ++ ft)
      else if String.eqb ty "aiNumber" then
        inr ("AI number: " ++ tpl (field_or "prompt" action "unknown") ++ ft)
      else if String.eqb ty "aiString" then
        inr ("AI string: " ++ tpl (field_or "prompt" action "unknown") ++ ft)
      else if String.eqb ty "logScreenshot" then
        inr ("Log screenshot: "
             ++ tpl (or_else (field_or "title" action "screenshot") (JStr "screenshot"))
             ++ ft)
      else if String.eqb ty "runYaml" then inr ("Run YAML script" ++ ft)
      else if String.eqb ty "setAIActionContext" then
        inr ("Set AI action context: "
             ++ tpl (field_or "actionContext" action "unknown") ++ ft)
      else if String.eqb ty "evaluateJavaScript" then inr ("Evaluate JavaScript" ++ ft)
      else if String.eqb ty "describeElementAtPoint" then
        let coords :=
          if has "x" action && has "y" action
             && negb (is_undefined (g "x")) && negb (is_undefined (g "y"))
          then "(" ++ tpl (g "x") ++ ", " ++ tpl (g "y") ++ ")"
          else "unknown" in
        inr ("Describe element at point: " ++ coords ++ ft)
      else inr ("Unknown action: " ++ ty)
  | v => inr ("Unknown action: " ++ tpl v)
  end.

(** The callback of [actions.map]: the step
    [{ ...action, id: nanoid(), description, status: 'pending', rawCode: code[index] }]. *)
Definition make_step (code : list string) (action : Obj) (index : nat)
  : M W (Outcome TestStep.t) :=
  (i <- nanoid host ;;
   ret (match generateDescription action with
        | inl e => inl e
        | inr d => inr (spread_step action i d (code !! index))
        end))%engine.

(** [actions.map(callback)] from the given index on; a throwing callback
    ends the map. *)
Fixpoint make_steps (code : list string) (actions : list Obj) (index : nat)
  : M W (Outcome (list TestStep.t)) :=
  match actions with
  | [] => ret (inr [])
  | a :: r =>
      (o <- make_step code a index ;;
       match o with
       | inl e => ret (inl e)
       | inr s =>
           os <- make_steps code r (S index) ;;
           ret (match os with
                | inl e => inl e
                | inr ss => inr (s :: ss)
                end)
       end)%engine
  end.

(** [parseTestActionSequence(actionSequence)]. *)
Definition parseTestActionSequence (sq : ActionSequence.t)
  : M W (Outcome (list TestStep.t)) :=
  make_steps (ActionSequence.code sq) (ActionSequence.actions sq) 0.

(** Reading the output of [schemas.ActionSequence.parse] at the type
    [ActionSequence]. *)
Definition as_objects (xs : list JsValue) : option (list Obj) :=
  mapM (fun v => match v with JObj fs => Some fs | _ => None end) xs.

Definition as_strings (xs : list JsValue) : option (list string) :=
  mapM (fun v => match v with JStr s => Some s | _ => None end) xs.

Definition as_sequence (parsed : JsValue) : option ActionSequence.t :=
  match prop "actions" parsed, prop "code" (prop "display" parsed),
        prop "description" (prop "display" parsed) with
  | JArr acts, JArr cs, JStr d =>
      match as_objects acts, as_strings cs with
      | Some acts', Some cs' => Some (ActionSequence.mk acts' cs' d)
      | _, _ => None
      end
  | _, _, _ => None
  end.

(** The [catch] of [parseTestCode]. *)
Definition parse_failure (e : JsExn) : JsExn :=
  ErrorObj ("Failed to parse test code: "
            ++ message_or e "Unknown error when parsing test code").

(** [parseTestCode(code)]. *)
Definition parseTestCode (code : string) : M W (Outcome (list TestStep.t)) :=
  match JSON5_parse host code with
  | inl e => ret (inl (parse_failure e))
  | inr rawParsed =>
      match parse ActionSequenceSchema rawParsed with
      | None =>
          ret (inl (parse_failure
                      (ErrorObj (ZodError_message host ActionSequenceSchema rawParsed))))
      | Some parsed =>
          match as_sequence parsed with
          | None =>
              ret (inl (parse_failure
                          (ErrorObj "Cannot read properties of undefined")))
          | Some sq =>
              (o <- make_steps (ActionSequence.code sq) (ActionSequence.actions sq) 0 ;;
               ret (match o with
                    | inl e => inl (parse_failure e)
                    | inr ss => inr ss
                    end))%engine
          end
      end
  end.

(** [parseTestCodeOrActionSequence(actionSequence, code)]: an object is
    truthy, a string is truthy unless empty. *)
Definition parseTestCodeOrActionSequence
    (actionSequence : option ActionSequence.t) (code : option string)
  : M W (Outcome (list TestStep.t)) :=
  match actionSequence with
  | Some sq => parseTestActionSequence sq
  | None =>
      match code with
      | Some c => if String.eqb c "" then ret (inr []) else parseTestCode c
      | None => ret (inr [])
      end
  end.
End Parsing.

End AutomationAgent.

(* ====================================================================== *)
(** ** TestCaseExecutor: the orchestrator *)
(* ====================================================================== *)

Module TestCaseExecutor.

(** The events of [TestCaseExecutorEvents], with the case or step as it is
    when the event is emitted. *)
Inductive Event : Type :=
| caseStatusChanged (testCase : TestCase.t)
| stepStarted (step : TestStep.t)
| stepCompleted (step : TestStep.t)
| caseParsed (testCase : TestCase.t)
| caseExecutionFinished (testCase : TestCase.t).

(** The fields of the class.  [emitted] is the sequence of the [emit] calls
    made so far, oldest first; [dispatched] is the sequence of the indices
    at which [agent.executeStep] was called, oldest first. *)
Record t : Type := mk {
  testCase : TestCase.t;
  agent : AutomationAgent.t;
  isDestroyed : bool;
  emitted : list Event;
  dispatched : list nat
}.

Definition with_testCase (c : TestCase.t) (ex : t) : t :=
  mk c (agent ex) (isDestroyed ex) (emitted ex) (dispatched ex).

Definition with_agent (a : AutomationAgent.t) (ex : t) : t :=
  mk (testCase ex) a (isDestroyed ex) (emitted ex) (dispatched ex).

(** [emit(event, data)]. *)
Definition emit (e : Event) (ex : t) : t :=
  mk (testCase ex) (agent ex) (isDestroyed ex) (emitted ex ++ [e]) (dispatched ex).

Definition record_dispatch (i : nat) (ex : t) : t :=
  mk (testCase ex) (agent ex) (isDestroyed ex) (emitted ex) (dispatched ex ++ [i]).

(** The steps that the [stepCompleted] events of a log carry, in order. *)
Fixpoint completed_steps (es : list Event) : list TestStep.t :=
  match es with
  | [] => []
  | stepCompleted s :: r => s :: completed_steps r
  | _ :: r => completed_steps r
  end.

(** The step events of a log. *)
Definition is_step_event (e : Event) : bool :=
  match e with
  | stepStarted _ | stepCompleted _ => true
  | _ => false
  end.

(** What was emitted, and which indices were dispatched, between an earlier
    state [ex] of an executor and a later one [ex']. *)
Definition events_since (ex ex' : t) : list Event :=
  drop (length (emitted ex)) (emitted ex').

Definition dispatched_since (ex ex' : t) : list nat :=
  drop (length (dispatched ex)) (dispatched ex').

(** [getTestCase()], read as a value. *)
Definition getTestCase (ex : t) : TestCase.t := testCase ex.

(** [getStatus()]. *)
Definition getStatus (ex : t) : TestCaseStatus := TestCase.status (testCase ex).

(** [canExecute()]. *)
Definition canExecute (ex : t) : bool := AutomationAgent.isReady (agent ex).

(** [updateStatus(status)]. *)
Definition updateStatus (s : TestCaseStatus) (ex : t) : t :=
  let ex1 := with_testCase (TestCase.with_status s (testCase ex)) ex in
  emit (caseStatusChanged (getTestCase ex1)) ex1.

(** [this.testCase.steps[i]] after the step object at [i] was changed. *)
Definition set_step (i : nat) (s : TestStep.t) (ex : t) : t :=
  with_testCase
    (TestCase.with_steps (<[i := s]> (TestCase.steps (testCase ex))) (testCase ex)) ex.

(** [stop()]. *)
Definition stop (ex : t) : t :=
  match getStatus ex with
  | CaseRunning => updateStatus CaseStopped ex
  | _ => ex
  end.

(** [reset()]. *)
Definition reset (ex : t) : t :=
  let ex1 :=
    with_testCase
      (TestCase.with_steps [] (TestCase.with_status CaseCreated (testCase ex))) ex in
  emit (caseStatusChanged (getTestCase ex1)) ex1.

(** What [m] iterations of the step loop, entered at index [i] in state
    [ex], leave behind in [ex']: only the steps at [i .. i+m-1] differ, these
    were dispatched in order, all but the last of them succeeded, and the
    loop stopped before the end of the list only on a failed step. *)
Definition ran (i m : nat) (ex ex' : t) : Prop :=
  let steps_of x := TestCase.steps (testCase x) in
  testCase ex' = TestCase.with_steps (steps_of ex') (testCase ex)
  /\ isDestroyed ex' = isDestroyed ex
  /\ length (steps_of ex') = length (steps_of ex)
  /\ (i + m <= max i (length (steps_of ex)))%nat
  /\ dispatched ex' = (dispatched ex ++ seq i m)%list
  /\ (exists es, emitted ex' = (emitted ex ++ es)%list
                 /\ Forall (fun e => is_step_event e = true) es
                 /\ completed_steps es = take m (drop i (steps_of ex')))
  /\ (forall j, (j < i \/ i + m <= j)%nat -> steps_of ex' !! j = steps_of ex !! j)
  /\ (forall j s, (i <= j)%nat -> (S j < i + m)%nat -> steps_of ex' !! j = Some s ->
                  TestStep.status s = StepSuccess)
  /\ (forall s, (1 <= m)%nat -> steps_of ex' !! (i + m - 1)%nat = Some s ->
                TestStep.status s = StepSuccess \/ TestStep.status s = StepFailed)
  /\ ((i + m < length (steps_of ex))%nat ->
      exists s, (1 <= m)%nat /\ steps_of ex' !! (i + m - 1)%nat = Some s
                /\ TestStep.status s = StepFailed)
  /\ (m = 0%nat -> ex' = ex).

Section Run.
Context {W : Type} (host : Host W).

(** The constructor: [{ ...testCaseData, id: nanoid(), steps: [], status: 'created' }]. *)
Definition new (name userInput : string) (code : option string)
    (actionSequence : option ActionSequence.t) : M W t :=
  (i <- nanoid host ;;
   ret (mk (TestCase.mk i name userInput code actionSequence [] CaseCreated
              None None None)
           AutomationAgent.new false [] []))%engine.

(** [parse()].  The agent is a field initialised once and never cleared, so
    the [!this.agent] guard does not fire. *)
Definition parse (ex : t) : M W (t * Outcome unit) :=
  if isDestroyed ex then ret (ex, inr tt)
  else
    (o <- AutomationAgent.parseTestCodeOrActionSequence host
            (TestCase.actionSequence (testCase ex)) (TestCase.code (testCase ex)) ;;
     match o with
     | inr steps =>
         let ex1 := with_testCase (TestCase.with_steps steps (testCase ex)) ex in
         ret (emit (caseParsed (getTestCase ex1)) ex1, inr tt)
     | inl e =>
         let ex1 :=
           with_testCase
             (TestCase.with_error (Some (message_or e "Unknown code parsing error"))
                (testCase ex)) ex in
         ret (updateStatus CaseFailed ex1, inl e)
     end)%engine.

(** The [for] loop of [executeStepsWithProgress] from index [i] on.  [n]
    bounds the number of iterations left; the loop is entered with the
    length of the step list. *)
Fixpoint steps_loop (n i : nat) (ex : t) : M W (t * Outcome unit) :=
  match n with
  | O => ret (ex, inr tt)
  | S n' =>
      match TestCase.steps (testCase ex) !! i with
      | None => ret (ex, inr tt)
      | Some step =>
          (now <- Date_now host ;;
           let step1 :=
             TestStep.with_startTime (Some now)
               (TestStep.with_status StepRunning step) in
           let ex1 := emit (stepStarted step1) (set_step i step1 ex) in
           '(a, o) <- AutomationAgent.executeStep host (agent ex1) step1 ;;
           let ex2 := record_dispatch i (with_agent a ex1) in
           match o with
           | inl e => ret (ex2, inl e)
           | inr result =>
               let ex3 := emit (stepCompleted result) (set_step i result ex2) in
               match TestStep.status result with
               | StepFailed => ret (ex3, inr tt)
               | _ => steps_loop n' (S i) ex3
               end
           end)%engine
      end
  end.

(** [executeStepsWithProgress()]; the step list it returns is the one of
    the case. *)
Definition executeStepsWithProgress (ex : t) : M W (t * Outcome (list TestStep.t)) :=
  ('(ex', o) <- steps_loop (length (TestCase.steps (testCase ex))) 0 ex ;;
   ret (ex', match o with
             | inl e => inl e
             | inr _ => inr (TestCase.steps (testCase ex'))
             end))%engine.

(** [step => step.status === 'success']. *)
Definition succeeded (s : TestStep.t) : bool :=
  step_status_eqb (TestStep.status s) StepSuccess.

(** [execute()]. *)
Definition execute (ex : t) : M W (t * Outcome TestCase.t) :=
  (let ex1 := updateStatus CaseRunning ex in
   now <- Date_now host ;;
   let ex2 := with_testCase (TestCase.with_startTime (Some now) (testCase ex1)) ex1 in
   '(ex3, o) <- executeStepsWithProgress ex2 ;;
   match o with
   | inl e => ret (updateStatus CaseFailed ex3, inl e)
   | inr result =>
       let success := forallb succeeded result in
       let ex4 :=
         with_testCase
           (TestCase.with_status (if success then CaseCompleted else CaseFailed)
              (testCase ex3)) ex3 in
       fin <- Date_now host ;;
       let ex5 := with_testCase (TestCase.with_endTime (Some fin) (testCase ex4)) ex4 in
       let ex6 := updateStatus (TestCase.status (testCase ex5)) ex5 in
       ret (ex6, inr (getTestCase ex6))
   end)%engine.

(** [destroy()]. *)
Definition destroy (ex : t) : M W t :=
  (a <- AutomationAgent.destroy host (agent ex) ;;
   ret (mk (testCase ex) a true (emitted ex) (dispatched ex)))%engine.
End Run.

End TestCaseExecutor.

(* ====================================================================== *)
(** ** Object identity: what [{ ...this.testCase }] copies *)
(* ====================================================================== *)

Module Heap.

Definition loc : Type := nat.

(** A case object holds its primitive fields by value and its step array by
    reference; an array holds references to its step objects. *)
Record CaseObj : Type := mkCase {
  id : string;
  name : string;
  userInput : string;
  code : option string;
  actionSequence : option ActionSequence.t;
  steps : loc;
  status : TestCaseStatus;
  startTime : option Z;
  endTime : option Z;
  error : option string
}.

Inductive Cell : Type :=
| CaseCell (c : CaseObj)
| ArrayCell (items : list loc)
| StepCell (s : TestStep.t).

Record Store : Type := mkStore {
  cells : gmap loc Cell;
  next : loc
}.

(** A new object gets the next free address. *)
Definition alloc (c : Cell) (st : Store) : loc * Store :=
  (next st, mkStore (<[next st := c]> (cells st)) (S (next st))).

Definition case_at (st : Store) (l : loc) : option CaseObj :=
  match cells st !! l with
  | Some (CaseCell c) => Some c
  | _ => None
  end.

Definition array_at (st : Store) (l : loc) : option (list loc) :=
  match cells st !! l with
  | Some (ArrayCell items) => Some items
  | _ => None
  end.

Definition step_at (st : Store) (l : loc) : option TestStep.t :=
  match cells st !! l with
  | Some (StepCell s) => Some s
  | _ => None
  end.

(** The case reachable from a reference, read as a value. *)
Definition view (st : Store) (l : loc) : option TestCase.t :=
  match case_at st l with
  | Some c =>
      match array_at st (steps c) with
      | Some items =>
          match mapM (step_at st) items with
          | Some ss =>
              Some (TestCase.mk (id c) (name c) (userInput c) (code c)
                      (actionSequence c) ss (status c) (startTime c) (endTime c)
                      (error c))
          | None => None
          end
      | None => None
      end
  | None => None
  end.

(** [getTestCase()] on the executor whose [testCase] field holds [this]:
    [{ ...this.testCase }] is a new object with the same field values, the
    reference to the step array among them. *)
Definition getTestCase (this : loc) (st : Store) : option (loc * Store) :=
  match case_at st this with
  | Some c => Some (alloc (CaseCell c) st)
  | None => None
  end.

(** What a caller can do with a reference to a case object. *)
Inductive Mutation : Type :=
| AssignStatus (s : TestCaseStatus)           (* snap.status = s *)
| AssignError (e : option string)             (* snap.error = e *)
| AssignTimes (t0 t1 : option Z)              (* snap.startTime = t0; snap.endTime = t1 *)
| AssignSteps (r : loc)                       (* snap.steps = r *)
| AssignStepStatus (i : nat) (s : TestStepStatus)
                                              (* snap.steps[i].status = s *)
| TruncateSteps.                              (* snap.steps.length = 0 *)

(** Mutations that assign a field of the case object itself. *)
Definition own_field (m : Mutation) : bool :=
  match m with
  | AssignStatus _ | AssignError _ | AssignTimes _ _ | AssignSteps _ => true
  | AssignStepStatus _ _ | TruncateSteps => false
  end.

Definition put (l : loc) (c : Cell) (st : Store) : Store :=
  mkStore (<[l := c]> (cells st)) (next st).

Definition mutate (m : Mutation) (l : loc) (st : Store) : Store :=
  match case_at st l with
  | None => st
  | Some c =>
      match m with
      | AssignStatus s =>
          put l (CaseCell (mkCase (id c) (name c) (userInput c) (code c)
                             (actionSequence c) (steps c) s (startTime c)
                             (endTime c) (error c))) st
      | AssignError e =>
          put l (CaseCell (mkCase (id c) (name c) (userInput c) (code c)
                             (actionSequence c) (steps c) (status c) (startTime c)
                             (endTime c) e)) st
      | AssignTimes t0 t1 =>
          put l (CaseCell (mkCase (id c) (name c) (userInput c) (code c)
                             (actionSequence c) (steps c) (status c) t0 t1
                             (error c))) st
      | AssignSteps r =>
          put l (CaseCell (mkCase (id c) (name c) (userInput c) (code c)
                             (actionSequence c) r (status c) (startTime c)
                             (endTime c) (error c))) st
      | AssignStepStatus i s =>
          match array_at st (steps c) with
          | Some items =>
              match items !! i with
              | Some sl =>
                  match step_at st sl with
                  | Some step => put sl (StepCell (TestStep.with_status s step)) st
                  | None => st
                  end
              | None => st
              end
          | None => st
          end
      | TruncateSteps =>
          match array_at st (steps c) with
          | Some _ => put (steps c) (ArrayCell []) st
          | None => st
          end
      end
  end.

(** Addresses from [next] on are free. *)
Definition fresh_above (st : Store) : Prop :=
  forall l : loc, (next st <= l)%nat -> cells st !! l = None.

(** An executor that owns a case of one pending step: the case object at
    address 0, its step array at 1, the step object at 2. *)
Definition sample_step : TestStep.t :=
  TestStep.mk [("type", JStr "aiTap"); ("locate", JStr "login button")]
    "step" "AI tap: login button" StepPending None None None JUndefined
    (Some "await aiTap('login button')").

Definition sample_case : CaseObj :=
  mkCase "case" "Automated Test Case" "log in" None None 1%nat CaseRunning
    (Some 0%Z) None None.

Definition sample_store : Store :=
  mkStore (<[0%nat := CaseCell sample_case]>
             (<[1%nat := ArrayCell [2%nat]]>
                (<[2%nat := StepCell sample_step]> ∅))) 3%nat.

End Heap.

(* ====================================================================== *)
(** ** Sample data *)
(* ====================================================================== *)

Module Samples.

(** A host whose world is a counter: it is the clock, the source of driver
    handles and the source of identifiers.  A driver method throws when
    [fails] says so and returns [true] otherwise. *)
Definition host (fails : string -> bool) : Host nat := {|
  construct := fun w => (w, S w);
  invoke := fun _ c w =>
    match c with
    | Call m _ _ => if fails m
                  then (inl (ErrorObj "element not found"), S w)
                  else (inr (JBool true), S w)
    end;
  page_destroy := fun _ w => (inr tt, S w);
  Date_now := fun w => (Z.of_nat w, S w);
  nanoid := fun w => ("step", S w);
  JSON5_parse := fun _ => inl (ErrorObj "JSON5: invalid character");
  ZodError_message := fun _ _ => "Invalid input";
  ToString := fun _ => "?"
|}.

(** The same host, with a [JSON5.parse] that reads every code string as [v]. *)
Definition host_reading (v : JsValue) (fails : string -> bool) : Host nat := {|
  construct := construct (host fails);
  invoke := invoke (host fails);
  page_destroy := page_destroy (host fails);
  Date_now := Date_now (host fails);
  nanoid := nanoid (host fails);
  JSON5_parse := fun _ => inr v;
  ZodError_message := ZodError_message (host fails);
  ToString := ToString (host fails)
|}.

Definition never (m : string) : bool := false.
Definition on_assert (m : string) : bool := String.eqb m "aiAssert".

Definition step_of (action : Obj) : TestStep.t :=
  TestStep.mk action "step" "" StepPending None None None JUndefined None.

Definition tap_login : Obj :=
  [("type", JStr "aiTap"); ("locate", JStr "login button")].

Definition assert_dashboard : Obj :=
  [("type", JStr "aiAssert"); ("assertion", JStr "dashboard is visible")].

Definition tap_logout : Obj :=
  [("type", JStr "aiTap"); ("locate", JStr "logout button")].

Definition case_of (steps : list TestStep.t) : TestCase.t :=
  TestCase.mk "case" "Automated Test Case" "log in" None None steps CaseCreated
    None None None.

Definition executor_of (steps : list TestStep.t) : TestCaseExecutor.t :=
  TestCaseExecutor.mk (case_of steps) AutomationAgent.new false [] [].



Definition login_sequence : ActionSequence.t :=
  ActionSequence.mk [tap_login; assert_dashboard]
    ["await aiTap('login button')"; "await aiAssert('dashboard is visible')"]
    "log in and check the dashboard".

(** A fresh executor for a case built from the given inputs. *)
Definition executor_for (code : option string)
    (actionSequence : option ActionSequence.t) : TestCaseExecutor.t :=
  TestCaseExecutor.mk
    (TestCase.mk "case" "Automated Test Case" "log in" code actionSequence []
       CaseCreated None None None)
    AutomationAgent.new false [] [].

(** A well-formed tap with a key that no shape knows. *)
Definition tap_with_extra : Obj :=
  [("type", JStr "aiTap"); ("locate", JStr "login button");
   ("deepThink", JBool true); ("bogus", JNum 1)].


(** Three actions with two display-code strings. *)
Definition short_of_code : ActionSequence.t :=
  ActionSequence.mk [tap_login; assert_dashboard; tap_logout]
    ["await aiTap('login button')"; "await aiAssert('dashboard is visible')"]
    "log in, check, log out".

(** A tap that was skipped by hand before the run. *)
Definition skipped_tap : TestStep.t :=
  TestStep.with_status StepSkipped (step_of tap_login).

Definition three_steps : list TestStep.t :=
  [step_of tap_login; step_of assert_dashboard; step_of tap_logout].

End Samples.


(* ====================================================================== *)
(** ** Further sample data *)
(* ====================================================================== *)

Module MoreSamples.

(** A tap whose [locate] is the empty string. *)
Definition tap_on_nothing : Obj := [("type", JStr "aiTap"); ("locate", JStr "")].

(** A key press with the empty key. *)
Definition press_nothing : Obj := [("type", JStr "aiKeyboardPress"); ("key", JStr "")].

(** An action the validator knows and the dispatcher does not. *)
Definition freeze : Obj := [("type", JStr "freezePageContext")].

(** A tap that asks for an xpath. *)
Definition tap_with_xpath : Obj :=
  [("type", JStr "aiTap"); ("locate", JStr "login button");
   ("xpath", JStr "//button[1]")].

(** A query for two named values. *)
Definition query_titles : Obj :=
  [("type", JStr "aiQuery");
   ("dataDemand", JObj [("formTitle", JStr "text of the h1 element");
                        ("submitButtonText", JStr "text of the submit button")])].

(** A driver on which every tap throws. *)
Definition on_tap (m : string) : bool := String.eqb m "aiTap".

End MoreSamples.

(* ====================================================================== *)
(** ** The cases of the dispatch switch *)
(* ====================================================================== *)

Module Coverage.

(** The [case] labels of the [switch] in [executeStep], in source order. *)
Definition handled_types : list string :=
  ["ai"; "aiAction"; "aiTap"; "aiInput"; "aiHover"; "aiKeyboardPress";
   "aiScroll"; "aiRightClick"; "aiDoubleClick"; "aiQuery"; "aiExtract";
   "aiAssert"; "aiWaitFor"; "aiLocate"; "aiAsk"; "aiBoolean"; "aiNumber";
   "aiString"; "logScreenshot"; "runYaml"; "setAIActionContext";
   "evaluateJavaScript"; "describeElementAtPoint"].

(** The action types that have no [case]. *)
Definition unhandled_types : list string :=
  ["freezePageContext"; "unfreezePageContext"; "verifyLocator"].

End Coverage.

(* ====================================================================== *)
(** ** What a run leaves on steps and in the event log *)
(* ====================================================================== *)

Module Protocol.

(** The fields of a step that come from its action and its creation. *)
Definition same_identity (s s' : TestStep.t) : Prop :=
  TestStep.action s' = TestStep.action s
  /\ TestStep.id s' = TestStep.id s
  /\ TestStep.description s' = TestStep.description s
  /\ TestStep.rawCode s' = TestStep.rawCode s.

(** A step that went through [executeStep]. *)
Definition stamped (s : TestStep.t) : Prop :=
  is_Some (TestStep.startTime s)
  /\ is_Some (TestStep.endTime s)
  /\ (TestStep.status s = StepSuccess \/ TestStep.status s = StepFailed)
  /\ (TestStep.status s = StepFailed -> is_Some (TestStep.error s)).

(** Step events in pairs: a [stepStarted] with a running step, directly
    followed by the [stepCompleted] of the step with the same id, which is
    [success] or [failed]. *)
Fixpoint paired (es : list TestCaseExecutor.Event) : bool :=
  match es with
  | [] => true
  | TestCaseExecutor.stepStarted s :: TestCaseExecutor.stepCompleted s' :: r =>
      String.eqb (TestStep.id s) (TestStep.id s')
      && step_status_eqb (TestStep.status s) StepRunning
      && (step_status_eqb (TestStep.status s') StepSuccess
          || step_status_eqb (TestStep.status s') StepFailed)
      && paired r
  | _ => false
  end.

(** Step events that follow the steps of a list one by one, in order: for
    each step a [stepStarted] that carries the step as it was before, put in
    [running] with a start time, directly followed by a [stepCompleted] that
    carries the step as it is afterwards. *)
Fixpoint follows (es : list TestCaseExecutor.Event) (before after : list TestStep.t)
  : Prop :=
  match es, before, after with
  | [], [], [] => True
  | TestCaseExecutor.stepStarted s1 :: TestCaseExecutor.stepCompleted s2 :: r,
    s :: b, s' :: a =>
      (exists now, s1 = TestStep.with_startTime (Some now)
                          (TestStep.with_status StepRunning s))
      /\ s2 = s' /\ follows r b a
  | _, _, _ => False
  end.

(** What the step loop, entered at index [i] in state [ex], leaves in
    [ex'] besides the statuses: the steps keep their identity, the steps
    before [i] are untouched, the events come in pairs, two for each
    dispatch, every dispatched step is stamped, and the agent holds no driver
    once a step was dispatched. *)
Definition loop_keeps (i : nat) (ex ex' : TestCaseExecutor.t) : Prop :=
  Forall2 same_identity (TestCase.steps (TestCaseExecutor.testCase ex))
          (TestCase.steps (TestCaseExecutor.testCase ex'))
  /\ (forall j, (j < i)%nat ->
        TestCase.steps (TestCaseExecutor.testCase ex') !! j
        = TestCase.steps (TestCaseExecutor.testCase ex) !! j)
  /\ exists es ds,
      TestCaseExecutor.emitted ex' = (TestCaseExecutor.emitted ex ++ es)%list
      /\ TestCaseExecutor.dispatched ex' = (TestCaseExecutor.dispatched ex ++ ds)%list
      /\ paired es = true
      /\ length es = (2 * length ds)%nat
      /\ Forall (fun j => (i <= j)%nat) ds
      /\ (forall j s, In j ds ->
            TestCase.steps (TestCaseExecutor.testCase ex') !! j = Some s ->
            stamped s)
      /\ ((ds = [] /\ TestCaseExecutor.agent ex' = TestCaseExecutor.agent ex)
          \/ (ds <> []
              /\ TestCaseExecutor.agent ex' = AutomationAgent.mk None None false)).

End Protocol.

(* ====================================================================== *)
(** ** AIConfig.ts: model configurations *)
(* ====================================================================== *)

(** [Map<string, V>]: the entries in insertion order. *)
Module JsMap.
Section Ops.
Context {V : Type}.

(** [map.get(k)]. *)
Fixpoint get (k : string) (m : list (string * V)) : option V :=
  match m with
  | [] => None
  | (k', v) :: r => if String.eqb k k' then Some v else get k r
  end.

(** [map.has(k)]. *)
Definition has (k : string) (m : list (string * V)) : bool :=
  match get k m with Some _ => true | None => false end.

(** [map.set(k, v)]: an existing key keeps its place, a new one goes last. *)
Fixpoint set (k : string) (v : V) (m : list (string * V)) : list (string * V) :=
  match m with
  | [] => [(k, v)]
  | (k', v') :: r => if String.eqb k k' then (k', v) :: r else (k', v') :: set k v r
  end.

(** [map.delete(k)]. *)
Definition delete (k : string) (m : list (string * V)) : list (string * V) :=
  List.filter (fun e => negb (String.eqb k (fst e))) m.

(** [Array.from(map.values())]. *)
Definition values (m : list (string * V)) : list V := map snd m.

(** [Array.from(map.keys())]. *)
Definition keys (m : list (string * V)) : list string := map fst m.
End Ops.
End JsMap.

(** [array.sort(cmp)]: the stable sort, by insertion from the right. *)
Section StableSort.
Context {A : Type} (cmp : A -> A -> Z).

Fixpoint insert_sorted (x : A) (l : list A) : list A :=
  match l with
  | [] => [x]
  | y :: r => if (cmp x y <=? 0)%Z then x :: y :: r else y :: insert_sorted x r
  end.

Definition stable_sort (l : list A) : list A := fold_right insert_sorted [] l.
End StableSort.

Module AIConfig.

Inductive ModelType : Type := VISION | LANGUAGE.

Definition model_type_eqb (a b : ModelType) : bool :=
  match a, b with
  | VISION, VISION | LANGUAGE, LANGUAGE => true
  | _, _ => false
  end.

(** The string value of the enum member. *)
Definition model_type_name (t : ModelType) : string :=
  match t with
  | VISION => "vision"
  | LANGUAGE => "language"
  end.

Record DeepThinkConfig : Type := mkDeepThink {
  enabled : bool;
  reasoning : bool
}.

(** The type that [AIConfigSchema] infers. *)
Record t : Type := mk {
  id : string;
  name : string;
  apiKey : string;
  baseURL : string;
  model : string;
  description : option string;
  isEnabled : bool;
  modelType : ModelType;
  deepThink : DeepThinkConfig
}.

(** [config.isEnabled = b]. *)
Definition with_isEnabled (b : bool) (c : t) : t :=
  mk (id c) (name c) (apiKey c) (baseURL c) (model c) (description c) b
     (modelType c) (deepThink c).

(** The configuration with another id. *)
Definition with_id (i : string) (c : t) : t :=
  mk i (name c) (apiKey c) (baseURL c) (model c) (description c) (isEnabled c)
     (modelType c) (deepThink c).

(** The configuration as the object it is at run time; an absent
    description is an absent key. *)
Definition to_js (c : t) : Obj :=
  ([("id", JStr (id c)); ("name", JStr (name c)); ("apiKey", JStr (apiKey c));
    ("baseURL", JStr (baseURL c)); ("model", JStr (model c))]
   ++ match description c with
      | Some d => [("description", JStr d)]
      | None => []
      end
   ++ [("isEnabled", JBool (isEnabled c));
       ("modelType", JStr (model_type_name (modelType c)));
       ("deepThink", JObj [("enabled", JBool (enabled (deepThink c)));
                           ("reasoning", JBool (reasoning (deepThink c)))])])%list.

Section Schema.
(** [z.url()]: the host decides whether a string is a URL, and which string
    the check leaves in its place. *)
Variable url : string -> option string.

(** [z.string().min(1, ...)]. *)
Definition non_empty (v : JsValue) : option string :=
  match v with
  | JStr s => if String.eqb s "" then None else Some s
  | _ => None
  end.

(** [z.boolean().default(d)] and [z.boolean().optional().default(d)]. *)
Definition boolean_default (d : bool) (v : JsValue) : option bool :=
  match v with
  | JUndefined => Some d
  | JBool b => Some b
  | _ => None
  end.

(** [z.string().optional()]. *)
Definition optional_string (v : JsValue) : option (option string) :=
  match v with
  | JUndefined => Some None
  | JStr s => Some (Some s)
  | _ => None
  end.

(** [z.enum(ModelType)]. *)
Definition model_type_of (v : JsValue) : option ModelType :=
  match v with
  | JStr s => if String.eqb s "vision" then Some VISION
              else if String.eqb s "language" then Some LANGUAGE
              else None
  | _ => None
  end.

(** [z.url(...)]. *)
Definition url_of (v : JsValue) : option string :=
  match v with
  | JStr s => url s
  | _ => None
  end.

(** [DeepThinkConfigSchema.parse]. *)
Definition DeepThinkConfigSchema_parse (v : JsValue) : option DeepThinkConfig :=
  match v with
  | JObj fs =>
      match boolean_default false (Js.get "enabled" fs),
            boolean_default true (Js.get "reasoning" fs) with
      | Some e, Some r => Some (mkDeepThink e r)
      | _, _ => None
      end
  | _ => None
  end.

(** [AIConfigSchema.parse]: [None] for a ZodError. *)
Definition AIConfigSchema_parse (v : JsValue) : option t :=
  match v with
  | JObj fs =>
      match non_empty (Js.get "id" fs), non_empty (Js.get "name" fs),
            non_empty (Js.get "apiKey" fs), url_of (Js.get "baseURL" fs),
            non_empty (Js.get "model" fs) with
      | Some i, Some n, Some k, Some u, Some m =>
          match optional_string (Js.get "description" fs),
                boolean_default false (Js.get "isEnabled" fs),
                model_type_of (Js.get "modelType" fs),
                DeepThinkConfigSchema_parse (Js.get "deepThink" fs) with
          | Some d, Some e, Some ty, Some dt => Some (mk i n k u m d e ty dt)
          | _, _, _, _ => None
          end
      | _, _, _, _, _ => None
      end
  | _ => None
  end.

(** What the schema asks of a configuration that already has its type. *)
Definition valid (c : t) : bool :=
  negb (String.eqb (id c) "") && negb (String.eqb (name c) "")
  && negb (String.eqb (apiKey c) "")
  && match url (baseURL c) with
     | Some u => String.eqb u (baseURL c)
     | None => false
     end
  && negb (String.eqb (model c) "").
End Schema.

End AIConfig.

Module AIConfigManager.

(** What a method of the manager throws. *)
Inductive Failure : Type :=
  | ZodError
  | Raised (e : JsExn).

(** What the manager reaches outside itself.  The stored value is read at
    the type [StorageData]: the entries of [data[storageKey].configs] when
    there is such a record. *)
Record Host (W : Type) : Type := {
  nanoid : W -> string * W;
  url : string -> option string;
  getStorage : W -> Outcome (option (list (string * JsValue))) * W;
  setStorage : list (string * JsValue) -> W -> Outcome unit * W;
  (** [JSON.parse(jsonData)] read at [StorageData]: the entries of
      [data.configs], [None] when [data.configs] is falsy. *)
  JSON_parse : string -> Outcome (option (list (string * JsValue)));
  toLowerCase : string -> string
}.

Arguments nanoid {W}.
Arguments url {W}.
Arguments getStorage {W}.
Arguments setStorage {W}.
Arguments JSON_parse {W}.
Arguments toLowerCase {W}.

(** [configs] and [initialized]. *)
Record t : Type := mk {
  configs : list (string * AIConfig.t);
  initialized : bool
}.

Definition new : t := mk [] false.

(** [a.isEnabled === b.isEnabled ? 0 : a.isEnabled ? -1 : 1]. *)
Definition enabled_first (a b : AIConfig.t) : Z :=
  if Bool.eqb (AIConfig.isEnabled a) (AIConfig.isEnabled b) then 0%Z
  else if AIConfig.isEnabled a then (-1)%Z else 1%Z.

(** [cfg => cfg.modelType === modelType]. *)
Definition of_type (ty : AIConfig.ModelType) (c : AIConfig.t) : bool :=
  AIConfig.model_type_eqb (AIConfig.modelType c) ty.

(** [getConfig(id)]. *)
Definition getConfig (id : string) (m : t) : option AIConfig.t :=
  JsMap.get id (configs m).

(** [getAllConfigs()]. *)
Definition getAllConfigs (m : t) : list AIConfig.t :=
  stable_sort enabled_first (JsMap.values (configs m)).

(** [getConfigsByType(modelType)]. *)
Definition getConfigsByType (ty : AIConfig.ModelType) (m : t) : list AIConfig.t :=
  stable_sort enabled_first (List.filter (of_type ty) (JsMap.values (configs m))).

(** [getDeepThinkConfigs()]. *)
Definition getDeepThinkConfigs (m : t) : list AIConfig.t :=
  stable_sort enabled_first
    (List.filter (fun c => AIConfig.enabled (AIConfig.deepThink c))
                 (JsMap.values (configs m))).

(** [getEnabledConfigByType(modelType)]. *)
Definition getEnabledConfigByType (ty : AIConfig.ModelType) (m : t)
  : option AIConfig.t :=
  List.find AIConfig.isEnabled (getConfigsByType ty m).

(** The callback of [ensureSingleEnabledPerType]. *)
Definition disable_other (ty : AIConfig.ModelType) (excludeId : string)
    (entry : string * AIConfig.t) : string * AIConfig.t :=
  if of_type ty (snd entry) && negb (String.eqb (fst entry) excludeId)
  then (fst entry, AIConfig.with_isEnabled false (snd entry))
  else entry.

(** [ensureSingleEnabledPerType(modelType, excludeId)]. *)
Definition ensureSingleEnabledPerType (ty : AIConfig.ModelType) (excludeId : string)
    (m : t) : t :=
  mk (map (disable_other ty excludeId) (configs m)) (initialized m).

(** [Object.fromEntries(this.configs)], as it is handed to the storage. *)
Definition entries (m : t) : list (string * JsValue) :=
  map (fun e => (fst e, JObj (AIConfig.to_js (snd e)))) (configs m).

Section Manager.
Context {W : Type} (host : Host W).

(** [findConfigByName(name)]. *)
Definition findConfigByName (name : string) (m : t) : option AIConfig.t :=
  List.find (fun c => String.eqb (toLowerCase host (AIConfig.name c))
                                 (toLowerCase host name))
            (JsMap.values (configs m)).

(** [saveToStorage()]: an error of the storage is logged and dropped. *)
Definition saveToStorage (m : t) : M W unit :=
  (r <- setStorage host (entries m) ;; ret tt)%engine.

(** The callback of the [forEach] of [loadFromStorage]: an entry that does
    not validate is skipped. *)
Definition load_entry (cs : list (string * AIConfig.t)) (e : string * JsValue)
  : list (string * AIConfig.t) :=
  match AIConfig.AIConfigSchema_parse (url host) (snd e) with
  | Some c => JsMap.set (fst e) c cs
  | None => cs
  end.

(** [loadFromStorage()]: an error of the storage is logged and dropped. *)
Definition loadFromStorage (m : t) : M W t :=
  (r <- getStorage host ;;
   ret (match r with
        | inr (Some stored) => mk (fold_left load_entry stored []) (initialized m)
        | _ => m
        end))%engine.

(** [initialize()]. *)
Definition initialize (m : t) : M W t :=
  if initialized m then ret m
  else (m1 <- loadFromStorage m ;; ret (mk (configs m1) true))%engine.

(** [addConfig(config)]: the configuration made, or the ZodError. *)
Definition addConfig (config : AIConfig.t) (m : t)
  : M W (t * (Failure + AIConfig.t)) :=
  (i <- nanoid host ;;
   match AIConfig.AIConfigSchema_parse (url host)
           (JObj (Js.spread (AIConfig.to_js config) [("id", JStr i)])) with
   | None => ret (m, inl ZodError)
   | Some newConfig =>
       let m1 := if AIConfig.isEnabled newConfig
                 then ensureSingleEnabledPerType (AIConfig.modelType newConfig)
                        (AIConfig.id newConfig) m
                 else m in
       let m2 := mk (JsMap.set (AIConfig.id newConfig) newConfig (configs m1))
                    (initialized m1) in
       _ <- saveToStorage m2 ;;
       ret (m2, inr newConfig)
   end)%engine.

(** [updateConfig(id, updates)]: [updates] is the object that is spread over
    the existing configuration. *)
Definition updateConfig (id : string) (updates : Obj) (m : t)
  : M W (t * (Failure + AIConfig.t)) :=
  match JsMap.get id (configs m) with
  | None =>
      ret (m, inl (Raised (ErrorObj
                     ("Configuration with id '" ++ id ++ "' not found"))))
  | Some existingConfig =>
      match AIConfig.AIConfigSchema_parse (url host)
              (JObj (Js.spread (Js.spread (AIConfig.to_js existingConfig) updates)
                       [("id", JStr id)])) with
      | None => ret (m, inl ZodError)
      | Some updatedConfig =>
          let m1 := if AIConfig.isEnabled updatedConfig
                       && negb (AIConfig.isEnabled existingConfig)
                    then ensureSingleEnabledPerType (AIConfig.modelType updatedConfig)
                           id m
                    else m in
          let m2 := mk (JsMap.set id updatedConfig (configs m1)) (initialized m1) in
          (_ <- saveToStorage m2 ;;
           ret (m2, inr updatedConfig))%engine
      end
  end.

(** [deleteConfig(id)]. *)
Definition deleteConfig (id : string) (m : t) : M W (t * bool) :=
  if JsMap.has id (configs m)
  then
    let m1 := mk (JsMap.delete id (configs m)) (initialized m) in
    (_ <- saveToStorage m1 ;; ret (m1, true))%engine
  else ret (m, false).

(** [clearAllConfigs()]. *)
Definition clearAllConfigs (m : t) : M W t :=
  let m1 := mk [] (initialized m) in
  (_ <- saveToStorage m1 ;; ret m1)%engine.

(** The callback of the [forEach] of [importConfigs]. *)
Definition import_entry (acc : list (string * AIConfig.t) * nat) (e : string * JsValue)
  : list (string * AIConfig.t) * nat :=
  if JsMap.has (fst e) (fst acc) then acc
  else match AIConfig.AIConfigSchema_parse (url host) (snd e) with
       | Some c => (JsMap.set (fst e) c (fst acc), S (snd acc))
       | None => acc
       end.

(** [importConfigs(jsonData)]: the number of configurations imported, or
    the error of [JSON.parse] or of the missing [configs]. *)
Definition importConfigs (jsonData : string) (m : t) : M W (t * (Failure + nat)) :=
  (m1 <- initialize m ;;
   match JSON_parse host jsonData with
   | inl e => ret (m1, inl (Raised e))
   | inr None => ret (m1, inl (Raised (ErrorObj "Invalid configuration data")))
   | inr (Some data) =>
       let acc := fold_left import_entry data (configs m1, 0%nat) in
       let m2 := mk (fst acc) (initialized m1) in
       _ <- saveToStorage m2 ;;
       ret (m2, inr (snd acc))
   end)%engine.
End Manager.

(** [cfg => cfg.isEnabled && cfg.modelType === modelType]. *)
Definition enabled_as (ty : AIConfig.ModelType) (c : AIConfig.t) : bool :=
  AIConfig.isEnabled c && of_type ty c.

(** The number of enabled configurations of a type. *)
Definition enabled_of_type (ty : AIConfig.ModelType) (m : t) : nat :=
  length (List.filter (enabled_as ty) (JsMap.values (configs m))).

(** At most one configuration of each type is enabled. *)
Definition single_enabled (m : t) : Prop :=
  forall ty, (enabled_of_type ty m <= 1)%nat.

End AIConfigManager.

Module ConfigSamples.

(** A world: the ids still to be handed out, and what the storage holds. *)
Definition World : Type := list string * option (list (string * JsValue)).

Definition vision (i : string) (e : bool) : AIConfig.t :=
  AIConfig.mk i "qwen-vl" "sk-1" "https://example.com/v1" "qwen-vl-max" None e
    AIConfig.VISION (AIConfig.mkDeepThink false true).

Definition language (i : string) (e : bool) : AIConfig.t :=
  AIConfig.mk i "deepseek" "sk-2" "https://example.org/v1" "deepseek-chat"
    (Some "chat") e AIConfig.LANGUAGE (AIConfig.mkDeepThink true true).

Definition host : AIConfigManager.Host World := {|
  AIConfigManager.nanoid := fun w =>
    match fst w with
    | i :: r => (i, (r, snd w))
    | [] => ("id", w)
    end;
  AIConfigManager.url := fun s => if String.prefix "http" s then Some s else None;
  AIConfigManager.getStorage := fun w => (inr (snd w), w);
  AIConfigManager.setStorage := fun es w => (inr tt, (fst w, Some es));
  AIConfigManager.JSON_parse := fun s =>
    if String.eqb s "" then inl (ErrorObj "Unexpected end of JSON input")
    else inr (Some [("c1", JObj (AIConfig.to_js (vision "c1" false)));
                    ("c3", JObj (AIConfig.to_js (language "c3" true)));
                    ("c4", JObj [("id", JStr "c4")])]);
  AIConfigManager.toLowerCase := fun s => s
|}.

(** Two configurations, both enabled, one of each type. *)
Definition two : AIConfigManager.t :=
  AIConfigManager.mk [("c1", vision "c1" true); ("c2", language "c2" true)] true.

Definition world : World := (["c7"; "c8"], None).

End ConfigSamples.

(* ====================================================================== *)
(** ** useChat.ts: the chat messages that follow a run *)
(* ====================================================================== *)

Module Chat.

Inductive MessageType : Type := User | Assistant.

(** [ChatMessage]. *)
Record ChatMessage : Type := mk {
  id : string;
  type : MessageType;
  content : string;
  progressInfo : option string;
  reasoning : option (list string);
  testCase : option TestCase.t;
  timestamp : Z;
  isThinking : option bool;
  isGenerating : option bool;
  isExecuting : option bool
}.

(** [{ ...msg, testCase }]. *)
Definition with_testCase (c : TestCase.t) (msg : ChatMessage) : ChatMessage :=
  mk (id msg) (type msg) (content msg) (progressInfo msg) (reasoning msg) (Some c)
     (timestamp msg) (isThinking msg) (isGenerating msg) (isExecuting msg).

(** [s => s.id === step.id]. *)
Definition same_id (step s : TestStep.t) : bool :=
  String.eqb (TestStep.id s) (TestStep.id step).

(** [steps.map(s => (s.id === step.id ? step : s))]. *)
Definition replace_step (step : TestStep.t) (steps : list TestStep.t)
  : list TestStep.t :=
  map (fun s => if same_id step s then step else s) steps.

(** The callback of the [map] over the messages in [updateStep]. *)
Definition update_message (step : TestStep.t) (msg : ChatMessage) : ChatMessage :=
  match type msg, testCase msg with
  | Assistant, Some c =>
      if existsb (same_id step) (TestCase.steps c)
      then with_testCase
             (TestCase.with_steps (replace_step step (TestCase.steps c)) c) msg
      else msg
  | _, _ => msg
  end.

(** [updateStep(step)]: the function it hands to [setMessages]. *)
Definition updateStep (step : TestStep.t) (prev : list ChatMessage)
  : list ChatMessage :=
  map (update_message step) prev.

(** The listeners that [sendMessage] puts on [stepStarted] and
    [stepCompleted], as functions of the messages. *)
Definition on_step_event (e : TestCaseExecutor.Event) (prev : list ChatMessage)
  : list ChatMessage :=
  match e with
  | TestCaseExecutor.stepStarted step | TestCaseExecutor.stepCompleted step =>
      updateStep step prev
  | _ => prev
  end.

(** What the listeners do to the steps of a case that a message holds. *)
Definition follow (e : TestCaseExecutor.Event) (steps : list TestStep.t)
  : list TestStep.t :=
  match e with
  | TestCaseExecutor.stepStarted step | TestCaseExecutor.stepCompleted step =>
      replace_step step steps
  | _ => steps
  end.

(** The messages after the step events of a log, oldest first. *)
Definition replay (es : list TestCaseExecutor.Event) (prev : list ChatMessage)
  : list ChatMessage :=
  fold_left (fun ms e => on_step_event e ms) es prev.

(** [steps.filter(s => s.status === status).length]. *)
Definition count_status (status : TestStepStatus) (steps : list TestStep.t) : nat :=
  length (List.filter (fun s => step_status_eqb (TestStep.status s) status) steps).

Section Messages.
(** How a length is printed inside a template string. *)
Variable show : nat -> string.

(** [getExecutionResultMessage(testCase)]. *)
Definition getExecutionResultMessage (c : TestCase.t) : string :=
  match TestCase.status c with
  | CaseCompleted =>
      "Execution complete: " ++ show (count_status StepSuccess (TestCase.steps c))
      ++ "/" ++ show (length (TestCase.steps c)) ++ " steps successful"
  | _ =>
      "Execution failed: " ++ show (count_status StepFailed (TestCase.steps c))
      ++ " steps failed"
  end.
End Messages.

End Chat.

Module ChatSamples.

Definition step_with (i : string) (action : Obj) : TestStep.t :=
  TestStep.mk action i "" StepPending None None None JUndefined None.

(** Three steps with ids of their own. *)
Definition steps : list TestStep.t :=
  [step_with "s1" Samples.tap_login; step_with "s2" Samples.assert_dashboard;
   step_with "s3" Samples.tap_logout].

Definition executor : TestCaseExecutor.t :=
  TestCaseExecutor.mk (Samples.case_of steps) AutomationAgent.new false [] [].

(** The assistant message that shows the case, and the user message before
    it. *)
Definition messages : list Chat.ChatMessage :=
  [Chat.mk "m1" Chat.User "log in" None None None 0 None None None;
   Chat.mk "m2" Chat.Assistant "" (Some "Executing test...") None
     (Some (Samples.case_of steps)) 1 (Some false) (Some true) None].

End ChatSamples.

(* ====================================================================== *)
(** * Properties *)
(* ====================================================================== *)

Local Open Scope nat_scope.
Local Open Scope list_scope.

(** ** Objects as property lists *)

Section ObjectFacts.

Lemma has_set (k k' : string) (v : JsValue) (o : Obj) :
  has k (set k' v o) = String.eqb k k' || has k o.
Proof.
  induction o as [|[k0 v0] r IH]; cbn.
  - destruct (String.eqb k k'); reflexivity.
  - destruct (String.eqb_spec k' k0) as [->|Hne]; cbn.
    + destruct (String.eqb k k0); reflexivity.
    + rewrite IH. destruct (String.eqb k k0), (String.eqb k k'); reflexivity.
Qed.

Lemma get_set (k k' : string) (v : JsValue) (o : Obj) :
  get k (set k' v o) = if String.eqb k k' then v else get k o.
Proof.
  induction o as [|[k0 v0] r IH]; cbn.
  - destruct (String.eqb k k'); reflexivity.
  - destruct (String.eqb_spec k' k0) as [->|Hne]; cbn.
    + destruct (String.eqb k k0); reflexivity.
    + rewrite IH. destruct (String.eqb_spec k k0) as [->|Hne'].
      * apply String.eqb_neq in Hne. rewrite String.eqb_sym, Hne. reflexivity.
      * reflexivity.
Qed.

Lemma has_false_get (k : string) (o : Obj) :
  has k o = false -> get k o = JUndefined.
Proof.
  induction o as [|[k0 v0] r IH]; cbn; [reflexivity|].
  destruct (String.eqb k k0); [discriminate|exact IH].
Qed.

Lemma has_elem_of (k : string) (o : Obj) :
  has k o = true <-> k ∈ o.*1.
Proof.
  induction o as [|[k0 v0] r IH]; cbn.
  - split; [discriminate|]. intros H. inversion H.
  - rewrite elem_of_cons, <- IH.
    destruct (String.eqb_spec k k0) as [->|Hne]; [tauto|].
    split; [tauto|]. intros [H|H]; [congruence|exact H].
Qed.

Lemma keys_set (k : string) (v : JsValue) (o : Obj) :
  (set k v o).*1 = if has k o then o.*1 else o.*1 ++ [k].
Proof.
  induction o as [|[k0 v0] r IH]; cbn; [reflexivity|].
  destruct (String.eqb_spec k k0) as [->|Hne]; cbn; [reflexivity|].
  rewrite IH. destruct (has k r); reflexivity.
Qed.

Lemma NoDup_keys_set (k : string) (v : JsValue) (o : Obj) :
  NoDup o.*1 -> NoDup (set k v o).*1.
Proof.
  intros H. rewrite keys_set. destruct (has k o) eqn:Hk; [exact H|].
  apply NoDup_app. split; [exact H|]. split; [|apply NoDup_singleton].
  intros x Hx Hx'. apply list_elem_of_singleton in Hx'. subst x.
  apply has_elem_of in Hx. congruence.
Qed.

Lemma has_spread (k : string) (base ext : Obj) :
  has k (spread base ext) = has k base || has k ext.
Proof.
  unfold spread. revert base. induction ext as [|[k0 v0] r IH]; intros base; cbn.
  - rewrite orb_false_r. reflexivity.
  - rewrite IH, has_set. cbn.
    destruct (String.eqb k k0), (has k base); reflexivity.
Qed.

Lemma get_spread_out (k : string) (base ext : Obj) :
  has k ext = false -> get k (spread base ext) = get k base.
Proof.
  unfold spread. revert base. induction ext as [|[k0 v0] r IH]; intros base; cbn;
    [reflexivity|].
  destruct (String.eqb k k0) eqn:Hk; [discriminate|].
  intros Hr. rewrite (IH _ Hr), get_set. cbn. rewrite Hk. reflexivity.
Qed.

Lemma get_spread_in (k : string) (base ext : Obj) :
  NoDup ext.*1 -> has k ext = true -> get k (spread base ext) = get k ext.
Proof.
  revert base. induction ext as [|[k0 v0] r IH]; intros base Hnd; cbn;
    [discriminate|].
  apply NoDup_cons in Hnd as [Hk0 Hnd]. cbn in Hk0.
  destruct (String.eqb_spec k k0) as [->|Hne].
  - intros _. change (get k0 (spread (set k0 v0 base) r) = v0).
    rewrite get_spread_out, get_set, String.eqb_refl; [reflexivity|].
    apply not_true_is_false. rewrite has_elem_of. exact Hk0.
  - intros Hr. change (get k (spread (set k0 v0 base) r) = get k r).
    apply IH; assumption.
Qed.
End ObjectFacts.

(** ** The validator *)

Section ZodFacts.

Lemma parse_object_eq (sh : Shape) (st : bool) (fs : Obj) :
  parse (ZObject sh st) (JObj fs)
  = if st && unknown_keys sh fs then None
    else option_map JObj (parse_shape parse fs sh).
Proof. reflexivity. Qed.

Lemma parse_object_inv (sh : Shape) (st : bool) (v out : JsValue) :
  parse (ZObject sh st) v = Some out ->
  exists fs o, v = JObj fs /\ out = JObj o
               /\ parse_shape parse fs sh = Some o
               /\ (st = true -> unknown_keys sh fs = false).
Proof.
  destruct v as [| | | | | |fs]; try discriminate.
  rewrite parse_object_eq.
  destruct (st && unknown_keys sh fs) eqn:Hst; [discriminate|].
  destruct (parse_shape parse fs sh) as [o|] eqn:Ho; [|discriminate].
  cbn. intros H. inversion H; subst. exists fs, o.
  split; [reflexivity|]. split; [reflexivity|]. split; [exact Ho|].
  intros ->. exact Hst.
Qed.

Lemma parse_union_eq (alts : list Schema) (v : JsValue) :
  parse (ZUnion alts) v = first_accepting parse v alts.
Proof. reflexivity. Qed.

Lemma parse_discriminated_eq (key : string) (opts : list Schema) (fs : Obj) :
  parse (ZDiscriminatedUnion key opts) (JObj fs)
  = match get key fs with
    | JStr t => selected parse key t (JObj fs) opts
    | _ => None
    end.
Proof. reflexivity. Qed.

Lemma parse_array_eq (e : Schema) (xs : list JsValue) :
  parse (ZArray e) (JArr xs) = option_map JArr (parse_all (parse e) xs).
Proof. reflexivity. Qed.

(** *** Shapes *)

Lemma parse_shape_cons (fs : Obj) (k : string) (s : Schema) (r : Shape) :
  parse_shape parse fs ((k, s) :: r)
  = match parse s (get k fs) with
    | None => None
    | Some y =>
        match parse_shape parse fs r with
        | None => None
        | Some out => Some (if has k fs then (k, y) :: out else out)
        end
    end.
Proof. reflexivity. Qed.

(** A field that its schema rejects makes the object fail. *)
Lemma parse_shape_field (fs : Obj) (sh : Shape) (out : Obj) (k : string)
    (s : Schema) :
  parse_shape parse fs sh = Some out -> In (k, s) sh ->
  exists y, parse s (get k fs) = Some y.
Proof.
  revert out. induction sh as [|[k0 s0] r IH]; intros out Hp Hin; [destruct Hin|].
  rewrite parse_shape_cons in Hp.
  destruct (parse s0 (get k0 fs)) as [y0|] eqn:H0; [|discriminate].
  destruct (parse_shape parse fs r) as [o|] eqn:Hr; [|discriminate].
  destruct Hin as [Heq|Hin]; [inversion Heq; subst; eauto|].
  eapply IH; eauto.
Qed.

(** The output has keys of the shape only. *)
Lemma parse_shape_has (fs : Obj) (sh : Shape) (out : Obj) (k : string) :
  parse_shape parse fs sh = Some out ->
  has k out = true -> mem k (keys sh) = true /\ has k fs = true.
Proof.
  revert out. induction sh as [|[k0 s0] r IH]; intros out Hp Hk.
  - inversion Hp; subst. discriminate.
  - rewrite parse_shape_cons in Hp.
    destruct (parse s0 (get k0 fs)) as [y0|]; [|discriminate].
    destruct (parse_shape parse fs r) as [o|] eqn:Hr; [|discriminate].
    inversion Hp; subst; clear Hp. unfold keys, mem. cbn [map existsb fst].
    destruct (String.eqb_spec k k0) as [->|Hne].
    + cbn [orb]. split; [reflexivity|].
      destruct (has k0 fs) eqn:Hf; [reflexivity|].
      destruct (IH o eq_refl Hk) as [_ H]. congruence.
    + cbn [orb]. apply (IH o eq_refl).
      destruct (has k0 fs); [|exact Hk].
      cbn in Hk. apply String.eqb_neq in Hne. rewrite Hne in Hk. exact Hk.
Qed.

Lemma parse_shape_known (fs : Obj) (sh : Shape) (out : Obj) :
  parse_shape parse fs sh = Some out -> unknown_keys sh out = false.
Proof.
  intros Hp. unfold unknown_keys. apply negb_false_iff, forallb_forall.
  intros [k v] Hin. cbn [fst].
  apply (parse_shape_has fs sh out k Hp), has_elem_of, list_elem_of_In.
  apply (in_map fst) in Hin. exact Hin.
Qed.

(** Parsing looks at the input through the keys of the shape only. *)
Lemma parse_shape_ext (fs fs' : Obj) (sh : Shape) :
  (forall k, mem k (keys sh) = true -> get k fs = get k fs' /\ has k fs = has k fs') ->
  parse_shape parse fs sh = parse_shape parse fs' sh.
Proof.
  induction sh as [|[k0 s0] r IH]; intros Hext; [reflexivity|].
  rewrite !parse_shape_cons.
  destruct (Hext k0) as [Hg Hh].
  { unfold keys, mem. cbn. rewrite String.eqb_refl. reflexivity. }
  rewrite Hg, Hh, IH; [reflexivity|].
  intros k Hk. apply Hext. unfold keys, mem in *. cbn. rewrite Hk.
  apply orb_true_r.
Qed.

(** With idempotent fields and no key twice, the output of an object
    parses to itself, whether or not unknown keys are allowed. *)
Lemma parse_shape_idempotent (fs : Obj) (sh : Shape) (out : Obj) :
  NoDup (keys sh) ->
  Forall (fun ks => idempotent (snd ks)) sh ->
  parse_shape parse fs sh = Some out ->
  parse_shape parse out sh = Some out.
Proof.
  revert out. induction sh as [|[k0 s0] r IH]; intros out Hnd Hid Hp.
  - inversion Hp; subst. reflexivity.
  - apply NoDup_cons in Hnd as [Hk0 Hnd].
    apply Forall_cons in Hid as [Hid0 Hid]. cbn [snd] in Hid0.
    assert (Hk0' : mem k0 (keys r) = false).
    { apply not_true_is_false. intros Hm. apply Hk0.
      unfold mem in Hm. apply existsb_exists in Hm as (x & Hx & Hxe).
      apply String.eqb_eq in Hxe. subst x. apply list_elem_of_In, Hx. }
    rewrite parse_shape_cons in Hp.
    destruct (parse s0 (get k0 fs)) as [y0|] eqn:H0; [|discriminate].
    destruct (parse_shape parse fs r) as [o|] eqn:Hr; [|discriminate].
    inversion Hp; subst; clear Hp.
    specialize (IH o Hnd Hid eq_refl).
    assert (Ho : has k0 o = false).
    { apply not_true_is_false. intros Hh.
      destruct (parse_shape_has _ _ _ _ Hr Hh) as [Hm _]. congruence. }
    rewrite parse_shape_cons.
    destruct (has k0 fs) eqn:Hf.
    + cbn [get has]. rewrite String.eqb_refl, (Hid0 _ _ H0).
      rewrite (parse_shape_ext ((k0, y0) :: o) o r), IH; [reflexivity|].
      intros k Hk. cbn [get has].
      destruct (String.eqb_spec k k0) as [->|Hne]; [congruence|]. auto.
    + rewrite Ho, (has_false_get _ _ Ho), <- (has_false_get _ _ Hf), H0, IH.
      reflexivity.
Qed.

Lemma parse_object_idempotent (sh : Shape) (st st' : bool) (v out : JsValue) :
  NoDup (keys sh) ->
  Forall (fun ks => idempotent (snd ks)) sh ->
  parse (ZObject sh st) v = Some out ->
  parse (ZObject sh st') out = Some out.
Proof.
  intros Hnd Hid Hp.
  apply parse_object_inv in Hp as (fs & o & -> & -> & Ho & _).
  rewrite parse_object_eq, (parse_shape_known _ _ _ Ho), andb_false_r.
  rewrite (parse_shape_idempotent _ _ _ Hnd Hid Ho). reflexivity.
Qed.


(** *** Discriminated unions *)

Lemma selected_inv (key t : string) (v y : JsValue) (opts : list Schema) :
  selected parse key t v opts = Some y ->
  exists o, In o opts /\ has_discriminator key t o = true /\ parse o v = Some y.
Proof.
  induction opts as [|o r IH]; [discriminate|]. cbn.
  destruct (has_discriminator key t o) eqn:Hd.
  - intros Hp. exists o. auto.
  - intros Hp. destruct (IH Hp) as (o' & Hin & Hd' & Hp'). exists o'. auto.
Qed.

Lemma has_discriminator_iff (key t : string) (o : Schema) :
  has_discriminator key t o = true <-> discriminator key o = Some t.
Proof.
  unfold has_discriminator. destruct (discriminator key o) as [t'|].
  - rewrite String.eqb_eq. split; congruence.
  - split; discriminate.
Qed.

Lemma selected_unique (key t : string) (v : JsValue) (opts : list Schema)
    (o : Schema) :
  NoDup (discriminator key <$> opts) -> In o opts ->
  has_discriminator key t o = true ->
  selected parse key t v opts = parse o v.
Proof.
  induction opts as [|o0 r IH]; intros Hnd Hin Hd; [destruct Hin|].
  cbn in Hnd. apply NoDup_cons in Hnd as [Hfirst Hnd]. cbn.
  destruct Hin as [->|Hin]; [rewrite Hd; reflexivity|].
  destruct (has_discriminator key t o0) eqn:Hd0; [|apply IH; assumption].
  exfalso. apply Hfirst.
  apply has_discriminator_iff in Hd, Hd0. rewrite Hd0, <- Hd.
  apply list_elem_of_fmap. exists o. split; [reflexivity|].
  apply list_elem_of_In, Hin.
Qed.

(** *** Arrays *)

Lemma parse_all_Some (p : JsValue -> option JsValue) (xs : list JsValue) :
  is_Some (parse_all p xs) <-> Forall (fun x => is_Some (p x)) xs.
Proof.
  induction xs as [|x r IH]; cbn.
  - split; [constructor|eauto].
  - rewrite Forall_cons, <- IH.
    destruct (p x) as [y|]; [|split; [intros [? ?]; discriminate|intros [[? ?] _]; discriminate]].
    destruct (parse_all p r) as [ys|].
    + split; [eauto|eauto].
    + split; [intros [? ?]; discriminate|intros [_ [? ?]]; discriminate].
Qed.

Lemma parse_all_length (p : JsValue -> option JsValue) (xs ys : list JsValue) :
  parse_all p xs = Some ys -> length ys = length xs.
Proof.
  revert ys. induction xs as [|x r IH]; intros ys; cbn.
  - intros H. inversion H. reflexivity.
  - destruct (p x); [|discriminate]. destruct (parse_all p r); [|discriminate].
    intros H. inversion H. cbn. rewrite (IH l eq_refl). reflexivity.
Qed.
End ZodFacts.

(** ** schemas.ts *)

Section SchemaFacts.

Lemma transparent_idempotent (s : Schema) : transparent s -> idempotent s.
Proof. intros Ht x y Hp. pose proof (Ht x y Hp); subst y. exact Hp. Qed.

Lemma transparent_string : transparent ZString.
Proof. intros [] y H; inversion H; reflexivity. Qed.

Lemma transparent_number : transparent ZNumber.
Proof. intros [] y H; inversion H; reflexivity. Qed.

Lemma transparent_boolean : transparent ZBoolean.
Proof. intros [] y H; inversion H; reflexivity. Qed.

Lemma transparent_literal (l : string) : transparent (ZLiteral l).
Proof.
  intros [] y H; try discriminate. cbn in H.
  destruct (String.eqb s l); inversion H; reflexivity.
Qed.

Lemma transparent_enum (vs : list string) : transparent (ZEnum vs).
Proof.
  intros [] y H; try discriminate. cbn in H.
  destruct (mem s vs); inversion H; reflexivity.
Qed.

Lemma transparent_optional (s : Schema) : transparent s -> transparent (ZOptional s).
Proof.
  intros Hs x y H. destruct x; cbn in H;
    first [inversion H; reflexivity | apply (Hs _ _ H)].
Qed.

Lemma transparent_union (alts : list Schema) :
  Forall transparent alts -> transparent (ZUnion alts).
Proof.
  intros Hall x y. rewrite parse_union_eq.
  induction Hall as [|a r Ha _ IH]; cbn; [discriminate|].
  destruct (parse a x) as [y'|] eqn:Hp; [|exact IH].
  intros H. inversion H; subst. apply (Ha _ _ Hp).
Qed.

Lemma parse_values_transparent (p : JsValue -> option JsValue) (fs out : Obj) :
  (forall x y, p x = Some y -> y = x) -> parse_values p fs = Some out -> out = fs.
Proof.
  intros Hp. revert out. induction fs as [|[k x] r IH]; intros out; cbn.
  - intros H. inversion H. reflexivity.
  - destruct (p x) as [y|] eqn:Hx; [|discriminate].
    destruct (parse_values p r) as [ys|]; [|discriminate].
    intros H. inversion H; subst. rewrite (Hp _ _ Hx), (IH ys eq_refl). reflexivity.
Qed.

Lemma transparent_record (e : Schema) : transparent e -> transparent (ZRecord e).
Proof.
  intros He x y H. destruct x as [| | | | | |fs]; try discriminate. cbn in H.
  destruct (parse_values (parse e) fs) as [out|] eqn:Hv; [|discriminate].
  inversion H; subst. rewrite (parse_values_transparent _ _ _ He Hv). reflexivity.
Qed.

Lemma idempotent_optional (s : Schema) : idempotent s -> idempotent (ZOptional s).
Proof.
  intros Hs x y H.
  assert (Hy : y = JUndefined \/ parse s y = Some y).
  { destruct x; cbn in H; first [inversion H; left; reflexivity | right; apply (Hs _ _ H)]. }
  destruct Hy as [->|Hy]; [reflexivity|]. destruct y; cbn; auto.
Qed.

Lemma idempotent_object (sh : Shape) (st : bool) :
  NoDup (keys sh) -> Forall (fun ks => idempotent (snd ks)) sh ->
  idempotent (ZObject sh st).
Proof. intros Hnd Hid x y. apply parse_object_idempotent; assumption. Qed.

Lemma mem_In (k : string) (ks : list string) : mem k ks = true <-> In k ks.
Proof.
  unfold mem. rewrite existsb_exists. split.
  - intros (x & Hx & He). apply String.eqb_eq in He. subst. exact Hx.
  - intros H. exists k. split; [exact H|apply String.eqb_refl].
Qed.

Lemma shape_get_In (k : string) (sh : Shape) (s : Schema) :
  shape_get k sh = Some s -> In (k, s) sh.
Proof.
  induction sh as [|[k0 s0] r IH]; cbn; [discriminate|].
  destruct (String.eqb_spec k k0) as [->|Hne].
  - intros H. inversion H. left. reflexivity.
  - intros H. right. apply IH, H.
Qed.

Ltac no_dup :=
  repeat (apply NoDup_cons_2;
          [rewrite ?elem_of_cons, elem_of_nil; intuition discriminate|]);
  apply NoDup_nil_2.

Ltac is_transparent :=
  lazymatch goal with
  | |- transparent ZString => apply transparent_string
  | |- transparent ZNumber => apply transparent_number
  | |- transparent ZBoolean => apply transparent_boolean
  | |- transparent (ZLiteral _) => apply transparent_literal
  | |- transparent (ZEnum _) => apply transparent_enum
  | |- transparent (ZOptional _) => apply transparent_optional; is_transparent
  | |- transparent (ZRecord _) => apply transparent_record; is_transparent
  | |- transparent (ZUnion _) =>
      apply transparent_union; repeat (apply Forall_cons; split; [is_transparent|]);
      apply Forall_nil_2
  end.

Ltac is_idempotent :=
  lazymatch goal with
  | |- idempotent (ZOptional _) => apply idempotent_optional; is_idempotent
  | |- idempotent (ZObject _ _) =>
      apply idempotent_object;
      [no_dup
      |repeat (apply Forall_cons; split; [cbn [snd]; is_idempotent|]);
       apply Forall_nil_2]
  | |- idempotent _ => apply transparent_idempotent; is_transparent
  end.

Lemma options_shapes : AIAction_options = AIAction_shapes.
Proof. vm_compute. reflexivity. Qed.

(** Every option of the action union is a plain object with no key twice
    and idempotent fields. *)
Lemma options_closed :
  Forall (fun o => exists sh, o = ZObject sh false /\ NoDup (keys sh)
                              /\ Forall (fun ks => idempotent (snd ks)) sh)
         AIAction_options.
Proof.
  rewrite options_shapes. unfold AIAction_shapes.
  repeat (apply Forall_cons; split;
          [eexists; split; [reflexivity|]; split;
           [cbn [keys map fst]; no_dup
           |repeat (apply Forall_cons; split; [cbn [snd]; is_idempotent|]);
            apply Forall_nil_2]
          |]).
  apply Forall_nil_2.
Qed.

(** The options carry the twenty-six action types, each once. *)
Lemma options_discriminators :
  discriminator "type" <$> AIAction_options
  = Some <$> ["ai"; "aiAction"; "aiTap"; "aiHover"; "aiRightClick";
              "aiDoubleClick"; "aiLocate"; "aiInput"; "aiKeyboardPress";
              "aiScroll"; "aiQuery"; "aiExtract"; "aiAsk"; "aiBoolean";
              "aiNumber"; "aiString"; "aiAssert"; "aiWaitFor";
              "describeElementAtPoint"; "runYaml"; "setAIActionContext";
              "evaluateJavaScript"; "logScreenshot"; "freezePageContext";
              "unfreezePageContext"; "verifyLocator"].
Proof. vm_compute. reflexivity. Qed.

Lemma options_NoDup : NoDup (discriminator "type" <$> AIAction_options).
Proof.
  rewrite options_discriminators.
  apply (bool_decide_unpack _). vm_compute. exact I.
Qed.

Lemma option_type (o : Schema) :
  In o AIAction_options ->
  exists t, discriminator "type" o = Some t /\ In t action_types.
Proof.
  intros Hin.
  assert (H : discriminator "type" o ∈ discriminator "type" <$> AIAction_options).
  { apply list_elem_of_fmap. exists o. split; [reflexivity|apply list_elem_of_In, Hin]. }
  rewrite options_discriminators in H. cbn [fmap list_fmap] in H.
  repeat (apply elem_of_cons in H as [H|H];
          [eexists; split; [exact H|apply mem_In; reflexivity]|]).
  inversion H.
Qed.

Lemma option_determined (o o' : Schema) :
  In o AIAction_options -> In o' AIAction_options ->
  discriminator "type" o = discriminator "type" o' -> o = o'.
Proof.
  pose proof options_NoDup as Hnd. revert Hnd.
  generalize AIAction_options as opts.
  induction opts as [|a r IH]; intros Hnd Ho Ho' Heq; [destruct Ho|].
  cbn in Hnd. apply NoDup_cons in Hnd as [Ha Hnd].
  assert (Hmem : forall x, In x r -> discriminator "type" x ∈ discriminator "type" <$> r).
  { intros x Hx. apply list_elem_of_fmap. exists x.
    split; [reflexivity|apply list_elem_of_In, Hx]. }
  destruct Ho as [->|Ho], Ho' as [->|Ho'].
  - reflexivity.
  - exfalso. apply Ha. rewrite Heq. apply Hmem, Ho'.
  - exfalso. apply Ha. rewrite <- Heq. apply Hmem, Ho.
  - apply IH; assumption.
Qed.

(** An object that an option accepts carries the type of that option. *)
Lemma option_accepts_type (o : Schema) (st : bool) (sh : Shape) (t : string)
    (fs : Obj) (out : JsValue) :
  o = ZObject sh false -> discriminator "type" o = Some t ->
  parse (ZObject sh st) (JObj fs) = Some out ->
  get "type" fs = JStr t.
Proof.
  intros -> Hd Hp. unfold discriminator in Hd. cbn [shape] in Hd.
  destruct (shape_get "type" sh) as [s|] eqn:Hs; [|discriminate].
  destruct s; try discriminate. inversion Hd; subst. clear Hd.
  apply shape_get_In in Hs.
  apply parse_object_inv in Hp as (fs' & o & Hfs & -> & Ho & _).
  inversion Hfs; subst fs'.
  destruct (parse_shape_field _ _ _ _ _ Ho Hs) as (y & Hy).
  revert Hy. destruct (get "type" fs) as [| | | |t'| |]; cbn; try discriminate.
  destruct (String.eqb_spec t' t) as [->|]; [reflexivity|discriminate].
Qed.
End SchemaFacts.

Section ValidationProperties.

Lemma validateAction_inv (raw : JsValue) :
  validateAction raw = true ->
  exists fs t o out,
    raw = JObj fs /\ get "type" fs = JStr t /\ In o AIAction_options
    /\ discriminator "type" o = Some t /\ parse o raw = Some out
    /\ parse AIActionSchema raw = Some out.
Proof.
  unfold validateAction.
  destruct (parse AIActionSchema raw) as [out|] eqn:Hp; [intros _|discriminate].
  destruct raw as [| | | | | |fs]; try discriminate.
  unfold AIActionSchema in Hp. rewrite parse_discriminated_eq in Hp.
  destruct (get "type" fs) as [| | | |t| |] eqn:Ht; try discriminate.
  pose proof Hp as Hsel.
  apply selected_inv in Hsel as (o & Hin & Hd & Ho).
  apply has_discriminator_iff in Hd.
  exists fs, t, o, out. auto 10.
Qed.



(** What the action-sequence schema asks of an object, for any schema [A]
    of the actions. *)
Lemma sequence_shape (A : Schema) (v : JsValue) :
  is_Some (parse (object [("actions", ZArray A);
                          ("display", object [("code", ZArray ZString);
                                              ("description", ZString)])]) v)
  <-> exists fs dfs acts codes d,
      v = JObj fs
      /\ get "actions" fs = JArr acts
      /\ Forall (fun a => is_Some (parse A a)) acts
      /\ get "display" fs = JObj dfs
      /\ get "code" dfs = JArr codes
      /\ Forall (fun c => exists s, c = JStr s) codes
      /\ get "description" dfs = JStr d.
Proof.
  assert (Hstr : forall c, is_Some (parse ZString c) <-> exists s, c = JStr s).
  { intros c. destruct c; cbn; split; intros [? H]; try discriminate; eauto. }
  unfold object. split.
  - intros [out Hp].
    apply parse_object_inv in Hp as (fs & o & -> & -> & Ho & _).
    destruct (parse_shape_field _ _ _ "actions" _ Ho (or_introl eq_refl)) as (ya & Ha).
    destruct (parse_shape_field _ _ _ "display" _ Ho (or_intror (or_introl eq_refl)))
      as (yd & Hd).
    destruct (get "actions" fs) as [| | | | |acts|] eqn:Hacts; try discriminate.
    rewrite parse_array_eq in Ha.
    apply parse_object_inv in Hd as (dfs & od & Hdfs & -> & Hod & _).
    destruct (parse_shape_field _ _ _ "code" _ Hod (or_introl eq_refl)) as (yc & Hc).
    destruct (parse_shape_field _ _ _ "description" _ Hod
                (or_intror (or_introl eq_refl))) as (ys & Hs).
    destruct (get "code" dfs) as [| | | | |codes|] eqn:Hcodes; try discriminate.
    rewrite parse_array_eq in Hc.
    destruct (get "description" dfs) as [| | | |d| |] eqn:Hdesc; try discriminate.
    exists fs, dfs, acts, codes, d. repeat split; try assumption.
    + apply parse_all_Some. destruct (parse_all (parse A) acts); [eauto|discriminate].
    + eapply Forall_impl; [|intros c; apply Hstr].
      apply parse_all_Some. destruct (parse_all (parse ZString) codes); [eauto|discriminate].
  - intros (fs & dfs & acts & codes & d & -> & Hacts & Ha & Hd & Hcodes & Hc & Hdesc).
    rewrite parse_object_eq. cbn [andb].
    rewrite !parse_shape_cons, Hacts, Hd, parse_array_eq, parse_object_eq.
    cbn [andb]. rewrite !parse_shape_cons, Hcodes, Hdesc, parse_array_eq.
    apply parse_all_Some in Ha as [ya ->].
    assert (Hc' : is_Some (parse_all (parse ZString) codes)).
    { apply parse_all_Some. eapply Forall_impl; [exact Hc|]. intros c; apply Hstr. }
    destruct Hc' as [yc ->]. cbn. eauto.
Qed.

(** C2, as the code has it.  The action-sequence schema accepts exactly the
    objects whose [actions] is an array of valid actions and whose
    [display] has an array of strings as [code] and a string as
    [description]; the two arrays are checked one without the other, so a
    sequence of valid actions is accepted with any number of code
    strings. *)
Theorem validateActionSequence_shape :
  (forall v,
      validateActionSequence v = true
      <-> exists fs dfs acts codes d,
          v = JObj fs
          /\ get "actions" fs = JArr acts
          /\ Forall (fun a => validateAction a = true) acts
          /\ get "display" fs = JObj dfs
          /\ get "code" dfs = JArr codes
          /\ Forall (fun c => exists s, c = JStr s) codes
          /\ get "description" dfs = JStr d)
  /\ (forall sq : ActionSequence.t,
        Forall (fun a => validateAction (JObj a) = true) (ActionSequence.actions sq) ->
        validateActionSequence (ActionSequence.to_js sq) = true).
Proof.
  assert (Hval : forall a, validateAction a = true <-> is_Some (parse AIActionSchema a)).
  { intros a. unfold validateAction.
    destruct (parse AIActionSchema a); split; intros H; eauto;
      try discriminate; destruct H; discriminate. }
  assert (Hseq : forall v, validateActionSequence v = true
                           <-> is_Some (parse ActionSequenceSchema v)).
  { intros v. unfold validateActionSequence.
    destruct (parse ActionSequenceSchema v); split; intros H; eauto;
      try discriminate; destruct H; discriminate. }
  assert (Hmain : forall v,
      validateActionSequence v = true
      <-> exists fs dfs acts codes d,
          v = JObj fs
          /\ get "actions" fs = JArr acts
          /\ Forall (fun a => validateAction a = true) acts
          /\ get "display" fs = JObj dfs
          /\ get "code" dfs = JArr codes
          /\ Forall (fun c => exists s, c = JStr s) codes
          /\ get "description" dfs = JStr d).
  { intros v. rewrite Hseq. unfold ActionSequenceSchema.
    rewrite (sequence_shape AIActionSchema v).
    split; intros (fs & dfs & acts & codes & d & H1 & H2 & H3 & H4);
      exists fs, dfs, acts, codes, d; (split; [exact H1|]); (split; [exact H2|]);
      (split; [|exact H4]);
      (eapply Forall_impl; [exact H3|]); intros a; apply Hval. }
  split; [exact Hmain|].
  intros sq Hacts. apply Hmain.
  exists [("actions", JArr (map JObj (ActionSequence.actions sq)));
          ("display", JObj [("code", JArr (map JStr (ActionSequence.code sq)));
                            ("description", JStr (ActionSequence.description sq))])],
    [("code", JArr (map JStr (ActionSequence.code sq)));
     ("description", JStr (ActionSequence.description sq))],
    (map JObj (ActionSequence.actions sq)), (map JStr (ActionSequence.code sq)),
    (ActionSequence.description sq).
  split; [reflexivity|]. split; [reflexivity|].
  split; [apply Forall_fmap; exact Hacts|].
  split; [reflexivity|]. split; [reflexivity|].
  split; [|reflexivity].
  apply Forall_fmap, Forall_forall. intros c _. cbn. eauto.
Qed.
End ValidationProperties.



(** Witness of C2: the login sequence, two actions and two code strings. *)
Lemma validateActionSequence_shape_witness :
  validateActionSequence (ActionSequence.to_js Samples.login_sequence) = true.
Proof.
  destruct validateActionSequence_shape as (_ & H).
  apply H. repeat constructor.
Defined.

(** Counterexample to C2 as stated: three actions with two code strings are
    accepted, and the third step is made without its source text. *)
Lemma sequence_length_unchecked :
  length (ActionSequence.actions Samples.short_of_code) = 3
  /\ length (ActionSequence.code Samples.short_of_code) = 2
  /\ validateActionSequence (ActionSequence.to_js Samples.short_of_code) = true
  /\ (fun r => match r with
               | inr ss => Some (TestStep.rawCode <$> ss)
               | inl _ => None
               end)
       (fst (AutomationAgent.parseTestCode
               (Samples.host_reading (ActionSequence.to_js Samples.short_of_code)
                  Samples.never)
               "{ actions: [ ... ], display: { code: [ ... ] } }" 0))
     = Some [Some "await aiTap('login button')";
             Some "await aiAssert('dashboard is visible')"; None].
Proof. vm_compute. repeat split. Qed.

(** ** The dispatcher *)

Section DispatcherFacts.
Context {W : Type} (host : Host W).

Lemma destroy_resets (a : AutomationAgent.t) (w : W) :
  fst (AutomationAgent.destroy host a w) = AutomationAgent.reset a.
Proof.
  unfold AutomationAgent.destroy. destruct (AutomationAgent.agent a); [|reflexivity].
  unfold bind, ret. destruct (page_destroy host n w); reflexivity.
Qed.

Lemma isReady_reset (a : AutomationAgent.t) :
  AutomationAgent.isReady (AutomationAgent.reset a) = false.
Proof. reflexivity. Qed.

Lemma stamp_start_status (s : TestStep.t) (w : W) :
  TestStep.status (fst (AutomationAgent.stamp_start host s w)) = TestStep.status s.
Proof.
  unfold AutomationAgent.stamp_start, bind, ret.
  destruct (TestStep.startTime s) as [t0|]; [destruct (t0 =? 0)%Z|];
    try reflexivity; destruct (Date_now host w); reflexivity.
Qed.

(** [executeStep] returns a step on every path, the step is [success] or
    [failed], and the agent it leaves behind holds no driver. *)
Lemma executeStep_returns (a : AutomationAgent.t) (s : TestStep.t) (w : W) :
  exists a' s' w',
    AutomationAgent.executeStep host a s w = ((a', inr s'), w')
    /\ a' = AutomationAgent.mk None None false
    /\ (TestStep.status s' = StepSuccess \/ TestStep.status s' = StepFailed).
Proof.
  unfold AutomationAgent.executeStep, bind, ret.
  destruct (AutomationAgent.destroy host a w) as [a1 w1].
  unfold AutomationAgent.createAgent, bind, ret.
  destruct (construct host w1) as [d w2]. cbn [AutomationAgent.agent].
  destruct (AutomationAgent.stamp_start host s w2) as [s1 w3].
  destruct (AutomationAgent.dispatch host d s1 w3) as [o w4].
  destruct (Date_now host w4) as [now w5].
  pose proof (destroy_resets (AutomationAgent.mk (Some d) (Some d) true) w5) as Hd.
  destruct (AutomationAgent.destroy host _ w5) as [a3 w6]. cbn in Hd. subst a3.
  eexists _, _, _. split; [reflexivity|]. split; [reflexivity|].
  destruct o; cbn; auto.
Qed.
End DispatcherFacts.

Section DispatcherProperties.
Context {W : Type} (host : Host W).

Import AutomationAgent.

Lemma mem_cons (k k0 : string) (ks : list string) :
  mem k (k0 :: ks) = String.eqb k k0 || mem k ks.
Proof. reflexivity. Qed.

Lemma build_has (step : TestStep.t) (ks : list string) (acc : Obj) (k : string) :
  has k (fold_left (copy_option step) ks acc)
  = has k acc || (mem k ks && present k step).
Proof.
  revert acc. induction ks as [|k0 ks IH]; intros acc.
  - cbn. rewrite orb_false_r. reflexivity.
  - cbn [fold_left]. rewrite IH, mem_cons. unfold copy_option.
    destruct (String.eqb_spec k k0) as [->|Hne].
    + destruct (present k0 step) eqn:Hp.
      * rewrite has_set, String.eqb_refl. cbn. rewrite orb_true_r. reflexivity.
      * cbn. rewrite !andb_false_r. reflexivity.
    + cbn [orb]. destruct (present k0 step); [|reflexivity].
      rewrite has_set. apply String.eqb_neq in Hne. rewrite Hne. reflexivity.
Qed.

Lemma build_get (step : TestStep.t) (ks : list string) (acc : Obj) (k : string) :
  get k (fold_left (copy_option step) ks acc)
  = if mem k ks && present k step then TestStep.field k step else get k acc.
Proof.
  revert acc. induction ks as [|k0 ks IH]; intros acc; [reflexivity|].
  cbn [fold_left]. rewrite IH, mem_cons. unfold copy_option.
  destruct (String.eqb_spec k k0) as [->|Hne].
  - cbn [orb]. destruct (present k0 step) eqn:Hp.
    + rewrite !andb_true_r, get_set, String.eqb_refl.
      destruct (mem k0 ks); reflexivity.
    + rewrite !andb_false_r. reflexivity.
  - cbn [orb]. destruct (mem k ks && present k step); [reflexivity|].
    destruct (present k0 step); [|reflexivity].
    rewrite get_set. apply String.eqb_neq in Hne. rewrite Hne. reflexivity.
Qed.

Lemma build_NoDup (step : TestStep.t) (ks : list string) (acc : Obj) :
  NoDup acc.*1 -> NoDup (fold_left (copy_option step) ks acc).*1.
Proof.
  revert acc. induction ks as [|k0 ks IH]; intros acc Hacc; cbn; [exact Hacc|].
  apply IH. unfold copy_option. destruct (present k0 step); [|exact Hacc].
  apply NoDup_keys_set, Hacc.
Qed.

Ltac literal_key :=
  let k := fresh "k" in
  let H := fresh "H" in
  intros k H; cbn in H;
  repeat match type of H with
         | context [String.eqb k ?s] =>
             destruct (String.eqb_spec k s);
             [subst k; cbn; tauto|]
         end;
  discriminate H.

(** Every options object that a case forwards is the built bag itself or
    the built bag spread over an object literal of the case. *)
Lemma route_options (step : TestStep.t) (options : Obj) (c : BackendCall)
    (opts : Obj) :
  routed_call (route host step options) = Some c ->
  call_options c = Some opts ->
  opts = options
  \/ exists base, opts = spread base options
                  /\ forall k, has k base = true -> In k literal_keys.
Proof.
  unfold route.
  destruct (TestStep.field "type" step) as [| | | |ty| |]; try discriminate.
  repeat match goal with
         | |- context [String.eqb ty ?s] =>
             destruct (String.eqb ty s); cbv beta iota
         end;
    unfold guarded, extract_options;
    repeat match goal with
           | |- context [if ?b then _ else _] => destruct b
           end;
    cbn [routed_call]; intros Hc Ho; try discriminate Hc;
    inversion Hc; subst c; cbn [call_options] in Ho; try discriminate Ho;
    inversion Ho; subst opts;
    first [ left; reflexivity
          | right; eexists; split; [reflexivity|literal_key] ].
Qed.

(** Where a case writes a default, the forwarded options hold the default
    for a field that the step does not define. *)
Lemma route_defaults (step : TestStep.t) (options : Obj) (c : BackendCall)
    (opts : Obj) (ty k : string) (d : JsValue) :
  TestStep.field "type" step = JStr ty ->
  routed_call (route host step options) = Some c ->
  call_options c = Some opts ->
  In (k, d) (case_defaults ty) ->
  TestStep.field k step = JUndefined ->
  has k options = false ->
  has k opts = true /\ get k opts = d.
Proof.
  intros Hty Hc Ho Hin Hundef Hopt.
  unfold route in Hc. rewrite Hty in Hc. revert Hc Hin. unfold case_defaults.
  repeat match goal with
         | |- context [String.eqb ty ?s] =>
             let E := fresh "E" in
             destruct (String.eqb ty s) eqn:E;
             [ apply String.eqb_eq in E; subst ty;
               cbn [String.eqb Ascii.eqb Bool.eqb orb andb];
               unfold guarded, extract_options;
               repeat match goal with
                      | |- context [if ?b then _ else _] => destruct b
                      end;
               cbn [routed_call]; intros Hc Hin; try discriminate Hc;
               inversion Hc; subst c; cbn [call_options] in Ho;
               try discriminate Ho; inversion Ho; subst opts;
               cbn [In] in Hin;
               repeat (destruct Hin as [Hin|Hin];
                       [inversion Hin; subst k d; rewrite Hundef;
                        split; [rewrite has_spread; reflexivity
                               |rewrite get_spread_out by exact Hopt; reflexivity]|]);
               destruct Hin
             | cbv beta iota; cbn [orb] ]
         end.
  cbn [routed_call]. discriminate.
Qed.

(** C5, as the code has it.  [buildExecutionOptions] holds exactly the
    option fields that are present on the step, with the step's values and
    no defaults.  Every options object forwarded to the driver holds each
    of these fields with the step's value; what else it holds comes from
    the object literal of the [case].  That literal is where the dispatcher
    supplies defaults: for a field that the step does not define, the
    forwarded options hold the default of the step's type ([cacheable: true]
    for [aiAction], [autoDismissKeyboard: true] for [aiInput],
    [domIncluded: false] and [screenshotIncluded: true] for the extractions,
    [timeoutMs: 15000] for [aiAssert] and [aiWaitFor], and
    [checkIntervalMs: 3000] for [aiWaitFor]). *)
Theorem forwarded_options (step : TestStep.t) :
  let options := buildExecutionOptions step in
  (forall k, has k options = mem k option_keys && present k step)
  /\ (forall k, has k options = true -> get k options = TestStep.field k step)
  /\ (forall c opts,
        routed_call (route host step options) = Some c ->
        call_options c = Some opts ->
        (forall k, has k options = true ->
                   has k opts = true /\ get k opts = TestStep.field k step)
        /\ (forall k, has k opts = true ->
                      has k options = true \/ In k literal_keys))
  /\ (forall ty c opts k d,
        TestStep.field "type" step = JStr ty ->
        routed_call (route host step options) = Some c ->
        call_options c = Some opts ->
        In (k, d) (case_defaults ty) ->
        TestStep.field k step = JUndefined ->
        present k step = false /\ has k opts = true /\ get k opts = d).
Proof.
  cbv zeta. unfold buildExecutionOptions.
  assert (Hhas : forall k, has k (fold_left (copy_option step) option_keys [])
                           = mem k option_keys && present k step).
  { intros k. rewrite build_has. reflexivity. }
  assert (Hget : forall k, has k (fold_left (copy_option step) option_keys []) = true ->
                   get k (fold_left (copy_option step) option_keys [])
                   = TestStep.field k step).
  { intros k Hk. rewrite Hhas in Hk. rewrite build_get, Hk. reflexivity. }
  split; [exact Hhas|]. split; [exact Hget|]. split.
  - intros c opts Hc Ho.
    destruct (route_options _ _ _ _ Hc Ho) as [->|(base & -> & Hbase)].
    + split; [intros k Hk; split; [exact Hk|apply Hget, Hk]|].
      intros k Hk; left; exact Hk.
    + split.
      * intros k Hk. split.
        -- rewrite has_spread, Hk. apply orb_true_r.
        -- rewrite get_spread_in; [apply Hget, Hk| |exact Hk].
           apply build_NoDup. constructor.
      * intros k Hk. rewrite has_spread in Hk.
        apply orb_true_iff in Hk as [Hk|Hk]; [right; apply Hbase, Hk|left; exact Hk].
  - intros ty c opts k d Hty Hc Ho Hin Hundef.
    assert (Hp : present k step = false).
    { unfold present. rewrite Hundef. apply andb_false_r. }
    split; [exact Hp|].
    apply (route_defaults step _ c opts ty k d Hty Hc Ho Hin Hundef).
    rewrite Hhas, Hp. apply andb_false_r.
Qed.

(** C4.  [executeStep] returns a step on every path, leaving the agent
    without a driver ([isReady()] is false) right after [page.destroy()]
    was called on the driver of this step; and when the driver call of the
    step throws, the returned step is [failed] and carries the message of
    what was thrown. *)
Theorem executeStep_catches (a : AutomationAgent.t) (step : TestStep.t) (w : W) :
  let w1 := snd (destroy host a w) in
  let d := fst (construct host w1) in
  let w2 := snd (construct host w1) in
  let step1 := fst (stamp_start host step w2) in
  let w3 := snd (stamp_start host step w2) in
  exists step' w5,
    executeStep host a step w
    = ((AutomationAgent.mk None None false, inr step'), snd (page_destroy host d w5))
    /\ isReady (fst (fst (executeStep host a step w))) = false
    /\ (TestStep.status step' = StepSuccess \/ TestStep.status step' = StepFailed)
    /\ (forall c e,
          routed_call (route host step1 (buildExecutionOptions step1)) = Some c ->
          fst (invoke host d c w3) = inl e ->
          TestStep.status step' = StepFailed
          /\ TestStep.error step'
             = Some (message_or e "Unknown error when executing step")).
Proof.
  cbv zeta. unfold executeStep, bind, ret.
  destruct (destroy host a w) as [a1 w1]. cbn [snd].
  unfold createAgent, bind, ret.
  destruct (construct host w1) as [d w2]. cbn [fst snd AutomationAgent.agent].
  destruct (stamp_start host step w2) as [step1 w3]. cbn [fst snd].
  destruct (dispatch host d step1 w3) as [o w4] eqn:Hdisp.
  destruct (Date_now host w4) as [now w5].
  unfold destroy. cbn [AutomationAgent.agent]. unfold bind, ret.
  destruct (page_destroy host d w5) as [u w6] eqn:Hpd.
  eexists _, w5. rewrite Hpd. cbn [fst snd].
  split; [reflexivity|]. split; [reflexivity|].
  split; [destruct o; cbn; auto|].
  intros c e Hc He. unfold dispatch in Hdisp.
  destruct (route host step1 (buildExecutionOptions step1)) as [c0|c0 r| |];
    cbn in Hc; try discriminate Hc; inversion Hc; subst c0.
  - rewrite Hdisp in He. cbn in He. subst o. split; reflexivity.
  - unfold bind, ret in Hdisp. destruct (invoke host d c w3) as [o' w'].
    cbn in He. subst o'. inversion Hdisp; subst. split; reflexivity.
Qed.
End DispatcherProperties.

(** Witness of C4: the driver throws on the assertion. *)
Lemma executeStep_catches_witness :
  exists step',
    snd (fst (AutomationAgent.executeStep (Samples.host Samples.on_assert)
                AutomationAgent.new (Samples.step_of Samples.assert_dashboard) 0))
    = inr step'
    /\ TestStep.status step' = StepFailed
    /\ TestStep.error step' = Some "element not found".
Proof.
  destruct (executeStep_catches (Samples.host Samples.on_assert) AutomationAgent.new
              (Samples.step_of Samples.assert_dashboard) 0)
    as (step' & w5 & Hrun & _ & _ & Hthrow).
  exists step'. rewrite Hrun. split; [reflexivity|].
  apply (Hthrow (Call "aiAssert" [JStr "dashboard is visible"; JUndefined]
                   (Some [("timeoutMs", JNum 15000)]))
                (ErrorObj "element not found")); vm_compute; reflexivity.
Defined.

(** Counterexample to C5 as stated: an assertion step that has no
    [timeoutMs] is forwarded with [timeoutMs: 15000]. *)
Lemma assert_timeout_defaulted :
  let step := Samples.step_of Samples.assert_dashboard in
  AutomationAgent.present "timeoutMs" step = false
  /\ AutomationAgent.routed_call
       (AutomationAgent.route (Samples.host Samples.never) step
          (AutomationAgent.buildExecutionOptions step))
     = Some (Call "aiAssert" [JStr "dashboard is visible"; JUndefined]
               (Some [("timeoutMs", JNum 15000)]))
  /\ ~ (forall (st : TestStep.t) c opts k,
          AutomationAgent.routed_call
            (AutomationAgent.route (Samples.host Samples.never) st
               (AutomationAgent.buildExecutionOptions st)) = Some c ->
          AutomationAgent.call_options c = Some opts ->
          has k opts = true -> AutomationAgent.present k st = true).
Proof.
  intros step. split; [reflexivity|]. split; [reflexivity|].
  intros H.
  specialize (H step _ [("timeoutMs", JNum 15000)] "timeoutMs" eq_refl eq_refl eq_refl).
  discriminate H.
Qed.

(** ** The orchestrator *)

Section OrchestratorFacts.
Context {W : Type} (host : Host W).

Import TestCaseExecutor.

Lemma completed_steps_app (xs ys : list Event) :
  completed_steps (xs ++ ys) = completed_steps xs ++ completed_steps ys.
Proof.
  induction xs as [|e xs IH]; [reflexivity|].
  destruct e; cbn; rewrite IH; reflexivity.
Qed.

Lemma ran_zero (i : nat) (ex : t) :
  length (TestCase.steps (testCase ex)) <= i -> ran i 0 ex ex.
Proof.
  intros Hi. unfold ran. destruct ex as [[] ? ? ? ?]; cbn in *.
  repeat split; try reflexivity; try lia.
  - rewrite app_nil_r. reflexivity.
  - exists []. rewrite app_nil_r, take_0. auto.
Qed.

Lemma steps_loop_ran (n i : nat) (ex : t) (w : W) :
  length (TestCase.steps (testCase ex)) <= n + i ->
  exists ex' w' m,
    steps_loop host n i ex w = ((ex', inr tt), w') /\ ran i m ex ex'
    /\ (m = 0 -> w' = w).
Proof.
  revert i ex w. induction n as [|n IH]; intros i ex w Hn.
  - exists ex, w, 0. split; [reflexivity|]. split; [apply ran_zero; lia|auto].
  - cbn [steps_loop].
    destruct (TestCase.steps (testCase ex) !! i) as [step|] eqn:Hlook.
    2:{ exists ex, w, 0. split; [reflexivity|].
        split; [apply ran_zero, lookup_ge_None, Hlook|auto]. }
    pose proof (lookup_lt_Some _ _ _ Hlook) as Hlt.
    unfold bind at 1. destruct (Date_now host w) as [now w1].
    set (step1 := TestStep.with_startTime (Some now)
                    (TestStep.with_status StepRunning step)).
    set (ex1 := emit (stepStarted step1) (set_step i step1 ex)).
    unfold bind at 1.
    destruct (executeStep_returns host (agent ex1) step1 w1)
      as (a' & result & w2 & Hex & _ & Hst).
    rewrite Hex. cbn iota beta.
    set (ex2 := record_dispatch i (with_agent a' ex1)).
    set (ex3 := emit (stepCompleted result) (set_step i result ex2)).
    assert (Hsteps3 : TestCase.steps (testCase ex3)
                      = <[i := result]> (TestCase.steps (testCase ex))).
    { cbn. rewrite list_insert_insert_eq. reflexivity. }
    assert (Hlen3 : length (TestCase.steps (testCase ex3))
                    = length (TestCase.steps (testCase ex))).
    { rewrite Hsteps3, length_insert. reflexivity. }
    assert (Hi3 : TestCase.steps (testCase ex3) !! i = Some result).
    { rewrite Hsteps3. apply list_lookup_insert_eq. exact Hlt. }
    assert (Hframe3 : testCase ex3
                      = TestCase.with_steps (TestCase.steps (testCase ex3)) (testCase ex)).
    { destruct ex as [[] ? ? ? ?]; reflexivity. }
    assert (Hem3 : emitted ex3
                   = emitted ex ++ [stepStarted step1; stepCompleted result]).
    { cbn. rewrite <- app_assoc. reflexivity. }
    assert (Hdis3 : dispatched ex3 = dispatched ex ++ [i]) by reflexivity.
    assert (Hd3 : isDestroyed ex3 = isDestroyed ex) by reflexivity.
    assert (Hother3 : forall j, j <> i ->
              TestCase.steps (testCase ex3) !! j = TestCase.steps (testCase ex) !! j).
    { intros j Hj. rewrite Hsteps3. apply list_lookup_insert_ne. lia. }
    clearbody ex3. clear ex2 ex1 Hex.
    destruct (TestStep.status result) eqn:Hres;
      try (destruct Hst as [Hst|Hst]; discriminate).
    + (* the step succeeded: the loop goes on *)
      destruct (IH (S i) ex3 w2) as (ex' & w' & m & Hloop & Hran & _);
        [rewrite Hlen3; lia|].
      exists ex', w', (S m). split; [exact Hloop|]. split; [|discriminate].
      unfold ran in *. cbv zeta in *.
      destruct Hran as (R1 & R2 & R3 & R4 & R5 & (es & R6 & R6' & R6'')
                        & R7 & R8 & R9 & R10 & R11).
      assert (Hi' : TestCase.steps (testCase ex') !! i = Some result).
      { rewrite R7 by lia. exact Hi3. }
      split; [rewrite R1, Hframe3; reflexivity|].
      split; [congruence|].
      split; [congruence|].
      split; [rewrite Hlen3 in R4; lia|].
      split; [rewrite R5, Hdis3, <- app_assoc; reflexivity|].
      split.
      { exists ([stepStarted step1; stepCompleted result] ++ es).
        split; [rewrite R6, Hem3, <- app_assoc; reflexivity|].
        split; [repeat constructor; exact R6'|].
        cbn [app completed_steps]. rewrite R6''.
        rewrite (drop_S _ _ _ Hi'). reflexivity. }
      split.
      { intros j Hj. rewrite R7 by lia. apply Hother3. lia. }
      split.
      { intros j s Hij Hjm Hs. destruct (decide (j = i)) as [->|Hne].
        - rewrite Hi' in Hs. inversion Hs; subst. exact Hres.
        - apply (R8 j s); [lia|lia|exact Hs]. }
      split.
      { intros s _ Hs. destruct m as [|m].
        - rewrite (R11 eq_refl) in Hs. replace (i + 1 - 1) with i in Hs by lia.
          rewrite Hi3 in Hs. inversion Hs; subst. auto.
        - apply R9; [lia|]. replace (S i + S m - 1) with (i + S (S m) - 1) by lia.
          exact Hs. }
      split; [|discriminate].
      intros Hlt'. destruct R10 as (s & Hm & Hs & Hf); [rewrite Hlen3; lia|].
      exists s. split; [lia|]. split; [|exact Hf].
      replace (i + S m - 1) with (S i + m - 1) by lia. exact Hs.
    + (* the step failed: the loop breaks *)
      exists ex3, w2, 1. split; [reflexivity|]. split; [|discriminate].
      unfold ran. cbv zeta.
      split; [exact Hframe3|]. split; [exact Hd3|]. split; [exact Hlen3|].
      split; [lia|]. split; [exact Hdis3|].
      split.
      { exists [stepStarted step1; stepCompleted result].
        split; [exact Hem3|]. split; [repeat constructor|].
        cbn [completed_steps]. rewrite (drop_S _ _ _ Hi3). reflexivity. }
      split; [intros j Hj; apply Hother3; lia|].
      split; [intros; lia|].
      split.
      { intros s _ Hs. replace (i + 1 - 1) with i in Hs by lia.
        rewrite Hi3 in Hs. inversion Hs; subst. auto. }
      split; [|discriminate].
      intros _. exists result. replace (i + 1 - 1) with i by lia. auto.
Qed.

(** The loop does not depend on the bound once the bound covers the
    indices left. *)
Lemma steps_loop_bound (n n' i : nat) (ex : t) (w : W) :
  length (TestCase.steps (testCase ex)) <= n + i ->
  length (TestCase.steps (testCase ex)) <= n' + i ->
  steps_loop host n i ex w = steps_loop host n' i ex w.
Proof.
  revert n' i ex w. induction n as [|n IH]; intros n' i ex w Hn Hn'.
  - destruct n' as [|n']; [reflexivity|]. cbn [steps_loop].
    destruct (TestCase.steps (testCase ex) !! i) eqn:Hlook; [|reflexivity].
    apply lookup_lt_Some in Hlook. lia.
  - cbn [steps_loop].
    destruct (TestCase.steps (testCase ex) !! i) as [step|] eqn:Hlook.
    2:{ destruct n'; cbn [steps_loop]; [|rewrite Hlook]; reflexivity. }
    pose proof (lookup_lt_Some _ _ _ Hlook) as Hlt.
    destruct n' as [|n']; [lia|]. cbn [steps_loop]. rewrite Hlook.
    unfold bind. destruct (Date_now host w) as [now w1].
    destruct (AutomationAgent.executeStep host _ _ w1) as [[a o] w2].
    destruct o as [e|result]; [reflexivity|].
    destruct (TestStep.status result); try reflexivity;
      apply IH; cbn; rewrite !length_insert; lia.
Qed.

(** [execute()] returns the snapshot of the case; between its two status
    notifications it dispatches the steps [0 .. m-1] and no other. *)
Lemma execute_runs (ex : t) (w : W) :
  exists ex' w' m es c1 t0 t1,
    execute host ex w = ((ex', inr (getTestCase ex')), w')
    /\ TestCase.status (testCase ex')
       = (if forallb succeeded (TestCase.steps (testCase ex'))
          then CaseCompleted else CaseFailed)
    /\ TestCase.startTime (testCase ex') = Some t0
    /\ TestCase.endTime (testCase ex') = Some t1
    /\ length (TestCase.steps (testCase ex')) = length (TestCase.steps (testCase ex))
    /\ m <= length (TestCase.steps (testCase ex))
    /\ dispatched ex' = dispatched ex ++ seq 0 m
    /\ emitted ex' = emitted ex ++ [caseStatusChanged c1] ++ es
                       ++ [caseStatusChanged (testCase ex')]
    /\ TestCase.status c1 = CaseRunning
    /\ Forall (fun e => is_step_event e = true) es
    /\ completed_steps es = take m (TestCase.steps (testCase ex'))
    /\ (m = 0 -> es = [])
    /\ (forall j, m <= j ->
          TestCase.steps (testCase ex') !! j = TestCase.steps (testCase ex) !! j)
    /\ (forall j s, S j < m -> TestCase.steps (testCase ex') !! j = Some s ->
          TestStep.status s = StepSuccess)
    /\ (forall s, 1 <= m -> TestCase.steps (testCase ex') !! (m - 1) = Some s ->
          TestStep.status s = StepSuccess \/ TestStep.status s = StepFailed)
    /\ (m < length (TestCase.steps (testCase ex)) ->
          exists s, 1 <= m /\ TestCase.steps (testCase ex') !! (m - 1) = Some s
                    /\ TestStep.status s = StepFailed).
Proof.
  unfold execute, bind, ret.
  destruct (Date_now host w) as [t0 w1].
  set (ex1 := updateStatus CaseRunning ex).
  set (ex2 := with_testCase (TestCase.with_startTime (Some t0) (testCase ex1)) ex1).
  unfold executeStepsWithProgress, bind, ret.
  destruct (steps_loop_ran (length (TestCase.steps (testCase ex2))) 0 ex2 w1)
    as (ex3 & w3 & m & Hloop & Hran & _); [lia|].
  rewrite Hloop. cbn iota beta.
  destruct (Date_now host w3) as [t1 w4].
  unfold ran in Hran. cbv zeta in Hran.
  destruct Hran as (R1 & R2 & R3 & R4 & R5 & (es & R6 & R6' & R6'')
                    & R7 & R8 & R9 & R10 & R11).
  assert (Hs2 : TestCase.steps (testCase ex2) = TestCase.steps (testCase ex))
    by reflexivity.
  rewrite Hs2 in *. rewrite Nat.max_0_l in R4. rewrite drop_0 in R6''.
  eexists _, w4, m, es, _, t0, t1.
  split; [reflexivity|].
  cbn [updateStatus with_testCase emit testCase TestCase.with_status
       TestCase.with_endTime TestCase.status TestCase.steps TestCase.startTime
       TestCase.endTime emitted dispatched getTestCase].
  split; [reflexivity|].
  split; [rewrite R1; reflexivity|].
  split; [reflexivity|].
  split; [exact R3|].
  split; [lia|].
  split; [exact R5|].
  split.
  { rewrite R6. cbn. rewrite <- !app_assoc. reflexivity. }
  split; [reflexivity|].
  split; [exact R6'|].
  split; [exact R6''|].
  split.
  { intros ->. rewrite take_0 in R6''.
    specialize (R11 eq_refl). subst ex3.
    apply (f_equal (@length Event)) in R6.
    rewrite length_app in R6. destruct es; [reflexivity|cbn in R6; lia]. }
  split; [intros j Hj; apply R7; lia|].
  split; [intros j s Hj; apply R8; lia|].
  split; [exact R9|exact R10].
Qed.
End OrchestratorFacts.

Section OrchestratorProperties.
Context {W : Type} (host : Host W).

Import TestCaseExecutor.

Lemma events_since_execute (ex ex' : t) (c1 : TestCase.t) (es : list Event) :
  emitted ex' = emitted ex ++ [caseStatusChanged c1] ++ es
                  ++ [caseStatusChanged (testCase ex')] ->
  events_since ex ex'
  = [caseStatusChanged c1] ++ es ++ [caseStatusChanged (testCase ex')].
Proof. intros H. unfold events_since. rewrite H. apply drop_app_length. Qed.

Lemma dispatched_since_execute (ex ex' : t) (m : nat) :
  dispatched ex' = dispatched ex ++ seq 0 m -> dispatched_since ex ex' = seq 0 m.
Proof. intros H. unfold dispatched_since. rewrite H. apply drop_app_length. Qed.

Lemma completed_steps_execute (c1 c2 : TestCase.t) (es : list Event) :
  completed_steps ([caseStatusChanged c1] ++ es ++ [caseStatusChanged c2])
  = completed_steps es.
Proof.
  cbn [app completed_steps]. rewrite completed_steps_app. cbn.
  apply app_nil_r.
Qed.

Lemma forallb_succeeded_false (l : list TestStep.t) (k : nat) (s : TestStep.t) :
  l !! k = Some s -> TestStep.status s = StepFailed -> forallb succeeded l = false.
Proof.
  intros Hk Hs. apply not_true_is_false. intros Hall.
  rewrite forallb_forall in Hall.
  assert (Hin : In s l) by (apply list_elem_of_In, list_elem_of_lookup; eauto).
  apply Hall in Hin. unfold succeeded in Hin. rewrite Hs in Hin. discriminate.
Qed.

Lemma succeeded_true (s : TestStep.t) :
  succeeded s = true <-> TestStep.status s = StepSuccess.
Proof. unfold succeeded. destruct (TestStep.status s); cbn; split; congruence. Qed.

(** C1 (fail-fast).  Whenever the [k]-th step that [execute()] dispatches
    is the first one to come back [failed], the call returns the snapshot
    of the case, exactly the steps [0 .. k] were dispatched, every step
    after [k] is the step it was before the call (so it keeps its status),
    and the case is [failed]. *)
Theorem execute_fail_fast (ex : t) (w : W) (k : nat) (sk : TestStep.t) :
  let ex' := fst (fst (execute host ex w)) in
  completed_steps (events_since ex ex') !! k = Some sk ->
  TestStep.status sk = StepFailed ->
  (forall j sj, j < k -> completed_steps (events_since ex ex') !! j = Some sj ->
                TestStep.status sj <> StepFailed) ->
  snd (fst (execute host ex w)) = inr (getTestCase ex')
  /\ dispatched_since ex ex' = seq 0 (S k)
  /\ (forall i, k < i -> ~ In i (dispatched_since ex ex'))
  /\ (forall i, k < i ->
        TestCase.steps (testCase ex') !! i = TestCase.steps (testCase ex) !! i)
  /\ getStatus ex' = CaseFailed.
Proof.
  destruct (execute_runs host ex w)
    as (ex1 & w1 & m & es & c1 & t0 & t1 & Hex & Hst & _ & _ & Hlen & Hm & Hdis
        & Hem & _ & _ & Hcs & _ & Hkeep & Hsucc & _ & _).
  rewrite Hex. cbn [fst snd]. intros Hk Hfail _.
  rewrite (events_since_execute _ _ _ _ Hem), completed_steps_execute, Hcs in Hk.
  rewrite (dispatched_since_execute _ _ _ Hdis).
  apply lookup_take_Some in Hk as [Hk Hkm].
  assert (m = S k) as ->.
  { destruct (decide (S k < m)) as [Hlt|Hge]; [|lia].
    specialize (Hsucc k sk Hlt Hk). congruence. }
  split; [reflexivity|]. split; [reflexivity|].
  split; [intros i Hi Hin; apply in_seq in Hin; lia|].
  split; [intros i Hi; apply Hkeep; lia|].
  unfold getStatus. rewrite Hst, (forallb_succeeded_false _ _ _ Hk Hfail).
  reflexivity.
Qed.

(** C6, as the code has it.  After [execute()] the case is [completed]
    exactly when every step that was dispatched ended [success], and it is
    [failed] otherwise.  The status that a step has before the call plays
    no part, [skipped] included: the first step is dispatched whatever its
    status, a step that was [skipped] and is dispatched ends [success] or
    [failed] like any other and makes the case [failed] when it fails, a
    [skipped] step that is not reached belongs to a [failed] case, and a
    case is [completed] only when every one of its steps was dispatched and
    ended [success]. *)
Theorem execute_completed_iff (ex : t) (w : W) :
  let ex' := fst (fst (execute host ex w)) in
  (getStatus ex' = CaseCompleted
   <-> (forall i s, In i (dispatched_since ex ex') ->
                    TestCase.steps (testCase ex') !! i = Some s ->
                    TestStep.status s = StepSuccess))
  /\ (getStatus ex' <> CaseCompleted -> getStatus ex' = CaseFailed)
  /\ (getStatus ex' = CaseCompleted ->
      forall i s0, TestCase.steps (testCase ex) !! i = Some s0 ->
        In i (dispatched_since ex ex')
        /\ exists s, TestCase.steps (testCase ex') !! i = Some s
                     /\ TestStep.status s = StepSuccess)
  /\ (forall s0, TestCase.steps (testCase ex) !! 0 = Some s0 ->
                 In 0 (dispatched_since ex ex'))
  /\ (forall i s0 s,
        TestCase.steps (testCase ex) !! i = Some s0 ->
        TestStep.status s0 = StepSkipped ->
        TestCase.steps (testCase ex') !! i = Some s ->
        (In i (dispatched_since ex ex') ->
         (TestStep.status s = StepSuccess \/ TestStep.status s = StepFailed)
         /\ (TestStep.status s = StepFailed -> getStatus ex' = CaseFailed))
        /\ (~ In i (dispatched_since ex ex') ->
            s = s0 /\ getStatus ex' = CaseFailed)).
Proof.
  destruct (execute_runs host ex w)
    as (ex1 & w1 & m & es & c1 & t0 & t1 & Hex & Hst & _ & _ & Hlen & Hm & Hdis
        & _ & _ & _ & _ & _ & Hkeep & Hsucc & Hlast & Hstop).
  rewrite Hex. cbn [fst snd].
  rewrite (dispatched_since_execute _ _ _ Hdis). unfold getStatus. rewrite Hst.
  assert (Hiff : forallb succeeded (TestCase.steps (testCase ex1)) = true
                 <-> (forall i s, In i (seq 0 m) ->
                        TestCase.steps (testCase ex1) !! i = Some s ->
                        TestStep.status s = StepSuccess)).
  { split.
    - intros Hall i s _ Hi. rewrite forallb_forall in Hall.
      apply succeeded_true, Hall, list_elem_of_In, list_elem_of_lookup. eauto.
    - intros Hall.
      assert (m = length (TestCase.steps (testCase ex))) as ->.
      { destruct (decide (m < length (TestCase.steps (testCase ex)))) as [Hlt|]; [|lia].
        destruct (Hstop Hlt) as (s & H1 & Hs & Hf).
        rewrite (Hall (m - 1) s) in Hf; [discriminate| |exact Hs].
        apply in_seq. lia. }
      apply forallb_forall. intros s Hin.
      apply list_elem_of_In, list_elem_of_lookup in Hin as [i Hi].
      apply succeeded_true, (Hall i s); [|exact Hi].
      apply in_seq. apply lookup_lt_Some in Hi. lia. }
  assert (Hfailed : forall i s, TestCase.steps (testCase ex1) !! i = Some s ->
                      TestStep.status s = StepFailed ->
                      (if forallb succeeded (TestCase.steps (testCase ex1))
                       then CaseCompleted else CaseFailed) = CaseFailed).
  { intros i s Hi Hf. now rewrite (forallb_succeeded_false _ _ _ Hi Hf). }
  split; [|split; [|split; [|split]]].
  - destruct (forallb succeeded (TestCase.steps (testCase ex1))) eqn:Hall.
    + split; [intros _; now apply Hiff|reflexivity].
    + split; [discriminate|]. intros H. apply Hiff in H. discriminate.
  - destruct (forallb _ _); congruence.
  - intros Hc i s0 Hi.
    destruct (forallb succeeded (TestCase.steps (testCase ex1))) eqn:Hall;
      [|discriminate].
    pose proof (lookup_lt_Some _ _ _ Hi) as Hlt.
    assert (m = length (TestCase.steps (testCase ex))) as ->.
    { destruct (decide (m < length (TestCase.steps (testCase ex)))) as [Hlt'|]; [|lia].
      destruct (Hstop Hlt') as (s & H1 & Hs & Hf).
      pose proof (Hfailed _ _ Hs Hf) as Hcontra. rewrite ?Hall in Hcontra.
      discriminate Hcontra. }
    split; [apply in_seq; lia|].
    destruct (lookup_lt_is_Some_2 (TestCase.steps (testCase ex1)) i) as [s Hs]; [lia|].
    exists s. split; [exact Hs|].
    rewrite forallb_forall in Hall.
    apply succeeded_true, Hall, list_elem_of_In, list_elem_of_lookup. eauto.
  - intros s0 H0. pose proof (lookup_lt_Some _ _ _ H0) as Hlt. apply in_seq.
    destruct (decide (m < length (TestCase.steps (testCase ex)))) as [Hlt'|]; [|lia].
    destruct (Hstop Hlt') as (s & H1 & _). lia.
  - intros i s0 s Hi Hskip Hs. split.
    + intros Hin. apply in_seq in Hin.
      assert (Hcases : TestStep.status s = StepSuccess \/ TestStep.status s = StepFailed).
      { destruct (decide (S i < m)) as [Hlt|Hge].
        - left. apply (Hsucc i s Hlt Hs).
        - apply (Hlast s); [lia|]. replace (m - 1) with i by lia. exact Hs. }
      split; [exact Hcases|]. intros Hf. apply (Hfailed i s Hs Hf).
    + intros Hnot.
      assert (Hge : m <= i).
      { destruct (decide (m <= i)) as [|Hlt]; [assumption|].
        exfalso. apply Hnot, in_seq. lia. }
      split; [rewrite Hkeep in Hs by exact Hge; congruence|].
      pose proof (lookup_lt_Some _ _ _ Hi) as Hlt.
      destruct (Hstop ltac:(lia)) as (s' & _ & Hs' & Hf).
      apply (Hfailed _ _ Hs' Hf).
Qed.

(** C10 (empty case).  With no steps, [execute()] returns the snapshot of
    a [completed] case with both timestamps set, dispatches nothing and
    emits no step event; and parsing a case that has neither an action
    sequence nor a (non-empty) code string yields the empty step list. *)
Theorem execute_empty (ex : t) (w : W) :
  TestCase.steps (testCase ex) = [] ->
  let ex' := fst (fst (execute host ex w)) in
  snd (fst (execute host ex w)) = inr (getTestCase ex')
  /\ getStatus ex' = CaseCompleted
  /\ is_Some (TestCase.startTime (testCase ex'))
  /\ is_Some (TestCase.endTime (testCase ex'))
  /\ dispatched_since ex ex' = []
  /\ filter (fun e => is_step_event e = true) (events_since ex ex') = []
  /\ TestCase.steps (testCase ex') = []
  /\ (forall w0, AutomationAgent.parseTestCodeOrActionSequence host None None w0
                 = (inr [], w0))
  /\ (forall w0, AutomationAgent.parseTestCodeOrActionSequence host None (Some "") w0
                 = (inr [], w0)).
Proof.
  intros Hnil.
  destruct (execute_runs host ex w)
    as (ex1 & w1 & m & es & c1 & t0 & t1 & Hex & Hst & Ht0 & Ht1 & Hlen & Hm & Hdis
        & Hem & _ & _ & _ & Hes & _).
  rewrite Hex. cbn [fst snd]. rewrite Hnil in *. cbn in Hlen, Hm.
  assert (m = 0) as -> by lia. specialize (Hes eq_refl). subst es.
  apply nil_length_inv in Hlen.
  split; [reflexivity|].
  split; [unfold getStatus; rewrite Hst, Hlen; reflexivity|].
  split; [rewrite Ht0; eauto|]. split; [rewrite Ht1; eauto|].
  split; [apply (dispatched_since_execute _ _ _ Hdis)|].
  split; [rewrite (events_since_execute _ _ _ _ Hem); reflexivity|].
  split; [exact Hlen|]. split; reflexivity.
Qed.

(** C9, as the code has it.  [reset()] puts the case in [created] with an
    empty step list and notifies once, whatever the status was, [running]
    included; nothing else of the executor changes. *)
Theorem reset_unconditional (ex : t) :
  getStatus (reset ex) = CaseCreated
  /\ TestCase.steps (testCase (reset ex)) = []
  /\ emitted (reset ex) = emitted ex ++ [caseStatusChanged (testCase (reset ex))]
  /\ testCase (reset ex)
     = TestCase.with_steps [] (TestCase.with_status CaseCreated (testCase ex))
  /\ agent (reset ex) = agent ex
  /\ isDestroyed (reset ex) = isDestroyed ex.
Proof. repeat split. Qed.
End OrchestratorProperties.

(** Witness of C1: a tap, then an assertion on which the driver throws, then
    a tap that never runs. *)
Lemma execute_fail_fast_witness :
  let ex := Samples.executor_of Samples.three_steps in
  let ex' := fst (fst (TestCaseExecutor.execute (Samples.host Samples.on_assert) ex 0)) in
  TestCaseExecutor.dispatched_since ex ex' = [0; 1]
  /\ TestCaseExecutor.getStatus ex' = CaseFailed
  /\ TestStep.status <$> TestCase.steps (TestCaseExecutor.testCase ex')
     = [StepSuccess; StepFailed; StepPending].
Proof.
  intros ex ex'.
  destruct (execute_fail_fast (Samples.host Samples.on_assert) ex 0 1
              (TestStep.mk Samples.assert_dashboard "step" "" StepFailed (Some 6%Z)
                 (Some 9%Z) (Some "element not found") JUndefined None))
    as (_ & Hd & _ & _ & Hs).
  - vm_compute. reflexivity.
  - reflexivity.
  - intros j sj Hj. destruct j as [|j]; [|lia].
    vm_compute. intros H. inversion H. discriminate.
  - split; [exact Hd|]. split; [exact Hs|]. vm_compute. reflexivity.
Defined.

(** Witness of C10: the case as constructed, never parsed. *)
Lemma execute_empty_witness :
  TestCaseExecutor.getStatus
    (fst (fst (TestCaseExecutor.execute (Samples.host Samples.never)
                 (Samples.executor_of []) 0)))
  = CaseCompleted.
Proof.
  apply (execute_empty (Samples.host Samples.never) (Samples.executor_of []) 0).
  reflexivity.
Defined.

(** Counterexample to C9 as stated: [reset()] on a running case. *)
Lemma reset_while_running :
  let ex := TestCaseExecutor.updateStatus CaseRunning
              (Samples.executor_of Samples.three_steps) in
  TestCaseExecutor.getStatus ex = CaseRunning
  /\ TestCaseExecutor.getStatus (TestCaseExecutor.reset ex) = CaseCreated
  /\ ~ (forall ex0, TestCaseExecutor.getStatus ex0 = CaseRunning ->
                    TestCaseExecutor.getStatus (TestCaseExecutor.reset ex0) <> CaseCreated).
Proof.
  intros ex. split; [reflexivity|]. split; [reflexivity|].
  intros H. apply (H ex); reflexivity.
Qed.

(** ** Parsing a case into steps *)

Section SequenceFacts.

Import AutomationAgent.

Lemma accepted_is_object (raw out : JsValue) :
  parse AIActionSchema raw = Some out ->
  exists fs ofs t o sh,
    raw = JObj fs /\ out = JObj ofs
    /\ In o AIAction_options /\ o = ZObject sh false
    /\ discriminator "type" o = Some t
    /\ get "type" fs = JStr t /\ get "type" ofs = JStr t
    /\ parse_shape parse fs sh = Some ofs
    /\ parse (ZObject sh true) out = Some out
    /\ NoDup (keys sh).
Proof.
  intros Hp.
  assert (Hv : validateAction raw = true) by (unfold validateAction; rewrite Hp; reflexivity).
  destruct (validateAction_inv raw Hv)
    as (fs & t & o & out' & -> & Ht & Hin & Hd & Ho & Hp').
  rewrite Hp in Hp'. inversion Hp'; subst out'. clear Hp'.
  pose proof options_closed as Hclosed. rewrite Forall_forall in Hclosed.
  destruct (Hclosed o (proj2 (list_elem_of_In _ _) Hin)) as (sh & Heq & Hnd & Hid).
  subst o.
  pose proof (parse_object_idempotent sh false true _ _ Hnd Hid Ho) as Hstrict.
  destruct (parse_object_inv _ _ _ _ Ho) as (fs' & ofs & Hfs & -> & Hsh & _).
  inversion Hfs; subst fs'.
  exists fs, ofs, t, (ZObject sh false), sh.
  repeat (split; [first [reflexivity | assumption]|]).
  split; [|split; [|split; [exact Hstrict|exact Hnd]]].
  - apply (option_accepts_type (ZObject sh false) true sh t ofs _ eq_refl Hd Hstrict).
  - exact Hsh.
Qed.

Lemma get_has (k : string) (o : Obj) : get k o <> JUndefined -> has k o = true.
Proof.
  intros H. destruct (has k o) eqn:Hk; [reflexivity|].
  exfalso. apply H, has_false_get, Hk.
Qed.

Lemma parse_all_cons (p : JsValue -> option JsValue) (x : JsValue) (r : list JsValue) :
  parse_all p (x :: r)
  = match p x with
    | None => None
    | Some y => match parse_all p r with
                | None => None
                | Some ys => Some (y :: ys)
                end
    end.
Proof. reflexivity. Qed.

(** What the action-sequence schema returns reads as an action sequence,
    made of validated actions. *)
Lemma as_sequence_validated (raw parsed : JsValue) :
  parse ActionSequenceSchema raw = Some parsed ->
  exists sq, as_sequence parsed = Some sq
             /\ Forall (fun a => exists r, parse AIActionSchema r = Some (JObj a))
                       (ActionSequence.actions sq).
Proof.
  unfold ActionSequenceSchema, object. intros Hp.
  apply parse_object_inv in Hp as (fs & o & -> & -> & Ho & _).
  rewrite !parse_shape_cons in Ho.
  destruct (get "actions" fs) as [| | | | |acts|] eqn:Hacts; try discriminate.
  rewrite parse_array_eq in Ho.
  destruct (parse_all (parse AIActionSchema) acts) as [ys|] eqn:Hys; [|discriminate].
  cbn [option_map] in Ho.
  destruct (parse (ZObject _ false) (get "display" fs)) as [yd|] eqn:Hd; [|discriminate].
  rewrite (get_has "actions" fs) in Ho by (rewrite Hacts; discriminate).
  assert (Hdisp : has "display" fs = true).
  { apply get_has. intros Hu. rewrite Hu in Hd. discriminate. }
  rewrite Hdisp in Ho. cbn in Ho. inversion Ho; subst o. clear Ho.
  apply parse_object_inv in Hd as (dfs & od & Hdfs & -> & Hod & _).
  rewrite !parse_shape_cons in Hod.
  destruct (get "code" dfs) as [| | | | |codes|] eqn:Hcodes; try discriminate.
  rewrite parse_array_eq in Hod.
  destruct (parse_all (parse ZString) codes) as [cs|] eqn:Hcs; [|discriminate].
  cbn [option_map] in Hod.
  destruct (get "description" dfs) as [| | | |d| |] eqn:Hdesc; try discriminate.
  rewrite (get_has "code" dfs) in Hod by (rewrite Hcodes; discriminate).
  rewrite (get_has "description" dfs) in Hod by (rewrite Hdesc; discriminate).
  cbn in Hod. inversion Hod; subst od. clear Hod.
  assert (Hobjs : exists acts', as_objects ys = Some acts'
                                /\ Forall (fun a => exists r, parse AIActionSchema r
                                                              = Some (JObj a)) acts').
  { clear Hacts. revert ys Hys. induction acts as [|x r IH]; intros ys Hys.
    - inversion Hys. exists []. split; [reflexivity|constructor].
    - rewrite parse_all_cons in Hys.
      destruct (parse AIActionSchema x) as [y|] eqn:Hx; [|discriminate].
      destruct (parse_all (parse AIActionSchema) r) as [ys'|]; [|discriminate].
      inversion Hys; subst. destruct (IH ys' eq_refl) as (acts' & Hacts' & Hall).
      destruct (accepted_is_object x y Hx) as (? & ofs & ? & ? & ? & _ & -> & _).
      exists (ofs :: acts'). split; [|constructor; [eauto|exact Hall]].
      unfold as_objects in *. cbn. rewrite Hacts'. reflexivity. }
  assert (Hstrs : exists cs', as_strings cs = Some cs').
  { clear Hcodes. revert cs Hcs. induction codes as [|x r IH]; intros cs Hcs.
    - inversion Hcs. exists []. reflexivity.
    - rewrite parse_all_cons in Hcs.
      destruct (parse ZString x) as [y|] eqn:Hx; [|discriminate].
      destruct (parse_all (parse ZString) r) as [cs'|]; [|discriminate].
      inversion Hcs; subst. destruct (IH cs' eq_refl) as (cs'' & Hcs'').
      destruct x; try discriminate. inversion Hx; subst y.
      exists (s :: cs''). unfold as_strings in *. cbn. rewrite Hcs''. reflexivity. }
  destruct Hobjs as (acts' & Hacts' & Hall). destruct Hstrs as (cs' & Hcs').
  exists (ActionSequence.mk acts' cs' d). unfold as_sequence. cbn.
  rewrite Hacts', Hcs'. split; [reflexivity|exact Hall].
Qed.

(** No shape of the action union has a key named like a field of a step. *)
Lemma no_shape_has_step_key (o : Schema) (k : string) :
  In o AIAction_options -> In k step_keys -> mem k (keys (shape o)) = false.
Proof.
  intros Ho Hk. rewrite options_shapes in Ho. unfold AIAction_shapes in Ho.
  cbn [In] in Ho. unfold step_keys in Hk. cbn [In] in Hk.
  repeat (destruct Hk as [<-|Hk];
          [repeat (destruct Ho as [<-|Ho]; [vm_compute; reflexivity|]); destruct Ho|]).
  destruct Hk.
Qed.

(** A validated action has no key named like a field of a step: the step
    made of it holds the action as it is and none of the fields that the
    spread could bring. *)
Lemma validated_spread (raw : JsValue) (a : Obj) (i d : string)
    (rawCode : option string) :
  parse AIActionSchema raw = Some (JObj a) ->
  spread_step a i d rawCode
  = TestStep.mk a i d StepPending None None None JUndefined rawCode.
Proof.
  intros Hp.
  destruct (accepted_is_object raw _ Hp)
    as (fs & ofs & t & o & sh & _ & Hofs & Hin & -> & _ & _ & _ & Hsh & _).
  inversion Hofs; subst ofs. clear Hofs.
  assert (Hno : forall k, In k step_keys -> has k a = false).
  { intros k Hk. apply not_true_is_false. intros Hh.
    destruct (parse_shape_has fs sh a k Hsh Hh) as [Hm _].
    pose proof (no_shape_has_step_key _ k Hin Hk) as Hn. cbn [shape] in Hn.
    congruence. }
  assert (Hget : forall k, In k step_keys -> get k a = JUndefined).
  { intros k Hk. apply has_false_get, Hno, Hk. }
  unfold spread_step, number_at, string_at.
  rewrite !Hget by (unfold step_keys; cbn; tauto).
  f_equal. unfold action_part.
  assert (Hall : forall kv, In kv a -> negb (mem (fst kv) step_keys) = true).
  { intros [k v] Hkv. cbn [fst]. apply negb_true_iff, not_true_is_false. intros Hm.
    apply mem_In in Hm. apply Hno in Hm.
    assert (Hh : has k a = true).
    { apply has_elem_of, list_elem_of_In. apply (in_map fst) in Hkv. exact Hkv. }
    congruence. }
  clear -Hall. induction a as [|kv a IH]; [reflexivity|]. cbn [List.filter].
  rewrite (Hall kv) by (now left). f_equal. apply IH. intros kv' H. apply Hall. now right.
Qed.
End SequenceFacts.

Section ParseProperties.
Context {W : Type} (host : Host W).

Import TestCaseExecutor.

Lemma make_steps_total (code : list string) (acts : list Obj) (i : nat) (w : W) :
  Forall (fun a => exists d, AutomationAgent.generateDescription host a = inr d) acts ->
  exists ss w', AutomationAgent.make_steps host code acts i w = (inr ss, w').
Proof.
  intros Hall. revert i w. induction Hall as [|a acts [d Hd] _ IH]; intros i w; cbn.
  - eexists _, _. reflexivity.
  - unfold bind, ret, AutomationAgent.make_step, bind, ret.
    destruct (nanoid host w) as [ident w1]. rewrite Hd.
    destruct (IH (S i) w1) as (ss & w2 & ->). eexists _, _. reflexivity.
Qed.

Lemma spread_step_of (a : Obj) (i d : string) (rawCode : option string) :
  AutomationAgent.spread_of a (AutomationAgent.spread_step a i d rawCode).
Proof.
  unfold AutomationAgent.spread_of, AutomationAgent.spread_step,
    AutomationAgent.number_at, AutomationAgent.string_at,
    AutomationAgent.number_field, AutomationAgent.string_field.
  cbn [TestStep.action TestStep.status TestStep.result TestStep.startTime
       TestStep.endTime TestStep.error].
  repeat split;
    [destruct (get "startTime" a) | destruct (get "endTime" a)
    | destruct (get "error" a)]; auto.
Qed.

Lemma make_steps_ok (code : list string) (acts : list Obj) (i : nat) (w w' : W)
    (ss : list TestStep.t) :
  AutomationAgent.make_steps host code acts i w = (inr ss, w') ->
  Forall2 (fun a s => AutomationAgent.spread_of a s
                      /\ AutomationAgent.generateDescription host a
                         = inr (TestStep.description s)
                      /\ exists d r, s = AutomationAgent.spread_step a (TestStep.id s) d r)
          acts ss
  /\ Forall (fun s => TestStep.status s = StepPending) ss
  /\ (forall j s, ss !! j = Some s -> TestStep.rawCode s = code !! (i + j)).
Proof.
  revert i w w' ss. induction acts as [|a acts IH]; intros i w w' ss; cbn.
  - unfold ret. intros H. inversion H; subst. repeat split; [constructor|constructor|].
    intros j s Hj. rewrite lookup_nil in Hj. discriminate.
  - unfold bind, ret, AutomationAgent.make_step, bind, ret.
    destruct (nanoid host w) as [ident w1].
    destruct (AutomationAgent.generateDescription host a) as [e|d] eqn:Hd;
      [intros H; inversion H|].
    destruct (AutomationAgent.make_steps host code acts (S i) w1) as [[e|ss'] w2] eqn:Hrest;
      intros H; inversion H; subst.
    destruct (IH _ _ _ _ Hrest) as (Hacts & Hpend & Hraw).
    split; [constructor; [|exact Hacts]|].
    { split; [apply spread_step_of|]. split; [exact Hd|]. eexists _, _. reflexivity. }
    split; [constructor; [reflexivity|exact Hpend]|].
    intros [|j] s Hj; cbn in Hj.
    + inversion Hj; subst. cbn. rewrite Nat.add_0_r. reflexivity.
    + rewrite (Hraw j s Hj). f_equal. lia.
Qed.

(** The steps made of validated actions hold the actions as they are. *)
Lemma make_steps_validated (code : list string) (acts : list Obj) (i : nat)
    (w w' : W) (ss : list TestStep.t) :
  Forall (fun a => exists r, Zod.parse AIActionSchema r = Some (JObj a)) acts ->
  AutomationAgent.make_steps host code acts i w = (inr ss, w') ->
  TestStep.action <$> ss = acts.
Proof.
  intros Hall Hmk. destruct (make_steps_ok _ _ _ _ _ _ Hmk) as (H2 & _ & _).
  clear Hmk. induction H2 as [|a s acts ss (_ & _ & d & r & Hs) _ IH]; [reflexivity|].
  apply Forall_cons in Hall as [[raw Hraw] Hall]. cbn. rewrite (IH Hall). f_equal.
  rewrite Hs, (validated_spread raw a _ _ _ Hraw). reflexivity.
Qed.


End ParseProperties.



(** ** Snapshots and object identity *)

Section SnapshotProperties.
Import Heap.

Lemma step_at_put_case (st : Store) (l : loc) (c : CaseObj) (x : loc) :
  (is_Some (case_at st l) \/ cells st !! l = None) ->
  step_at (put l (CaseCell c) st) x = step_at st x.
Proof.
  intros Hl. unfold step_at, put. cbn [cells].
  destruct (decide (l = x)) as [->|Hne].
  - rewrite lookup_insert_eq. unfold case_at in Hl.
    destruct Hl as [[c0 Hc0]|Hnone].
    + destruct (cells st !! x) as [[]|]; try discriminate; reflexivity.
    + rewrite Hnone. reflexivity.
  - rewrite lookup_insert_ne by exact Hne. reflexivity.
Qed.

Lemma array_at_put_case (st : Store) (l : loc) (c : CaseObj) (x : loc) :
  (is_Some (case_at st l) \/ cells st !! l = None) ->
  array_at (put l (CaseCell c) st) x = array_at st x.
Proof.
  intros Hl. unfold array_at, put. cbn [cells].
  destruct (decide (l = x)) as [->|Hne].
  - rewrite lookup_insert_eq. unfold case_at in Hl.
    destruct Hl as [[c0 Hc0]|Hnone].
    + destruct (cells st !! x) as [[]|]; try discriminate; reflexivity.
    + rewrite Hnone. reflexivity.
  - rewrite lookup_insert_ne by exact Hne. reflexivity.
Qed.

Lemma case_at_put_ne (st : Store) (l x : loc) (c : Cell) :
  l <> x -> case_at (put l c st) x = case_at st x.
Proof.
  intros Hne. unfold case_at, put. cbn [cells].
  rewrite lookup_insert_ne by exact Hne. reflexivity.
Qed.

Lemma case_at_put_eq (st : Store) (l : loc) (c : CaseObj) :
  case_at (put l (CaseCell c) st) l = Some c.
Proof. unfold case_at, put. cbn [cells]. rewrite lookup_insert_eq. reflexivity. Qed.

Lemma mapM_step_at_put_case (st : Store) (l : loc) (c : CaseObj) (items : list loc) :
  (is_Some (case_at st l) \/ cells st !! l = None) ->
  mapM (step_at (put l (CaseCell c) st)) items = mapM (step_at st) items.
Proof.
  intros Hl. induction items as [|x items IH]; [reflexivity|].
  cbn. rewrite (step_at_put_case _ _ _ _ Hl), IH. reflexivity.
Qed.

(** Writing a case object at an address that holds a case object, or
    nothing, does not change what another reference reaches. *)
Lemma view_put_case (st : Store) (l this : loc) (c : CaseObj) :
  l <> this ->
  (is_Some (case_at st l) \/ cells st !! l = None) ->
  view (put l (CaseCell c) st) this = view st this.
Proof.
  intros Hne Hl. unfold view.
  rewrite (case_at_put_ne _ _ _ _ Hne).
  destruct (case_at st this) as [c0|]; [|reflexivity].
  rewrite (array_at_put_case _ _ _ _ Hl).
  destruct (array_at st (steps c0)) as [items|]; [|reflexivity].
  rewrite (mapM_step_at_put_case _ _ _ _ Hl). reflexivity.
Qed.

(** The copy reaches what the original reaches. *)
Lemma view_copy (st : Store) (l this : loc) (c : CaseObj) :
  case_at st this = Some c ->
  (is_Some (case_at st l) \/ cells st !! l = None) ->
  view (put l (CaseCell c) st) l = view st this.
Proof.
  intros Hc Hl. unfold view. rewrite case_at_put_eq, Hc.
  rewrite (array_at_put_case _ _ _ _ Hl).
  destruct (array_at st (steps c)) as [items|]; [|reflexivity].
  rewrite (mapM_step_at_put_case _ _ _ _ Hl). reflexivity.
Qed.

(** C8, as the code has it.  [getTestCase()] returns a new object, distinct
    from the orchestrator's case object and from every earlier snapshot,
    with the same field values: the orchestrator's case is unchanged, the
    snapshot reads as the same case, and so does a second snapshot.
    Assigning a field of the snapshot does not change the orchestrator's
    case.  The copy is shallow: the snapshot holds the reference to the
    orchestrator's own step array. *)
Theorem getTestCase_shallow (st : Store) (this : loc) (c : CaseObj) :
  case_at st this = Some c ->
  fresh_above st ->
  exists snap st1 snap2 st2,
    getTestCase this st = Some (snap, st1)
    /\ getTestCase this st1 = Some (snap2, st2)
    /\ snap <> this /\ snap2 <> this /\ snap2 <> snap
    /\ view st1 this = view st this
    /\ view st1 snap = view st1 this
    /\ view st2 snap2 = view st2 snap
    /\ case_at st1 snap = Some c
    /\ steps <$> case_at st1 snap = steps <$> case_at st1 this
    /\ (forall m, own_field m = true ->
                  view (mutate m snap st1) this = view st1 this).
Proof.
  intros Hc Hfresh. unfold loc in *.
  assert (Hthis : this < next st).
  { destruct (decide (this < next st)) as [|Hge]; [assumption|].
    unfold case_at in Hc. rewrite Hfresh in Hc by lia. discriminate. }
  assert (Hfree : cells st !! next st = None) by (apply Hfresh; lia).
  set (st1 := put (next st) (CaseCell c) st).
  assert (Hc1 : case_at st1 this = Some c).
  { unfold st1. rewrite case_at_put_ne by lia. exact Hc. }
  assert (Hs1 : case_at st1 (next st) = Some c) by apply case_at_put_eq.
  assert (Hfree1 : cells st1 !! S (next st) = None).
  { unfold st1, put. cbn [cells]. rewrite lookup_insert_ne by lia.
    apply Hfresh. lia. }
  exists (next st), (mkStore (cells st1) (S (next st))), (S (next st)),
    (mkStore (<[S (next st) := CaseCell c]> (cells st1)) (S (S (next st)))).
  split; [unfold getTestCase; rewrite Hc; reflexivity|].
  split.
  { unfold getTestCase.
    change (case_at (mkStore (cells st1) (S (next st))) this) with (case_at st1 this).
    rewrite Hc1. reflexivity. }
  split; [intros Heq; rewrite Heq in Hthis; lia|].
  split; [intros Heq; rewrite <- Heq in Hthis; lia|].
  split; [apply Nat.neq_succ_diag_l|].
  change (view (mkStore (cells st1) (S (next st)))) with (view st1).
  change (case_at (mkStore (cells st1) (S (next st)))) with (case_at st1).
  change (view (mkStore (<[S (next st) := CaseCell c]> (cells st1)) (S (S (next st)))))
    with (view (put (S (next st)) (CaseCell c) st1)).
  assert (Hv1 : view st1 this = view st this).
  { apply view_put_case; [lia|right; exact Hfree]. }
  assert (Hv2 : view st1 (next st) = view st this).
  { apply view_copy; [exact Hc|right; exact Hfree]. }
  split; [exact Hv1|]. split; [congruence|].
  split.
  { rewrite (view_copy st1 (S (next st)) this c Hc1) by (right; exact Hfree1).
    rewrite view_put_case; [congruence|lia|right; exact Hfree1]. }
  split; [exact Hs1|]. split; [rewrite Hs1, Hc1; reflexivity|].
  intros m Hm. unfold mutate.
  change (case_at (mkStore (cells st1) (S (next st)))) with (case_at st1).
  rewrite Hs1.
  destruct m; try discriminate Hm;
    match goal with
    | |- view (put _ (CaseCell ?c') ?s) _ = _ =>
        change (view s) with (view st1);
        change (view (put (next st) (CaseCell c') s))
          with (view (put (next st) (CaseCell c') st1))
    end;
    (apply view_put_case; [lia|left; rewrite Hs1; eauto]).
Qed.
End SnapshotProperties.

(** Witness of C8: a snapshot of the sample executor. *)
Lemma getTestCase_shallow_witness :
  exists snap st1,
    Heap.getTestCase 0 Heap.sample_store = Some (snap, st1)
    /\ snap <> 0
    /\ Heap.view st1 snap = Heap.view st1 0.
Proof.
  destruct (getTestCase_shallow Heap.sample_store 0 Heap.sample_case)
    as (snap & st1 & snap2 & st2 & H1 & _ & H3 & _ & _ & _ & H7 & _).
  - reflexivity.
  - intros l Hl. unfold Heap.sample_store in *. cbn [Heap.cells Heap.next] in *.
    rewrite !lookup_insert_ne by lia. apply lookup_empty.
  - exists snap, st1. auto.
Defined.

(** Counterexample to C8 as stated: marking the step of a snapshot as failed
    marks the orchestrator's own step. *)
Lemma snapshot_shares_steps :
  exists snap st1,
    Heap.getTestCase 0 Heap.sample_store = Some (snap, st1)
    /\ (fun c => TestStep.status <$> TestCase.steps c) <$> Heap.view st1 0
       = Some [StepPending]
    /\ (fun c => TestStep.status <$> TestCase.steps c)
         <$> Heap.view (Heap.mutate (Heap.AssignStepStatus 0 StepFailed) snap st1) 0
       = Some [StepFailed]
    /\ Heap.view (Heap.mutate (Heap.AssignStepStatus 0 StepFailed) snap st1) 0
       <> Heap.view st1 0.
Proof.
  eexists _, _. split; [reflexivity|].
  split; [vm_compute; reflexivity|]. split; [vm_compute; reflexivity|].
  vm_compute. discriminate.
Qed.

(** The snapshot of the store model reads as the value that [getTestCase]
    of the orchestrator model returns. *)
Lemma getTestCase_reads_case (st : Heap.Store) (this : Heap.loc)
    (ex : TestCaseExecutor.t) :
  Heap.view st this = Some (TestCaseExecutor.testCase ex) ->
  Heap.fresh_above st ->
  exists snap st1,
    Heap.getTestCase this st = Some (snap, st1)
    /\ Heap.view st1 snap = Some (TestCaseExecutor.getTestCase ex).
Proof.
  intros Hview Hfresh. unfold Heap.getTestCase.
  destruct (Heap.case_at st this) as [c|] eqn:Hc.
  - eexists _, _. split; [reflexivity|].
    unfold Heap.alloc. cbn [fst snd].
    change (Heap.view (Heap.mkStore (<[Heap.next st := Heap.CaseCell c]> (Heap.cells st))
                         (S (Heap.next st))))
      with (Heap.view (Heap.put (Heap.next st) (Heap.CaseCell c) st)).
    rewrite (view_copy st (Heap.next st) this c Hc); [exact Hview|].
    right. apply Hfresh. lia.
  - unfold Heap.view in Hview. rewrite Hc in Hview. discriminate.
Qed.

(** ** Scenarios *)

(** Two valid actions given as code: two pending steps after [parse()], both
    [success] and the case [completed] after [execute()]. *)
Example happy_path :
  let host := Samples.host_reading (ActionSequence.to_js Samples.login_sequence)
                Samples.never in
  let parsed := fst (fst (TestCaseExecutor.parse host
                            (Samples.executor_for (Some "{ actions: [ ... ] }") None) 0)) in
  let done := fst (fst (TestCaseExecutor.execute host parsed 2)) in
  TestStep.status <$> TestCase.steps (TestCaseExecutor.testCase parsed)
  = [StepPending; StepPending]
  /\ TestStep.status <$> TestCase.steps (TestCaseExecutor.testCase done)
     = [StepSuccess; StepSuccess]
  /\ TestCaseExecutor.getStatus done = CaseCompleted
  /\ TestCaseExecutor.dispatched done = [0; 1].
Proof. vm_compute. repeat split. Qed.

(** Counterexample to C6 as stated: a case whose only step was [skipped]
    beforehand, on a driver whose taps throw.  The step is dispatched and
    fails, and the case is [failed], although no step that was not skipped
    beforehand has failed. *)
Lemma skipped_step_blocks_completion :
  let ex := Samples.executor_of [Samples.skipped_tap] in
  let done := fst (fst (TestCaseExecutor.execute
                          (Samples.host MoreSamples.on_tap) ex 0)) in
  TestStep.status Samples.skipped_tap = StepSkipped
  /\ TestCaseExecutor.dispatched done = [0]
  /\ TestStep.status <$> TestCase.steps (TestCaseExecutor.testCase done) = [StepFailed]
  /\ TestCaseExecutor.getStatus done = CaseFailed
  /\ ~ (forall (ex0 : TestCaseExecutor.t) (w : nat),
          let ex' := fst (fst (TestCaseExecutor.execute
                                 (Samples.host MoreSamples.on_tap) ex0 w)) in
          (forall i s0 s,
             TestCase.steps (TestCaseExecutor.testCase ex0) !! i = Some s0 ->
             TestStep.status s0 <> StepSkipped ->
             In i (TestCaseExecutor.dispatched_since ex0 ex') ->
             TestCase.steps (TestCaseExecutor.testCase ex') !! i = Some s ->
             TestStep.status s = StepSuccess) ->
          TestCaseExecutor.getStatus ex' = CaseCompleted).
Proof.
  intros ex done. split; [reflexivity|]. split; [vm_compute; reflexivity|].
  split; [vm_compute; reflexivity|]. split; [vm_compute; reflexivity|].
  intros H. specialize (H ex 0). cbv zeta in H.
  assert (Hf : TestCaseExecutor.getStatus
                 (fst (fst (TestCaseExecutor.execute
                              (Samples.host MoreSamples.on_tap) ex 0))) = CaseFailed)
    by (vm_compute; reflexivity).
  rewrite H in Hf; [discriminate|].
  intros [|i] s0 s Hi Hns; [|destruct i; discriminate Hi].
  cbn in Hi. inversion Hi; subst s0. exfalso. apply Hns. reflexivity.
Qed.

(** A step that enters the run as [skipped] is dispatched like any other,
    and the case completes. *)
Example skipped_step_is_run :
  let done := fst (fst (TestCaseExecutor.execute (Samples.host Samples.never)
                          (Samples.executor_of
                             [Samples.skipped_tap; Samples.step_of Samples.assert_dashboard])
                          0)) in
  TestStep.status <$> TestCase.steps (TestCaseExecutor.testCase done)
  = [StepSuccess; StepSuccess]
  /\ TestCaseExecutor.getStatus done = CaseCompleted
  /\ TestCaseExecutor.dispatched done = [0; 1].
Proof. vm_compute. repeat split. Qed.

(** The third of three actions is never reached when the second one throws. *)
Example fail_fast_scenario :
  let done := fst (fst (TestCaseExecutor.execute (Samples.host Samples.on_assert)
                          (Samples.executor_of Samples.three_steps) 0)) in
  TestStep.status <$> TestCase.steps (TestCaseExecutor.testCase done)
  = [StepSuccess; StepFailed; StepPending]
  /\ TestStep.error <$> TestCase.steps (TestCaseExecutor.testCase done)
     = [None; Some "element not found"; None]
  /\ TestCaseExecutor.getStatus done = CaseFailed.
Proof. vm_compute. repeat split. Qed.

(* ====================================================================== *)
(** * Further properties of the validator *)
(* ====================================================================== *)

Section ValidatorRoundTrips.


Lemma action_schema_idempotent : idempotent AIActionSchema.
Proof.
  intros raw out Hp.
  destruct (accepted_is_object raw out Hp)
    as (fs & ofs & t & o & sh & -> & -> & Hin & Ho & Hd & Ht & Ht' & Hsh & Hstrict & Hnd).
  unfold AIActionSchema. rewrite parse_discriminated_eq, Ht'.
  rewrite (selected_unique "type" t (JObj ofs) AIAction_options o options_NoDup Hin)
    by (apply has_discriminator_iff, Hd).
  subst o. pose proof options_closed as Hclosed. rewrite Forall_forall in Hclosed.
  destruct (Hclosed _ (proj2 (list_elem_of_In _ _) Hin)) as (sh' & Heq & _ & Hid).
  inversion Heq; subst sh'.
  apply (parse_object_idempotent sh true false _ _ Hnd Hid Hstrict).
Qed.

Lemma parse_all_idempotent (e : Schema) (xs ys : list JsValue) :
  idempotent e -> parse_all (parse e) xs = Some ys -> parse_all (parse e) ys = Some ys.
Proof.
  intros He. revert ys. induction xs as [|x r IH]; intros ys; cbn.
  - intros H. inversion H. reflexivity.
  - destruct (parse e x) as [y|] eqn:Hx; [|discriminate].
    destruct (parse_all (parse e) r) as [ys'|]; [|discriminate].
    intros H. inversion H; subst. cbn.
    rewrite (He _ _ Hx), (IH ys' eq_refl). reflexivity.
Qed.

Lemma idempotent_array (e : Schema) : idempotent e -> idempotent (ZArray e).
Proof.
  intros He x y H. destruct x as [| | | | |xs|]; try discriminate.
  rewrite parse_array_eq in H.
  destruct (parse_all (parse e) xs) as [ys|] eqn:Hxs; [|discriminate].
  inversion H; subst. rewrite parse_array_eq, (parse_all_idempotent e xs ys He Hxs).
  reflexivity.
Qed.

Lemma sequence_schema_idempotent : idempotent ActionSequenceSchema.
Proof.
  unfold ActionSequenceSchema, object.
  apply idempotent_object.
  - repeat (apply NoDup_cons_2;
            [rewrite ?elem_of_cons, elem_of_nil; intuition discriminate|]).
    apply NoDup_nil_2.
  - apply Forall_cons; split; [apply idempotent_array, action_schema_idempotent|].
    apply Forall_cons; split; [|apply Forall_nil_2].
    cbn [snd]. apply idempotent_object.
    + repeat (apply NoDup_cons_2;
              [rewrite ?elem_of_cons, elem_of_nil; intuition discriminate|]).
      apply NoDup_nil_2.
    + apply Forall_cons; split;
        [apply idempotent_array, transparent_idempotent, transparent_string|].
      apply Forall_cons; split; [|apply Forall_nil_2].
      apply transparent_idempotent, transparent_string.
Qed.

(** X1.  Validation is a projection: what the action schema returns for an
    accepted action, and what the action-sequence schema returns for an
    accepted sequence, is accepted again and returned unchanged. *)
Theorem validation_idempotent (raw out : JsValue) :
  (parse AIActionSchema raw = Some out -> parse AIActionSchema out = Some out)
  /\ (parse ActionSequenceSchema raw = Some out ->
      parse ActionSequenceSchema out = Some out).
Proof.
  split; [apply action_schema_idempotent|apply sequence_schema_idempotent].
Qed.

(** X2.  The enumeration of action types and the options of the action
    union name the same tags: a value passes [AIActionTypeSchema] exactly
    when it is the string that one option of the union carries as its
    literal [type], and that option is then the only one. *)
Theorem action_types_are_union_tags (v : JsValue) :
  is_Some (parse AIActionTypeSchema v)
  <-> exists t o, v = JStr t /\ In o AIAction_options
                  /\ discriminator "type" o = Some t
                  /\ forall o', In o' AIAction_options ->
                                discriminator "type" o' = Some t -> o' = o.
Proof.
  split.
  - intros [y Hy]. destruct v as [| | | |t| |]; try discriminate.
    unfold AIActionTypeSchema in Hy.
    change (parse (ZEnum action_types) (JStr t))
      with (if mem t action_types then Some (JStr t) else None) in Hy.
    destruct (mem t action_types) eqn:Hm; [|discriminate].
    apply mem_In in Hm.
    assert (Hex : exists o, In o AIAction_options /\ discriminator "type" o = Some t).
    { assert (Hfind : exists o, find (has_discriminator "type" t) AIAction_options
                               = Some o).
      { unfold action_types in Hm. cbn [In] in Hm.
        repeat (destruct Hm as [<-|Hm]; [eexists; vm_compute; reflexivity|]).
        destruct Hm. }
      destruct Hfind as (o & Hfind). exists o.
      apply find_some in Hfind as [Hin Hd].
      split; [exact Hin|apply has_discriminator_iff, Hd]. }
    destruct Hex as (o & Hin & Hd). exists t, o.
    repeat split; try assumption.
    intros o' Hin' Hd'. apply option_determined; congruence.
  - intros (t & o & -> & Hin & Hd & _).
    destruct (option_type o Hin) as (t' & Hd' & Ht').
    assert (t' = t) by congruence. subst t'.
    unfold AIActionTypeSchema.
    change (parse (ZEnum action_types) (JStr t))
      with (if mem t action_types then Some (JStr t) else None).
    apply mem_In in Ht'. rewrite Ht'. eauto.
Qed.

(** X4.  The key schema of [aiKeyboardPress] accepts every string and
    nothing else, and returns it as it is: the list of named keys does not
    restrict the keys, and the empty string is a key. *)
Theorem keyboard_key_any_string (v : JsValue) :
  (is_Some (parse KeyboardKeySchema v) <-> exists s, v = JStr s)
  /\ (forall y, parse KeyboardKeySchema v = Some y -> y = v).
Proof.
  split.
  - unfold KeyboardKeySchema. rewrite parse_union_eq.
    destruct v as [| | | |s| |];
      try (split; [intros [? H]; cbn in H; discriminate|intros [? H]; discriminate]).
    split; [eauto|]. intros _. cbn [first_accepting].
    destruct (parse (ZEnum _) (JStr s)); eauto.
  - intros y Hy. unfold KeyboardKeySchema in Hy.
    apply (transparent_union
             [ZEnum ["Enter"; "Tab"; "Escape"; "Backspace"; "Delete";
                     "ArrowUp"; "ArrowDown"; "ArrowLeft"; "ArrowRight"];
              ZString]) in Hy; [exact Hy|].
    apply Forall_cons; split; [apply transparent_enum|].
    apply Forall_cons; split; [apply transparent_string|apply Forall_nil_2].
Qed.
End ValidatorRoundTrips.

(** Witness of X1: the tap with an unknown key, and what validation makes of it. *)
Lemma validation_idempotent_witness :
  parse AIActionSchema
    (JObj [("type", JStr "aiTap"); ("locate", JStr "login button");
           ("deepThink", JBool true)])
  = Some (JObj [("type", JStr "aiTap"); ("locate", JStr "login button");
                ("deepThink", JBool true)]).
Proof.
  apply (validation_idempotent (JObj Samples.tap_with_extra)). vm_compute. reflexivity.
Defined.

(* ====================================================================== *)
(** * Further properties of the dispatcher *)
(* ====================================================================== *)

Section DispatcherCoverage.
Context {W : Type} (host : Host W).

Import AutomationAgent.

Lemma route_action (s s' : TestStep.t) (opts : Obj) :
  TestStep.action s = TestStep.action s' -> route host s opts = route host s' opts.
Proof. intros H. unfold route, extract_options, TestStep.field. rewrite H. reflexivity. Qed.

Lemma buildExecutionOptions_action (s s' : TestStep.t) :
  TestStep.action s = TestStep.action s' ->
  buildExecutionOptions s = buildExecutionOptions s'.
Proof.
  intros H. unfold buildExecutionOptions, option_keys. cbn [fold_left].
  unfold copy_option, present, TestStep.has_field, TestStep.field. rewrite H.
  reflexivity.
Qed.

Lemma stamp_start_action (s : TestStep.t) (w : W) :
  TestStep.action (fst (stamp_start host s w)) = TestStep.action s.
Proof.
  unfold stamp_start, bind, ret.
  destruct (TestStep.startTime s) as [t0|]; [destruct (t0 =? 0)%Z|];
    try reflexivity; destruct (Date_now host w); reflexivity.
Qed.

(** X5.  The dispatcher has a [case] for twenty-three types: [route] ends
    in the [default] branch exactly when the type of the step is not one of
    them, and for an action that the validator accepted this happens exactly
    for [freezePageContext], [unfreezePageContext] and [verifyLocator]. *)
Theorem route_unsupported (step : TestStep.t) (opts : Obj) :
  (route host step opts = Unsupported
   <-> ~ exists t, TestStep.field "type" step = JStr t /\ In t Coverage.handled_types)
  /\ (forall raw, parse AIActionSchema raw = Some (JObj (TestStep.action step)) ->
        (route host step opts = Unsupported
         <-> exists t, TestStep.field "type" step = JStr t
                       /\ In t Coverage.unhandled_types)).
Proof.
  assert (Hmain : route host step opts = Unsupported
                  <-> ~ exists t, TestStep.field "type" step = JStr t
                                  /\ In t Coverage.handled_types).
  { unfold route.
    destruct (TestStep.field "type" step) as [| | | |ty| |];
      try (split; [intros _ (t & Ht & _); discriminate|reflexivity]).
    repeat match goal with
           | |- context [String.eqb ty ?s] =>
               destruct (String.eqb_spec ty s) as [->|];
               [cbv beta iota;
                split;
                [unfold guarded;
                 repeat match goal with
                        | |- context [if ?b then _ else _] => destruct b
                        end; discriminate
                |intros H; exfalso; apply H; eexists; split;
                 [reflexivity|apply mem_In; reflexivity]]
               |cbv beta iota]
           end.
    split; [|reflexivity]. intros _ (t & Ht & Hin). inversion Ht; subst t.
    unfold Coverage.handled_types in Hin. cbn [In] in Hin.
    repeat (destruct Hin as [Hin|Hin]; [congruence|]). destruct Hin. }
  split; [exact Hmain|].
  intros raw Hraw. rewrite Hmain.
  destruct (accepted_is_object raw _ Hraw)
    as (fs & ofs & t & o & sh & _ & Hofs & Hin & _ & Hd & _ & Ht & _).
  inversion Hofs; subst ofs. clear Hofs.
  destruct (option_type o Hin) as (t' & Hd' & Ht').
  assert (t' = t) by congruence. subst t'.
  unfold TestStep.field. rewrite Ht.
  assert (Hsplit : In t Coverage.handled_types \/ In t Coverage.unhandled_types).
  { unfold action_types in Ht'. cbn [In] in Ht'.
    repeat (destruct Ht' as [<-|Ht'];
            [first [left; apply mem_In; reflexivity | right; apply mem_In; reflexivity]|]).
    destruct Ht'. }
  assert (Hdisj : In t Coverage.handled_types -> In t Coverage.unhandled_types -> False).
  { unfold Coverage.unhandled_types. cbn [In].
    intros Hh [<-|[<-|[<-|[]]]]; apply mem_In in Hh; discriminate Hh. }
  split.
  - intros Hno. exists t. split; [reflexivity|].
    destruct Hsplit as [Hh|Hu]; [|exact Hu]. exfalso. apply Hno. eauto.
  - intros (t0 & Ht0 & Hu) (t1 & Ht1 & Hh). inversion Ht0; inversion Ht1; subst.
    eauto.
Qed.

(** X6.  A step whose type has no [case] comes back [failed] with the
    message "Unsupported step type: <type>"; a driver is created and torn
    down for it, and no method of the driver is invoked: the world after the
    call is the one that the two clock readings and [page.destroy()]
    leave. *)
Theorem executeStep_unsupported (a : AutomationAgent.t) (step : TestStep.t) (w : W) :
  route host step (buildExecutionOptions step) = Unsupported ->
  let w1 := snd (destroy host a w) in
  let d := fst (construct host w1) in
  let w2 := snd (construct host w1) in
  let step1 := fst (stamp_start host step w2) in
  let w3 := snd (stamp_start host step w2) in
  executeStep host a step w
  = ((AutomationAgent.mk None None false,
      inr (TestStep.with_error
             (Some ("Unsupported step type: "
                    ++ template host (TestStep.field "type" step))%string)
             (TestStep.with_endTime (Some (fst (Date_now host w3)))
                (TestStep.with_status StepFailed step1)))),
     snd (page_destroy host d (snd (Date_now host w3)))).
Proof.
  intros Hroute. cbv zeta. unfold executeStep, bind, ret.
  destruct (destroy host a w) as [a1 w1]. cbn [snd].
  unfold createAgent, bind, ret.
  destruct (construct host w1) as [d w2]. cbn [fst snd AutomationAgent.agent].
  pose proof (stamp_start_action step w2) as Hact.
  destruct (stamp_start host step w2) as [step1 w3]. cbn [fst snd] in *.
  unfold dispatch.
  rewrite (route_action step1 step _ Hact),
    (buildExecutionOptions_action step1 step Hact), Hroute.
  unfold ret. destruct (Date_now host w3) as [now w4]. cbn [fst snd].
  unfold destroy. cbn [AutomationAgent.agent]. unfold bind, ret.
  destruct (page_destroy host d w4) as [u w5]. cbn [snd message_or].
  unfold TestStep.field. rewrite Hact. reflexivity.
Qed.

(** X7.  A step whose [case] finds its guard false (an empty [locate], an
    empty [key], an empty [prompt], ...) comes back [success] with an
    undefined result although no method of the driver was invoked. *)
Theorem executeStep_guard_false (a : AutomationAgent.t) (step : TestStep.t) (w : W) :
  route host step (buildExecutionOptions step) = Nothing ->
  let w1 := snd (destroy host a w) in
  let d := fst (construct host w1) in
  let w2 := snd (construct host w1) in
  let step1 := fst (stamp_start host step w2) in
  let w3 := snd (stamp_start host step w2) in
  executeStep host a step w
  = ((AutomationAgent.mk None None false,
      inr (TestStep.with_result JUndefined
             (TestStep.with_endTime (Some (fst (Date_now host w3)))
                (TestStep.with_status StepSuccess step1)))),
     snd (page_destroy host d (snd (Date_now host w3)))).
Proof.
  intros Hroute. cbv zeta. unfold executeStep, bind, ret.
  destruct (destroy host a w) as [a1 w1]. cbn [snd].
  unfold createAgent, bind, ret.
  destruct (construct host w1) as [d w2]. cbn [fst snd AutomationAgent.agent].
  pose proof (stamp_start_action step w2) as Hact.
  destruct (stamp_start host step w2) as [step1 w3]. cbn [fst snd] in *.
  unfold dispatch.
  rewrite (route_action step1 step _ Hact),
    (buildExecutionOptions_action step1 step Hact), Hroute.
  unfold ret. destruct (Date_now host w3) as [now w4]. cbn [fst snd].
  unfold destroy. cbn [AutomationAgent.agent]. unfold bind, ret.
  destruct (page_destroy host d w4) as [u w5]. reflexivity.
Qed.

(** No shape of the action union has a key [xpath]. *)
Lemma no_shape_has_xpath (o : Schema) :
  In o AIAction_options -> mem "xpath" (keys (shape o)) = false.
Proof.
  intros Ho. rewrite options_shapes in Ho. unfold AIAction_shapes in Ho.
  cbn [In] in Ho.
  repeat (destruct Ho as [<-|Ho]; [vm_compute; reflexivity|]). destruct Ho.
Qed.

(** X3.  An action that the validator returns has the type of the input
    and only keys of the shape of that type, each one a key of the input; no
    shape has [xpath], so for a step made of a validated action neither the
    built options nor any options object forwarded to the driver has an
    [xpath]. *)
Theorem validated_step_has_no_xpath (raw : JsValue) (step : TestStep.t) :
  parse AIActionSchema raw = Some (JObj (TestStep.action step)) ->
  (exists fs t o,
      raw = JObj fs /\ get "type" fs = JStr t
      /\ TestStep.field "type" step = JStr t
      /\ In o AIAction_options /\ discriminator "type" o = Some t
      /\ forall k, TestStep.has_field k step = true ->
                   has k fs = true /\ mem k (keys (shape o)) = true)
  /\ has "xpath" (buildExecutionOptions step) = false
  /\ (forall c opts,
        routed_call (route host step (buildExecutionOptions step)) = Some c ->
        call_options c = Some opts -> has "xpath" opts = false).
Proof.
  intros Hraw.
  destruct (accepted_is_object raw _ Hraw)
    as (fs & ofs & t & o & sh & -> & Hofs & Hin & -> & Hd & Ht & Ht' & Hsh & _).
  inversion Hofs; subst ofs. clear Hofs.
  assert (Hkeys : forall k, TestStep.has_field k step = true ->
                            mem k (keys sh) = true /\ has k fs = true).
  { intros k Hk. apply (parse_shape_has fs sh _ k Hsh Hk). }
  assert (Hx : TestStep.has_field "xpath" step = false).
  { apply not_true_is_false. intros Hk. destruct (Hkeys _ Hk) as [Hm _].
    pose proof (no_shape_has_xpath _ Hin) as Hno. cbn [shape] in Hno. congruence. }
  assert (Hb : has "xpath" (buildExecutionOptions step) = false).
  { unfold buildExecutionOptions. rewrite build_has. unfold present.
    rewrite Hx. reflexivity. }
  split.
  - exists fs, t, (ZObject sh false).
    split; [reflexivity|]. split; [exact Ht|]. split; [exact Ht'|].
    split; [exact Hin|]. split; [exact Hd|].
    intros k Hk. destruct (Hkeys k Hk) as [Hm Hf]. auto.
  - split; [exact Hb|]. intros c opts Hc Ho.
    destruct (route_options host _ _ _ _ Hc Ho) as [->|(base & -> & Hbase)];
      [exact Hb|].
    rewrite has_spread, Hb, orb_false_r. apply not_true_is_false. intros Hk.
    apply Hbase, mem_In in Hk. discriminate Hk.
Qed.
End DispatcherCoverage.

(** Witness of X5: the validated [freezePageContext] action. *)
Lemma route_unsupported_witness :
  AutomationAgent.route (Samples.host Samples.never)
    (Samples.step_of MoreSamples.freeze) [] = AutomationAgent.Unsupported.
Proof.
  destruct (route_unsupported (Samples.host Samples.never)
              (Samples.step_of MoreSamples.freeze) []) as (_ & H).
  apply (H (JObj MoreSamples.freeze)); [vm_compute; reflexivity|].
  exists "freezePageContext". split; [reflexivity|]. left. reflexivity.
Defined.

(** Witness of X6: the step of a validated [freezePageContext] action. *)
Lemma executeStep_unsupported_witness :
  validateAction (JObj MoreSamples.freeze) = true
  /\ (fun r => match r with
               | inr s => Some (TestStep.status s, TestStep.error s)
               | inl _ => None
               end)
       (snd (fst (AutomationAgent.executeStep (Samples.host Samples.never)
                    AutomationAgent.new (Samples.step_of MoreSamples.freeze) 0)))
     = Some (StepFailed, Some "Unsupported step type: freezePageContext").
Proof.
  split; [vm_compute; reflexivity|].
  rewrite (executeStep_unsupported (Samples.host Samples.never) AutomationAgent.new
             (Samples.step_of MoreSamples.freeze) 0 eq_refl).
  reflexivity.
Defined.

(** Witness of X7: a validated tap on the empty string. *)
Lemma executeStep_guard_false_witness :
  validateAction (JObj MoreSamples.tap_on_nothing) = true
  /\ (fun r => match r with
               | inr s => Some (TestStep.status s, TestStep.result s)
               | inl _ => None
               end)
       (snd (fst (AutomationAgent.executeStep (Samples.host Samples.on_assert)
                    AutomationAgent.new (Samples.step_of MoreSamples.tap_on_nothing) 0)))
     = Some (StepSuccess, JUndefined).
Proof.
  split; [vm_compute; reflexivity|].
  rewrite (executeStep_guard_false (Samples.host Samples.on_assert) AutomationAgent.new
             (Samples.step_of MoreSamples.tap_on_nothing) 0 eq_refl).
  reflexivity.
Defined.

(** Witness of X3: the xpath of a tap is lost in validation. *)
Lemma validated_step_has_no_xpath_witness :
  has "xpath" MoreSamples.tap_with_xpath = true
  /\ has "xpath" (AutomationAgent.buildExecutionOptions (Samples.step_of Samples.tap_login))
     = false.
Proof.
  split; [reflexivity|].
  apply (validated_step_has_no_xpath (Samples.host Samples.never)
           (JObj MoreSamples.tap_with_xpath) (Samples.step_of Samples.tap_login)).
  vm_compute. reflexivity.
Defined.

(* ====================================================================== *)
(** * Further properties of parsing *)
(* ====================================================================== *)

Section ParsingTotality.
Context {W : Type} (host : Host W).

Import AutomationAgent.


(** The data demand of a validated query is a string or an object. *)
Lemma validated_demand (raw : JsValue) (a : Obj) (t : string) :
  parse AIActionSchema raw = Some (JObj a) ->
  get "type" a = JStr t -> t = "aiQuery" \/ t = "aiExtract" ->
  exists ks, demand_keys host (field_or "dataDemand" a "") = inr ks.
Proof.
  intros Hraw Ht Hq.
  destruct (accepted_is_object raw _ Hraw)
    as (fs & ofs & t' & o & sh & _ & Hofs & Hin & Ho & Hd & _ & Ht' & _ & Hstrict & _).
  inversion Hofs; subst ofs. clear Hofs.
  assert (t' = t) by congruence. subst t'.
  assert (Ho' : o = tagged QueryParamsSchema t).
  { apply option_determined; [exact Hin| |].
    - unfold AIAction_options. cbn [In].
      destruct Hq as [->| ->]; [do 10 right; left; reflexivity
                               |do 11 right; left; reflexivity].
    - rewrite Hd. destruct Hq as [->| ->]; vm_compute; reflexivity. }
  assert (Hfield : In ("dataDemand", ZUnion [ZString; ZRecord ZString]) sh).
  { rewrite Ho in Ho'.
    assert (Hs : sh = shape (tagged QueryParamsSchema t)) by (rewrite <- Ho'; reflexivity).
    rewrite Hs. destruct Hq as [->| ->]; vm_compute; tauto. }
  destruct (parse_object_inv _ _ _ _ Hstrict) as (fs' & o' & Hfs' & _ & Hsh & _).
  inversion Hfs'; subst fs'.
  destruct (parse_shape_field _ _ _ _ _ Hsh Hfield) as (y & Hy).
  unfold field_or. destruct (has "dataDemand" a) eqn:Hhas; [|eexists; reflexivity].
  revert Hy. destruct (get "dataDemand" a); cbn; try discriminate; eauto.
Qed.

(** [generateDescription] does not throw on an action that was validated. *)
Lemma generateDescription_validated (raw : JsValue) (a : Obj) :
  parse AIActionSchema raw = Some (JObj a) ->
  exists d, generateDescription host a = inr d.
Proof.
  intros Hraw. pose proof (validated_demand raw a) as Hdemand.
  unfold generateDescription. cbv zeta.
  destruct (get "type" a) as [| | | |ty| |]; try (eexists; reflexivity).
  specialize (Hdemand ty Hraw eq_refl).
  repeat match goal with
         | |- context [String.eqb ty ?s] =>
             destruct (String.eqb_spec ty s) as [->|];
             [cbv beta iota;
              first [ eexists; reflexivity
                    | destruct Hdemand as [ks ->]; [tauto|]; eexists; reflexivity ]
             |cbv beta iota]
         end.
  eexists; reflexivity.
Qed.


Lemma make_steps_rawCode (code : list string) (acts : list Obj) (i : nat) (w w' : W)
    (ss : list TestStep.t) :
  make_steps host code acts i w = (inr ss, w') ->
  TestStep.rawCode <$> ss = (fun j => code !! j) <$> seq i (length acts).
Proof.
  revert i w w' ss. induction acts as [|a acts IH]; intros i w w' ss; cbn.
  - unfold ret. intros H. inversion H; subst. reflexivity.
  - unfold bind, ret, make_step, bind, ret.
    destruct (nanoid host w) as [ident w1].
    destruct (generateDescription host a) as [e|d]; [intros H; inversion H|].
    destruct (make_steps host code acts (S i) w1) as [[e|ss'] w2] eqn:Hrest;
      intros H; inversion H; subst.
    cbn. rewrite (IH _ _ _ _ Hrest). reflexivity.
Qed.



(** X8.  [parseTestCode] returns steps exactly when the code string parses
    as JSON5 and the parsed value passes the action-sequence schema; the
    steps are then the validated actions in order, all [pending], step [j]
    carrying the [j]-th display-code string when there is one; and every
    failure is an [Error] whose message begins "Failed to parse test code: ". *)
Theorem parseTestCode_succeeds_iff (code : string) (w : W) :
  let r := fst (parseTestCode host code w) in
  ((exists ss, r = inr ss)
   <-> exists raw, JSON5_parse host code = inr raw /\ validateActionSequence raw = true)
  /\ (forall ss, r = inr ss ->
        exists raw parsed sq,
          JSON5_parse host code = inr raw
          /\ parse ActionSequenceSchema raw = Some parsed
          /\ as_sequence parsed = Some sq
          /\ TestStep.action <$> ss = ActionSequence.actions sq
          /\ TestStep.rawCode <$> ss
             = (fun j => ActionSequence.code sq !! j) <$> seq 0 (length ss)
          /\ Forall (fun s => TestStep.status s = StepPending) ss)
  /\ (forall e, r = inl e ->
        exists m, e = ErrorObj ("Failed to parse test code: " ++ m)%string).
Proof.
  cbv zeta. unfold parseTestCode, validateActionSequence.
  destruct (JSON5_parse host code) as [e0|raw] eqn:Hjson.
  { unfold ret. cbn [fst]. split; [|split].
    - split; [intros [ss H]; discriminate|intros (raw & H & _); discriminate].
    - discriminate.
    - intros e H. inversion H. unfold parse_failure. eauto. }
  destruct (parse ActionSequenceSchema raw) as [parsed|] eqn:Hzod.
  2:{ unfold ret. cbn [fst]. split; [|split].
      - split; [intros [ss H]; discriminate|].
        intros (raw' & H & Hv). inversion H; subst raw'. rewrite Hzod in Hv.
        discriminate.
      - discriminate.
      - intros e H. inversion H. unfold parse_failure. eauto. }
  destruct (as_sequence_validated raw parsed Hzod) as (sq & Hseq & Hall).
  rewrite Hseq. unfold bind, ret.
  assert (Hdesc : Forall (fun a => exists d, generateDescription host a = inr d)
                         (ActionSequence.actions sq)).
  { eapply Forall_impl; [exact Hall|]. intros a [r Hr].
    apply (generateDescription_validated r a Hr). }
  destruct (make_steps_total host (ActionSequence.code sq) _ 0 w Hdesc)
    as (ss & w' & Hmk).
  rewrite Hmk. cbn [fst]. split; [|split].
  - split; [intros _; exists raw; rewrite Hzod; auto|eauto].
  - intros ss' H. inversion H; subst ss'.
    destruct (make_steps_ok host _ _ _ _ _ _ Hmk) as (_ & Hpend & _).
    pose proof (make_steps_validated host _ _ _ _ _ _ Hall Hmk) as Hacts.
    exists raw, parsed, sq. repeat (split; [first [reflexivity|assumption]|]).
    split; [|exact Hpend].
    rewrite (make_steps_rawCode _ _ _ _ _ _ Hmk).
    replace (length ss) with (length (ActionSequence.actions sq)); [reflexivity|].
    rewrite <- Hacts, length_fmap. reflexivity.
  - discriminate.
Qed.
End ParsingTotality.

(** Witness of X8: the login sequence as code. *)
Lemma parseTestCode_succeeds_iff_witness :
  exists ss,
    fst (AutomationAgent.parseTestCode
           (Samples.host_reading (ActionSequence.to_js Samples.login_sequence)
              Samples.never) "{ actions: [ ... ] }" 0) = inr ss.
Proof.
  apply (parseTestCode_succeeds_iff
           (Samples.host_reading (ActionSequence.to_js Samples.login_sequence)
              Samples.never) "{ actions: [ ... ] }" 0).
  exists (ActionSequence.to_js Samples.login_sequence).
  split; vm_compute; reflexivity.
Defined.

(* ====================================================================== *)
(** * Further properties of the orchestrator *)
(* ====================================================================== *)

Section RunFacts.
Context {W : Type} (host : Host W).

Import TestCaseExecutor.

Lemma stamp_start_identity (s : TestStep.t) (w : W) :
  Protocol.same_identity s (fst (AutomationAgent.stamp_start host s w))
  /\ (is_Some (TestStep.startTime (fst (AutomationAgent.stamp_start host s w)))).
Proof.
  unfold AutomationAgent.stamp_start, bind, ret, Protocol.same_identity.
  destruct (TestStep.startTime s) as [t0|] eqn:Ht; [destruct (t0 =? 0)%Z|];
    try destruct (Date_now host w); cbn; rewrite ?Ht; eauto 10.
Qed.

(** [executeStep] changes the status fields of a step and nothing else. *)
Lemma executeStep_result (a : AutomationAgent.t) (s : TestStep.t) (w : W) :
  exists s' w',
    AutomationAgent.executeStep host a s w
    = ((AutomationAgent.mk None None false, inr s'), w')
    /\ Protocol.same_identity s s' /\ Protocol.stamped s'.
Proof.
  unfold AutomationAgent.executeStep, bind, ret.
  destruct (AutomationAgent.destroy host a w) as [a1 w1].
  unfold AutomationAgent.createAgent, bind, ret.
  destruct (construct host w1) as [d w2]. cbn [AutomationAgent.agent].
  destruct (stamp_start_identity s w2) as ((I1 & I2 & I3 & I4) & Hstart).
  destruct (AutomationAgent.stamp_start host s w2) as [s1 w3]. cbn [fst] in *.
  destruct (AutomationAgent.dispatch host d s1 w3) as [o w4].
  destruct (Date_now host w4) as [now w5].
  pose proof (destroy_resets host (AutomationAgent.mk (Some d) (Some d) true) w5) as Hd.
  destruct (AutomationAgent.destroy host _ w5) as [a3 w6]. cbn in Hd. subst a3.
  eexists _, _. split; [reflexivity|].
  unfold Protocol.same_identity, Protocol.stamped.
  destruct o; cbn; repeat split; eauto; try discriminate.
Qed.

Lemma Forall2_same_identity_refl (l : list TestStep.t) :
  Forall2 Protocol.same_identity l l.
Proof. induction l; constructor; [repeat split|assumption]. Qed.

Lemma Forall2_same_identity_insert (l l' : list TestStep.t) (i : nat)
    (s s' : TestStep.t) :
  Forall2 Protocol.same_identity l l' -> l !! i = Some s ->
  Protocol.same_identity s s' ->
  Forall2 Protocol.same_identity l (<[i := s']> l').
Proof.
  intros Hall. revert i. induction Hall as [|x y l l' Hxy Hall IH]; intros i Hi Hs.
  - rewrite lookup_nil in Hi. discriminate.
  - destruct i as [|i]; cbn in *.
    + inversion Hi; subst. constructor; assumption.
    + constructor; [assumption|]. apply IH; assumption.
Qed.

Lemma same_identity_trans (a b c : TestStep.t) :
  Protocol.same_identity a b -> Protocol.same_identity b c -> Protocol.same_identity a c.
Proof.
  unfold Protocol.same_identity. intros (A1 & A2 & A3 & A4) (B1 & B2 & B3 & B4).
  repeat split; congruence.
Qed.

Lemma Forall2_same_identity_trans (l1 l2 l3 : list TestStep.t) :
  Forall2 Protocol.same_identity l1 l2 -> Forall2 Protocol.same_identity l2 l3 ->
  Forall2 Protocol.same_identity l1 l3.
Proof.
  intros H12. revert l3. induction H12; intros l3 H23; inversion H23; subst;
    constructor; eauto using same_identity_trans.
Qed.

Lemma paired_app (es es' : list Event) :
  Protocol.paired es = true -> Protocol.paired es' = true ->
  Protocol.paired (es ++ es') = true.
Proof.
  revert es'. induction es as [es IH] using (induction_ltof1 _ (@length Event)).
  unfold ltof in IH. intros es' H1 H2.
  destruct es as [|e1 [|e2 r]]; [exact H2|destruct e1; discriminate|].
  destruct e1; try discriminate. destruct e2; try discriminate.
  cbn in H1 |- *. apply andb_true_iff in H1 as [H1 Hr]. rewrite H1. cbn.
  apply IH; [cbn; lia|exact Hr|exact H2].
Qed.

Lemma loop_keeps_refl (i : nat) (ex : t) : Protocol.loop_keeps i ex ex.
Proof.
  split; [apply Forall2_same_identity_refl|]. split; [reflexivity|].
  exists [], []. rewrite !app_nil_r.
  split; [reflexivity|]. split; [reflexivity|]. split; [reflexivity|].
  split; [reflexivity|]. split; [constructor|].
  split; [intros j s []|left; split; reflexivity].
Qed.

Lemma steps_loop_keeps (n i : nat) (ex : t) (w : W) :
  Protocol.loop_keeps i ex (fst (fst (steps_loop host n i ex w))).
Proof.
  revert i ex w. induction n as [|n IH]; intros i ex w.
  - apply loop_keeps_refl.
  - cbn [steps_loop].
    destruct (TestCase.steps (testCase ex) !! i) as [step|] eqn:Hlook.
    2:{ apply loop_keeps_refl. }
    pose proof (lookup_lt_Some _ _ _ Hlook) as Hlt.
    unfold bind at 1. destruct (Date_now host w) as [now w1].
    set (step1 := TestStep.with_startTime (Some now)
                    (TestStep.with_status StepRunning step)).
    set (ex1 := emit (stepStarted step1) (set_step i step1 ex)).
    unfold bind at 1.
    destruct (executeStep_result (agent ex1) step1 w1)
      as (result & w2 & Hex & Hid & Hst).
    rewrite Hex. cbn iota beta.
    set (ex2 := record_dispatch i (with_agent _ ex1)).
    set (ex3 := emit (stepCompleted result) (set_step i result ex2)).
    assert (Hid0 : Protocol.same_identity step result).
    { apply (same_identity_trans step step1 result); [repeat split|exact Hid]. }
    assert (Hsteps3 : TestCase.steps (testCase ex3)
                      = <[i := result]> (TestCase.steps (testCase ex))).
    { cbn. rewrite list_insert_insert_eq. reflexivity. }
    assert (Hi3 : TestCase.steps (testCase ex3) !! i = Some result).
    { rewrite Hsteps3. apply list_lookup_insert_eq. exact Hlt. }
    assert (Hem3 : emitted ex3 = emitted ex ++ [stepStarted step1; stepCompleted result]).
    { cbn. rewrite <- app_assoc. reflexivity. }
    assert (Hdis3 : dispatched ex3 = dispatched ex ++ [i]) by reflexivity.
    assert (Hag3 : agent ex3 = AutomationAgent.mk None None false) by reflexivity.
    assert (Hpair : Protocol.paired [stepStarted step1; stepCompleted result] = true).
    { cbn. destruct Hid as (_ & Hident & _). rewrite Hident, String.eqb_refl.
      destruct Hst as (_ & _ & [-> | ->] & _); reflexivity. }
    assert (Hkeep3 : Protocol.loop_keeps i ex ex3).
    { split.
      { rewrite Hsteps3.
        apply (Forall2_same_identity_insert _ _ i step result);
          [apply Forall2_same_identity_refl|exact Hlook|exact Hid0]. }
      split.
      { intros j Hj. rewrite Hsteps3. apply list_lookup_insert_ne. lia. }
      exists [stepStarted step1; stepCompleted result], [i].
      split; [exact Hem3|]. split; [exact Hdis3|]. split; [exact Hpair|].
      split; [reflexivity|]. split; [repeat constructor|].
      split; [|right; split; [discriminate|exact Hag3]].
      intros j s [<-|[]] Hs. rewrite Hi3 in Hs. inversion Hs; subst. exact Hst. }
    clearbody ex3. clear ex2 ex1 Hex.
    assert (Hcases : TestStep.status result = StepSuccess
                     \/ TestStep.status result = StepFailed) by apply Hst.
    destruct Hcases as [Hres|Hres]; rewrite Hres; [|exact Hkeep3].
    + (* success: the loop goes on *)
      specialize (IH (S i) ex3 w2).
      destruct (steps_loop host n (S i) ex3 w2) as [[ex' o] w']. cbn [fst] in *.
      destruct Hkeep3 as (K1 & K2 & _).
      destruct IH as (J1 & J2 & es & ds & J3 & J4 & J5 & J6 & J7 & J8 & J9).
      split; [apply (Forall2_same_identity_trans _ _ _ K1 J1)|].
      split; [intros j Hj; rewrite J2 by lia; apply K2, Hj|].
      exists ([stepStarted step1; stepCompleted result] ++ es), (i :: ds).
      split; [rewrite J3, Hem3, <- app_assoc; reflexivity|].
      split; [rewrite J4, Hdis3, <- app_assoc; reflexivity|].
      split; [apply paired_app; assumption|].
      split; [rewrite length_app, J6; cbn; lia|].
      split; [constructor; [lia|]; eapply Forall_impl; [exact J7|]; cbn; intros; lia|].
      split.
      * intros j s [<-|Hin] Hs; [|apply (J8 j s Hin Hs)].
        rewrite J2 in Hs by lia. rewrite Hi3 in Hs. inversion Hs; subst. exact Hst.
      * right. split; [discriminate|].
        destruct J9 as [[_ ->]|[_ ->]]; [exact Hag3|reflexivity].
Qed.
(** The step events of the loop follow the steps it dispatches, one pair for
    each, in the order of the list. *)
Lemma steps_loop_follows (n i : nat) (ex : t) (w : W) (ex' : t)
    (o : Outcome unit) (w' : W) :
  steps_loop host n i ex w = ((ex', o), w') ->
  exists m es,
    dispatched ex' = dispatched ex ++ seq i m
    /\ emitted ex' = emitted ex ++ es
    /\ Protocol.follows es
         (take m (drop i (TestCase.steps (testCase ex))))
         (take m (drop i (TestCase.steps (testCase ex'))))
    /\ (forall j, j < i ->
          TestCase.steps (testCase ex') !! j = TestCase.steps (testCase ex) !! j).
Proof.
  assert (Hnone : forall x : t,
            exists m es,
              dispatched x = dispatched x ++ seq i m
              /\ emitted x = emitted x ++ es
              /\ Protocol.follows es
                   (take m (drop i (TestCase.steps (testCase x))))
                   (take m (drop i (TestCase.steps (testCase x))))
              /\ (forall j, j < i ->
                    TestCase.steps (testCase x) !! j = TestCase.steps (testCase x) !! j)).
  { intros x. exists 0, []. cbn [seq]. rewrite !app_nil_r, !take_0. cbn. auto. }
  revert i ex w ex' o w' Hnone. induction n as [|n IH]; intros i ex w ex' o w' Hnone Hrun.
  - cbn in Hrun. unfold ret in Hrun. inversion Hrun; subst. apply Hnone.
  - cbn [steps_loop] in Hrun.
    destruct (TestCase.steps (testCase ex) !! i) as [step|] eqn:Hlook.
    2:{ unfold ret in Hrun. inversion Hrun; subst. apply Hnone. }
    pose proof (lookup_lt_Some _ _ _ Hlook) as Hlt.
    unfold bind at 1 in Hrun. destruct (Date_now host w) as [now w1].
    set (step1 := TestStep.with_startTime (Some now)
                    (TestStep.with_status StepRunning step)) in Hrun.
    set (ex1 := emit (stepStarted step1) (set_step i step1 ex)) in Hrun.
    unfold bind at 1 in Hrun.
    destruct (executeStep_result (agent ex1) step1 w1)
      as (result & w2 & Hex & Hid & Hst).
    rewrite Hex in Hrun. cbn iota beta in Hrun.
    set (ex2 := record_dispatch i (with_agent _ ex1)) in Hrun.
    set (ex3 := emit (stepCompleted result) (set_step i result ex2)) in Hrun.
    assert (Hsteps3 : TestCase.steps (testCase ex3)
                      = <[i := result]> (TestCase.steps (testCase ex))).
    { cbn. rewrite list_insert_insert_eq. reflexivity. }
    assert (Hi3 : TestCase.steps (testCase ex3) !! i = Some result).
    { rewrite Hsteps3. apply list_lookup_insert_eq. exact Hlt. }
    assert (Hem3 : emitted ex3 = emitted ex ++ [stepStarted step1; stepCompleted result]).
    { cbn. rewrite <- app_assoc. reflexivity. }
    assert (Hdis3 : dispatched ex3 = dispatched ex ++ [i]) by reflexivity.
    clearbody ex3. clear ex2 ex1 Hex.
    assert (Hcases : TestStep.status result = StepSuccess
                     \/ TestStep.status result = StepFailed) by apply Hst.
    destruct Hcases as [Hres|Hres]; rewrite Hres in Hrun.
    + apply IH in Hrun as (m & es & J1 & J2 & J3 & J4).
      2:{ intros x. exists 0, []. cbn [seq]. rewrite !app_nil_r, !take_0. cbn. auto. }
      assert (Hi' : TestCase.steps (testCase ex') !! i = Some result).
      { rewrite J4 by lia. exact Hi3. }
      exists (S m), ([stepStarted step1; stepCompleted result] ++ es).
      split; [rewrite J1, Hdis3, <- app_assoc; reflexivity|].
      split; [rewrite J2, Hem3, <- app_assoc; reflexivity|].
      split.
      * rewrite (drop_S _ _ _ Hlook), (drop_S _ _ _ Hi'). cbn.
        split; [exists now; reflexivity|]. split; [reflexivity|].
        rewrite Hsteps3 in J3. rewrite drop_insert_lt in J3 by lia. exact J3.
      * intros j Hj. rewrite J4 by lia. rewrite Hsteps3.
        apply list_lookup_insert_ne. lia.
    + unfold ret in Hrun. inversion Hrun; subst ex' o w'.
      exists 1, [stepStarted step1; stepCompleted result].
      split; [exact Hdis3|]. split; [exact Hem3|]. split.
      * rewrite (drop_S _ _ _ Hlook), (drop_S _ _ _ Hi3). cbn. rewrite !take_0.
        split; [exists now; reflexivity|]. auto.
      * intros j Hj. rewrite Hsteps3. apply list_lookup_insert_ne. lia.
Qed.
End RunFacts.

Section RunProperties.
Context {W : Type} (host : Host W).

Import TestCaseExecutor.

(** [execute()] in terms of its loop. *)
Lemma execute_keeps (ex : t) (w : W) :
  let ex' := fst (fst (execute host ex w)) in
  exists c1 es ds,
    emitted ex' = emitted ex ++ [caseStatusChanged c1] ++ es
                    ++ [caseStatusChanged (testCase ex')]
    /\ TestCase.status c1 = CaseRunning
    /\ TestCase.steps c1 = TestCase.steps (testCase ex)
    /\ dispatched ex' = dispatched ex ++ ds
    /\ Protocol.paired es = true
    /\ length es = 2 * length ds
    /\ (forall j s, In j ds -> TestCase.steps (testCase ex') !! j = Some s ->
                    Protocol.stamped s)
    /\ ((ds = [] /\ agent ex' = agent ex)
        \/ (ds <> [] /\ agent ex' = AutomationAgent.mk None None false))
    /\ Forall2 Protocol.same_identity (TestCase.steps (testCase ex))
               (TestCase.steps (testCase ex'))
    /\ TestCase.id (testCase ex') = TestCase.id (testCase ex)
    /\ TestCase.name (testCase ex') = TestCase.name (testCase ex)
    /\ TestCase.userInput (testCase ex') = TestCase.userInput (testCase ex)
    /\ TestCase.code (testCase ex') = TestCase.code (testCase ex)
    /\ TestCase.actionSequence (testCase ex') = TestCase.actionSequence (testCase ex)
    /\ TestCase.error (testCase ex') = TestCase.error (testCase ex)
    /\ isDestroyed ex' = isDestroyed ex
    /\ (TestCase.status (testCase ex') = CaseCompleted
        \/ TestCase.status (testCase ex') = CaseFailed).
Proof.
  cbv zeta. unfold execute, bind, ret.
  destruct (Date_now host w) as [t0 w1].
  set (ex1 := updateStatus CaseRunning ex).
  set (ex2 := with_testCase (TestCase.with_startTime (Some t0) (testCase ex1)) ex1).
  unfold executeStepsWithProgress, bind, ret.
  pose proof (steps_loop_keeps host (length (TestCase.steps (testCase ex2))) 0 ex2 w1)
    as Hkeep.
  destruct (steps_loop_ran host (length (TestCase.steps (testCase ex2))) 0 ex2 w1)
    as (ex3 & w3 & m & Hloop & Hran & _); [lia|].
  rewrite Hloop in Hkeep |- *. cbn [fst] in Hkeep. cbn iota beta.
  destruct (Date_now host w3) as [t1 w4].
  destruct Hran as (R1 & R2 & _).
  destruct Hkeep as (K1 & _ & es & ds & K3 & K4 & K5 & K6 & _ & K8 & K9).
  exists (testCase ex1), es, ds.
  cbn [fst updateStatus with_testCase emit testCase TestCase.with_status
       TestCase.with_endTime TestCase.status TestCase.steps TestCase.startTime
       TestCase.endTime emitted dispatched getTestCase agent isDestroyed
       TestCase.id TestCase.name TestCase.userInput TestCase.code
       TestCase.actionSequence TestCase.error].
  split; [rewrite K3; cbn; rewrite <- !app_assoc; reflexivity|].
  split; [reflexivity|]. split; [reflexivity|]. split; [exact K4|].
  split; [exact K5|]. split; [exact K6|]. split; [exact K8|]. split; [exact K9|].
  split; [exact K1|].
  rewrite R1. cbn.
  repeat (split; [reflexivity|]).
  split; [exact R2|].
  destruct (forallb succeeded _); auto.
Qed.

Lemma execute_follows (ex : t) (w : W) :
  let ex' := fst (fst (execute host ex w)) in
  exists c1 es m,
    emitted ex' = emitted ex ++ [caseStatusChanged c1] ++ es
                    ++ [caseStatusChanged (testCase ex')]
    /\ dispatched ex' = dispatched ex ++ seq 0 m
    /\ Protocol.follows es (take m (TestCase.steps (testCase ex)))
         (take m (TestCase.steps (testCase ex'))).
Proof.
  cbv zeta. unfold execute, bind, ret.
  destruct (Date_now host w) as [t0 w1].
  set (ex1 := updateStatus CaseRunning ex).
  set (ex2 := with_testCase (TestCase.with_startTime (Some t0) (testCase ex1)) ex1).
  unfold executeStepsWithProgress, bind, ret.
  destruct (steps_loop_ran host (length (TestCase.steps (testCase ex2))) 0 ex2 w1)
    as (ex3 & w3 & m0 & Hloop & _ & _); [lia|].
  pose proof (steps_loop_follows host _ _ _ _ _ _ _ Hloop) as Hfol.
  rewrite Hloop. cbn iota beta.
  destruct (Date_now host w3) as [t1 w4].
  destruct Hfol as (m & es & F1 & F2 & F3 & _).
  exists (testCase ex1), es, m.
  cbn [fst updateStatus with_testCase emit testCase TestCase.with_status
       TestCase.with_endTime TestCase.status TestCase.steps emitted dispatched
       getTestCase].
  split; [rewrite F2; cbn; rewrite <- !app_assoc; reflexivity|].
  split; [exact F1|]. rewrite !drop_0 in F3. exact F3.
Qed.

(** X9.  What [execute()] emits is a [caseStatusChanged] for [running], then
    two events for every dispatched step, and last a [caseStatusChanged]
    with the final case.  The steps dispatched are the first [m] of the
    list, in order, and the step events follow them one by one: for the
    [j]-th step a [stepStarted] carrying the step as it was before the call,
    put in [running] with a start time, directly followed by the
    [stepCompleted] carrying the [j]-th step of the final case, which has
    the same id and is [success] or [failed]. *)
Theorem execute_event_protocol (ex : t) (w : W) :
  let ex' := fst (fst (execute host ex w)) in
  exists c1 es m,
    events_since ex ex'
    = caseStatusChanged c1 :: es ++ [caseStatusChanged (testCase ex')]
    /\ TestCase.status c1 = CaseRunning
    /\ TestCase.steps c1 = TestCase.steps (testCase ex)
    /\ Protocol.paired es = true
    /\ length es = 2 * length (dispatched_since ex ex')
    /\ dispatched_since ex ex' = seq 0 m
    /\ Protocol.follows es (take m (TestCase.steps (testCase ex)))
         (take m (TestCase.steps (testCase ex'))).
Proof.
  destruct (execute_keeps ex w)
    as (c1 & es & ds & Hem & Hc1 & Hs1 & Hdis & Hp & Hlen & _).
  destruct (execute_follows ex w) as (c1' & es' & m & Fem & Fdis & Ffol).
  cbv zeta in *.
  assert (Hes : es' = es).
  { rewrite Hem in Fem. apply app_inv_head in Fem. cbn [app] in Fem.
    injection Fem as _ Fem. now apply app_inv_tail in Fem. }
  subst es'.
  assert (Hds : ds = seq 0 m).
  { rewrite Hdis in Fdis. now apply app_inv_head in Fdis. }
  exists c1, es, m. unfold events_since, dispatched_since.
  rewrite Hem, Hdis, !drop_app_length. rewrite <- Hds. auto 10.
Qed.

(** X10.  [execute()] changes statuses, times, results and errors only: every
    step keeps its action, id, description and source text, the step list
    keeps its length and order, and the case keeps its id, name, user
    input, code, action sequence and top-level error. *)
Theorem execute_keeps_identity (ex : t) (w : W) :
  let ex' := fst (fst (execute host ex w)) in
  Forall2 Protocol.same_identity (TestCase.steps (testCase ex))
          (TestCase.steps (testCase ex'))
  /\ TestCase.id (testCase ex') = TestCase.id (testCase ex)
  /\ TestCase.name (testCase ex') = TestCase.name (testCase ex)
  /\ TestCase.userInput (testCase ex') = TestCase.userInput (testCase ex)
  /\ TestCase.code (testCase ex') = TestCase.code (testCase ex)
  /\ TestCase.actionSequence (testCase ex') = TestCase.actionSequence (testCase ex)
  /\ TestCase.error (testCase ex') = TestCase.error (testCase ex).
Proof.
  destruct (execute_keeps ex w)
    as (c1 & es & ds & _ & _ & _ & _ & _ & _ & _ & _ & H1 & H2 & H3 & H4 & H5 & H6 & H7 & _).
  cbv zeta. auto 10.
Qed.

(** X11.  After [execute()] every step that was dispatched has a start time
    and an end time and is [success] or [failed], and a failed one has an
    error message. *)
Theorem execute_stamps_dispatched (ex : t) (w : W) :
  let ex' := fst (fst (execute host ex w)) in
  forall j s, In j (dispatched_since ex ex') ->
              TestCase.steps (testCase ex') !! j = Some s ->
              Protocol.stamped s.
Proof.
  destruct (execute_keeps ex w)
    as (c1 & es & ds & _ & _ & _ & Hdis & _ & _ & Hst & _).
  cbv zeta. intros j s Hin. unfold dispatched_since in Hin.
  rewrite Hdis, drop_app_length in Hin. apply Hst, Hin.
Qed.

(** X12.  Outside a step the executor is never ready: once [execute()] has
    dispatched a step [canExecute()] is false, and when it dispatched none
    [canExecute()] is what it was; so it is false after [execute()] on an
    executor for which it was false before. *)
Theorem execute_leaves_no_driver (ex : t) (w : W) :
  let ex' := fst (fst (execute host ex w)) in
  canExecute ex'
  = match dispatched_since ex ex' with
    | [] => canExecute ex
    | _ :: _ => false
    end.
Proof.
  destruct (execute_keeps ex w)
    as (c1 & es & ds & _ & _ & _ & Hdis & _ & _ & _ & Hag & _).
  cbv zeta. unfold dispatched_since, canExecute.
  rewrite Hdis, drop_app_length.
  destruct Hag as [[-> ->]|[Hne ->]]; [reflexivity|].
  destruct ds; [congruence|reflexivity].
Qed.
End RunProperties.

(** Witness of X11: the failed assertion of the three-step run. *)
Lemma execute_stamps_dispatched_witness :
  exists s,
    TestCase.steps
      (TestCaseExecutor.testCase
         (fst (fst (TestCaseExecutor.execute (Samples.host Samples.on_assert)
                      (Samples.executor_of Samples.three_steps) 0)))) !! 1 = Some s
    /\ Protocol.stamped s.
Proof.
  eexists. split; [vm_compute; reflexivity|].
  eapply (execute_stamps_dispatched (Samples.host Samples.on_assert)
            (Samples.executor_of Samples.three_steps) 0 1).
  - vm_compute. right. left. reflexivity.
  - vm_compute. reflexivity.
Defined.

Section LifecycleProperties.
Context {W : Type} (host : Host W).

Import TestCaseExecutor.

(** X13.  [stop()] acts on a running case only: it puts it in [stopped]
    with one notification and leaves the steps alone; on any other status it
    changes nothing.  So a second [stop()] changes nothing, and neither does
    a [stop()] after [execute()] has returned. *)
Theorem stop_only_when_running (ex : t) (w : W) :
  (getStatus ex = CaseRunning ->
   testCase (stop ex) = TestCase.with_status CaseStopped (testCase ex)
   /\ emitted (stop ex) = emitted ex ++ [caseStatusChanged (testCase (stop ex))]
   /\ agent (stop ex) = agent ex /\ dispatched (stop ex) = dispatched ex)
  /\ (getStatus ex <> CaseRunning -> stop ex = ex)
  /\ stop (stop ex) = stop ex
  /\ stop (fst (fst (execute host ex w))) = fst (fst (execute host ex w)).
Proof.
  split; [|split; [|split]].
  - unfold stop. intros ->. repeat split.
  - unfold stop. destruct (getStatus ex); congruence.
  - unfold stop. destruct (getStatus ex) eqn:Hs; rewrite ?Hs; reflexivity.
  - destruct (execute_keeps host ex w) as (c1 & es & ds & H).
    do 16 destruct H as [_ H]. unfold stop, getStatus.
    destruct H as [-> | ->]; reflexivity.
Qed.

(** X14.  After [destroy()] the executor is marked destroyed and holds no
    driver, its case is as it was, [parse()] returns at once without
    touching the executor or the host, and a second [destroy()] makes no
    call to the driver and changes nothing. *)
Theorem destroy_is_final (ex : t) (w : W) :
  let ex1 := fst (destroy host ex w) in
  let w1 := snd (destroy host ex w) in
  isDestroyed ex1 = true
  /\ canExecute ex1 = false
  /\ testCase ex1 = testCase ex
  /\ emitted ex1 = emitted ex
  /\ parse host ex1 w1 = ((ex1, inr tt), w1)
  /\ destroy host ex1 w1 = (ex1, w1).
Proof.
  cbv zeta. unfold destroy, bind, ret.
  pose proof (destroy_resets host (agent ex) w) as Hd.
  destruct (AutomationAgent.destroy host (agent ex) w) as [a w1].
  cbn [fst snd] in *. subst a.
  repeat split.
Qed.
End LifecycleProperties.

(** Witness of X13: stopping a case that was put in [running]. *)
Lemma stop_only_when_running_witness :
  TestCaseExecutor.getStatus
    (TestCaseExecutor.stop
       (TestCaseExecutor.updateStatus CaseRunning
          (Samples.executor_of Samples.three_steps)))
  = CaseStopped.
Proof.
  destruct (stop_only_when_running (Samples.host Samples.never)
              (TestCaseExecutor.updateStatus CaseRunning
                 (Samples.executor_of Samples.three_steps)) 0) as (H & _).
  destruct (H eq_refl) as (Hcase & _).
  unfold TestCaseExecutor.getStatus. rewrite Hcase. reflexivity.
Defined.

(* ====================================================================== *)
(** ** AIConfig.ts: the configuration manager *)
(* ====================================================================== *)

Section MapFacts.
Context {V : Type}.
Implicit Types (m : list (string * V)) (k : string) (v : V).

Lemma jsmap_get_set_eq k v m : JsMap.get k (JsMap.set k v m) = Some v.
Proof.
  induction m as [|[k' v'] r IH]; cbn.
  - now rewrite String.eqb_refl.
  - destruct (String.eqb k k') eqn:E; cbn; rewrite E; [reflexivity | exact IH].
Qed.

Lemma jsmap_get_set_ne k k' v m :
  k' <> k -> JsMap.get k' (JsMap.set k v m) = JsMap.get k' m.
Proof.
  intros Hne. induction m as [|[k0 v0] r IH]; cbn.
  - destruct (String.eqb k' k) eqn:E; [apply String.eqb_eq in E; contradiction | reflexivity].
  - destruct (String.eqb k k0) eqn:E; cbn.
    + apply String.eqb_eq in E. subst k0.
      destruct (String.eqb k' k) eqn:E'; [apply String.eqb_eq in E'; contradiction | reflexivity].
    + now rewrite IH.
Qed.

Lemma jsmap_keys_set k v m :
  JsMap.keys (JsMap.set k v m)
  = if JsMap.has k m then JsMap.keys m else JsMap.keys m ++ [k].
Proof.
  unfold JsMap.has, JsMap.keys. induction m as [|[k0 v0] r IH]; cbn; [reflexivity|].
  destruct (String.eqb k k0) eqn:E; cbn; [reflexivity|].
  rewrite IH. now destruct (JsMap.get k r).
Qed.

Lemma jsmap_length_set k v m :
  length (JsMap.set k v m) = if JsMap.has k m then length m else S (length m).
Proof.
  unfold JsMap.has. induction m as [|[k0 v0] r IH]; cbn; [reflexivity|].
  destruct (String.eqb k k0) eqn:E; cbn; [reflexivity|].
  rewrite IH. now destruct (JsMap.get k r).
Qed.

Lemma jsmap_has_keys k m : JsMap.has k m = true <-> In k (JsMap.keys m).
Proof.
  unfold JsMap.has, JsMap.keys. induction m as [|[k0 v0] r IH]; cbn.
  - split; [discriminate | tauto].
  - destruct (String.eqb k k0) eqn:E.
    + apply String.eqb_eq in E. subst. split; auto.
    + apply String.eqb_neq in E. rewrite IH. split; [auto | intros [?|?]; congruence].
Qed.

Lemma jsmap_get_delete_eq k m : JsMap.get k (JsMap.delete k m) = None.
Proof.
  unfold JsMap.delete. induction m as [|[k0 v0] r IH]; cbn; [reflexivity|].
  destruct (String.eqb k k0) eqn:E; cbn; [exact IH | now rewrite E].
Qed.

Lemma jsmap_get_delete_ne k k' m :
  k' <> k -> JsMap.get k' (JsMap.delete k m) = JsMap.get k' m.
Proof.
  intros Hne. unfold JsMap.delete. induction m as [|[k0 v0] r IH]; cbn; [reflexivity|].
  destruct (String.eqb k k0) eqn:E; cbn.
  - apply String.eqb_eq in E. subst k0.
    destruct (String.eqb k' k) eqn:E'; [apply String.eqb_eq in E'; contradiction | exact IH].
  - now rewrite IH.
Qed.

Lemma jsmap_get_In k v m : JsMap.get k m = Some v -> In (k, v) m.
Proof.
  induction m as [|[k0 v0] r IH]; cbn; [discriminate|].
  destruct (String.eqb k k0) eqn:E.
  - apply String.eqb_eq in E. intros [= ->]. subst. now left.
  - intros H. right. now apply IH.
Qed.

Lemma jsmap_In_get k v m :
  NoDup (JsMap.keys m) -> In (k, v) m -> JsMap.get k m = Some v.
Proof.
  induction m as [|[k0 v0] r IH]; cbn; [tauto|].
  intros Hnd [Hin|Hin].
  - injection Hin as -> ->. now rewrite String.eqb_refl.
  - apply NoDup_cons in Hnd as [Hk Hnd].
    destruct (String.eqb k k0) eqn:E.
    + apply String.eqb_eq in E. subst k0. exfalso. apply Hk.
      apply list_elem_of_In. apply in_map_iff. now exists (k, v).
    + now apply IH.
Qed.

Lemma jsmap_NoDup_set k v m :
  NoDup (JsMap.keys m) -> NoDup (JsMap.keys (JsMap.set k v m)).
Proof.
  intros Hnd. rewrite jsmap_keys_set. destruct (JsMap.has k m) eqn:E; [exact Hnd|].
  apply NoDup_app. split; [exact Hnd|]. split.
  - intros x Hx Hx'. apply list_elem_of_In in Hx, Hx'. destruct Hx' as [<-|[]].
    apply jsmap_has_keys in Hx. congruence.
  - apply NoDup_cons_2; [intros H; apply list_elem_of_In in H; destruct H | apply NoDup_nil_2].
Qed.
End MapFacts.

Section SortFacts.

Lemma insert_enabled_first x (en dis : list AIConfig.t) :
  Forall (fun c => AIConfig.isEnabled c = true) en ->
  Forall (fun c => AIConfig.isEnabled c = false) dis ->
  insert_sorted AIConfigManager.enabled_first x (en ++ dis)
  = if AIConfig.isEnabled x then x :: en ++ dis else en ++ x :: dis.
Proof.
  intros Hen Hdis. induction Hen as [|y en Hy Hen IH].
  - destruct Hdis as [|y dis Hy Hdis]; cbn [app insert_sorted];
      [now destruct (AIConfig.isEnabled x)|].
    unfold AIConfigManager.enabled_first. rewrite Hy.
    now destruct (AIConfig.isEnabled x).
  - cbn [app insert_sorted]. unfold AIConfigManager.enabled_first at 1. rewrite Hy.
    destruct (AIConfig.isEnabled x) eqn:Ex; cbn [Bool.eqb Z.leb Z.compare];
      [reflexivity|].
    rewrite IH. reflexivity.
Qed.

(** Sorting with the comparator of the manager puts the enabled
    configurations first and keeps the order inside each group. *)
Lemma stable_sort_enabled_first (l : list AIConfig.t) :
  stable_sort AIConfigManager.enabled_first l
  = List.filter AIConfig.isEnabled l
    ++ List.filter (fun c => negb (AIConfig.isEnabled c)) l.
Proof.
  induction l as [|x l IH]; cbn; [reflexivity|].
  unfold stable_sort in IH. rewrite IH.
  rewrite insert_enabled_first.
  - now destruct (AIConfig.isEnabled x).
  - apply List.Forall_forall. intros c Hc. now apply List.filter_In in Hc.
  - apply List.Forall_forall. intros c Hc. apply List.filter_In in Hc as [_ Hc].
    now apply negb_true_iff in Hc.
Qed.
End SortFacts.

Section ConfigSchemaFacts.
Variable url : string -> option string.

Lemma parse_config_with_id (c : AIConfig.t) (i : string) :
  AIConfig.AIConfigSchema_parse url
    (JObj (Js.spread (AIConfig.to_js c) [("id", JStr i)]))
  = if negb (String.eqb i "") && negb (String.eqb (AIConfig.name c) "")
       && negb (String.eqb (AIConfig.apiKey c) "")
       && negb (String.eqb (AIConfig.model c) "")
    then match url (AIConfig.baseURL c) with
         | Some u =>
             Some (AIConfig.mk i (AIConfig.name c) (AIConfig.apiKey c) u
                     (AIConfig.model c) (AIConfig.description c)
                     (AIConfig.isEnabled c) (AIConfig.modelType c)
                     (AIConfig.deepThink c))
         | None => None
         end
    else None.
Proof.
  destruct c as [i0 n k u mo d e ty [de dr]]. cbn [AIConfig.name AIConfig.apiKey
    AIConfig.model AIConfig.baseURL AIConfig.description AIConfig.isEnabled
    AIConfig.modelType AIConfig.deepThink].
  destruct d as [d|], ty; cbn;
    destruct (String.eqb i ""), (String.eqb n ""), (String.eqb k ""),
      (String.eqb mo ""), (url u); reflexivity.
Qed.

Lemma spread_own_id (c : AIConfig.t) :
  Js.spread (AIConfig.to_js c) [("id", JStr (AIConfig.id c))] = AIConfig.to_js c.
Proof. destruct c. reflexivity. Qed.
End ConfigSchemaFacts.

Section ConfigCountFacts.
Implicit Types (cs : list (string * AIConfig.t)) (ty : AIConfig.ModelType).

Lemma enabled_as_disabled ty c :
  AIConfigManager.enabled_as ty (AIConfig.with_isEnabled false c) = false.
Proof. reflexivity. Qed.

Lemma enabled_as_other ty ty' c :
  AIConfig.modelType c = ty -> ty' <> ty -> AIConfigManager.enabled_as ty' c = false.
Proof.
  intros <- Hne. unfold AIConfigManager.enabled_as, AIConfigManager.of_type.
  destruct (AIConfig.isEnabled c); [|reflexivity].
  destruct (AIConfig.modelType c), ty'; cbn; congruence.
Qed.

Lemma enabled_as_same ty c :
  AIConfig.isEnabled c = true -> AIConfig.modelType c = ty ->
  AIConfigManager.enabled_as ty c = true.
Proof.
  intros He <-. unfold AIConfigManager.enabled_as, AIConfigManager.of_type.
  rewrite He. now destruct (AIConfig.modelType c).
Qed.

Lemma of_type_eq ty c :
  AIConfigManager.of_type ty c = true <-> AIConfig.modelType c = ty.
Proof.
  unfold AIConfigManager.of_type.
  destruct (AIConfig.modelType c), ty; cbn; split; congruence.
Qed.

Lemma count_set_get ty k v old cs :
  JsMap.get k cs = Some old ->
  length (List.filter (AIConfigManager.enabled_as ty) (JsMap.values (JsMap.set k v cs)))
  + (if AIConfigManager.enabled_as ty old then 1 else 0)
  = length (List.filter (AIConfigManager.enabled_as ty) (JsMap.values cs))
    + (if AIConfigManager.enabled_as ty v then 1 else 0).
Proof.
  unfold JsMap.values. induction cs as [|[k0 v0] r IH]; cbn; [discriminate|].
  destruct (String.eqb k k0) eqn:E; cbn.
  - intros [= ->].
    destruct (AIConfigManager.enabled_as ty v), (AIConfigManager.enabled_as ty old);
      cbn; lia.
  - intros H. specialize (IH H).
    destruct (AIConfigManager.enabled_as ty v0); cbn; lia.
Qed.

Lemma count_set_le ty k v cs :
  length (List.filter (AIConfigManager.enabled_as ty) (JsMap.values (JsMap.set k v cs)))
  <= length (List.filter (AIConfigManager.enabled_as ty) (JsMap.values cs))
     + (if AIConfigManager.enabled_as ty v then 1 else 0).
Proof.
  unfold JsMap.values. induction cs as [|[k0 v0] r IH]; cbn.
  - destruct (AIConfigManager.enabled_as ty v); cbn; lia.
  - destruct (String.eqb k k0) eqn:E; cbn.
    + destruct (AIConfigManager.enabled_as ty v), (AIConfigManager.enabled_as ty v0);
        cbn; lia.
    + destruct (AIConfigManager.enabled_as ty v0); cbn; lia.
Qed.

Lemma count_none ty cs :
  (forall k v, In (k, v) cs -> AIConfigManager.enabled_as ty v = false) ->
  length (List.filter (AIConfigManager.enabled_as ty) (JsMap.values cs)) = 0.
Proof.
  unfold JsMap.values. induction cs as [|[k0 v0] r IH]; cbn; intros H; [reflexivity|].
  rewrite (H k0 v0) by now left. apply IH. intros k v Hin. apply (H k v). now right.
Qed.

Lemma count_set_only ty k v cs :
  NoDup (JsMap.keys cs) ->
  (forall k' v', In (k', v') cs -> k' <> k -> AIConfigManager.enabled_as ty v' = false) ->
  length (List.filter (AIConfigManager.enabled_as ty) (JsMap.values (JsMap.set k v cs)))
  <= 1.
Proof.
  unfold JsMap.keys. induction cs as [|[k0 v0] r IH]; intros Hnd Hothers.
  - unfold JsMap.values. cbn. destruct (AIConfigManager.enabled_as ty v); cbn; lia.
  - cbn in Hnd. apply NoDup_cons in Hnd as [Hk Hnd].
    cbn [JsMap.set]. destruct (String.eqb k k0) eqn:E.
    + apply String.eqb_eq in E. subst k0.
      assert (Hr : length (List.filter (AIConfigManager.enabled_as ty) (JsMap.values r)) = 0).
      { apply count_none. intros k' v' Hin. apply (Hothers k' v'); [now right|].
        intros ->. apply Hk. apply list_elem_of_In. apply in_map_iff.
        now exists (k, v'). }
      unfold JsMap.values in *. cbn.
      destruct (AIConfigManager.enabled_as ty v); cbn; lia.
    + apply String.eqb_neq in E.
      assert (H0 : AIConfigManager.enabled_as ty v0 = false).
      { apply (Hothers k0 v0); [now left | congruence]. }
      unfold JsMap.values in *. cbn. rewrite H0. apply IH; [exact Hnd|].
      intros k' v' Hin. apply Hothers. now right.
Qed.

Lemma keys_ensure ty i cs :
  JsMap.keys (map (AIConfigManager.disable_other ty i) cs) = JsMap.keys cs.
Proof.
  unfold JsMap.keys. rewrite map_map. apply map_ext. intros [k v].
  unfold AIConfigManager.disable_other. cbn.
  now destruct (AIConfigManager.of_type ty v && negb (String.eqb k i)).
Qed.

Lemma get_ensure ty i k cs :
  JsMap.get k (map (AIConfigManager.disable_other ty i) cs)
  = option_map (fun d => if AIConfigManager.of_type ty d && negb (String.eqb k i)
                         then AIConfig.with_isEnabled false d else d)
               (JsMap.get k cs).
Proof.
  induction cs as [|[k0 v0] r IH]; [reflexivity|].
  cbn [map JsMap.get]. unfold AIConfigManager.disable_other at 1. cbn [fst snd].
  destruct (String.eqb k k0) eqn:E.
  - apply String.eqb_eq in E. subst k0. cbn [option_map].
    destruct (AIConfigManager.of_type ty v0 && negb (String.eqb k i));
      now rewrite String.eqb_refl.
  - destruct (AIConfigManager.of_type ty v0 && negb (String.eqb k0 i));
      rewrite E; exact IH.
Qed.

Lemma ensure_disables ty i k v cs :
  In (k, v) (map (AIConfigManager.disable_other ty i) cs) -> k <> i ->
  AIConfigManager.enabled_as ty v = false.
Proof.
  intros Hin Hne. apply in_map_iff in Hin as [[k0 v0] [Heq _]].
  unfold AIConfigManager.disable_other in Heq. cbn [fst snd] in Heq.
  destruct (AIConfigManager.of_type ty v0) eqn:Et; cbn in Heq.
  - destruct (String.eqb k0 i) eqn:E; cbn in Heq; injection Heq as <- <-.
    + apply String.eqb_eq in E. contradiction.
    + reflexivity.
  - injection Heq as <- <-. unfold AIConfigManager.enabled_as. rewrite Et.
    apply andb_false_r.
Qed.

Lemma count_ensure_le ty ty' i cs :
  length (List.filter (AIConfigManager.enabled_as ty')
            (JsMap.values (map (AIConfigManager.disable_other ty i) cs)))
  <= length (List.filter (AIConfigManager.enabled_as ty') (JsMap.values cs)).
Proof.
  unfold JsMap.values. induction cs as [|[k0 v0] r IH]; cbn; [lia|].
  unfold AIConfigManager.disable_other at 1. cbn [fst snd].
  destruct (AIConfigManager.of_type ty v0 && negb (String.eqb k0 i)); cbn [snd].
  - rewrite enabled_as_disabled.
    destruct (AIConfigManager.enabled_as ty' v0); cbn; lia.
  - destruct (AIConfigManager.enabled_as ty' v0); cbn; lia.
Qed.

Lemma count_delete_le ty k cs :
  length (List.filter (AIConfigManager.enabled_as ty) (JsMap.values (JsMap.delete k cs)))
  <= length (List.filter (AIConfigManager.enabled_as ty) (JsMap.values cs)).
Proof.
  unfold JsMap.values, JsMap.delete. induction cs as [|[k0 v0] r IH]; cbn; [lia|].
  destruct (String.eqb k k0); cbn;
    destruct (AIConfigManager.enabled_as ty v0); cbn; lia.
Qed.

Lemma count_two ty k1 k2 a b cs :
  k1 <> k2 -> JsMap.get k1 cs = Some a -> JsMap.get k2 cs = Some b ->
  AIConfigManager.enabled_as ty a = true -> AIConfigManager.enabled_as ty b = true ->
  2 <= length (List.filter (AIConfigManager.enabled_as ty) (JsMap.values cs)).
Proof.
  intros Hne H1 H2 Ha Hb.
  assert (Hone : forall k c l, JsMap.get k l = Some c ->
            AIConfigManager.enabled_as ty c = true ->
            1 <= length (List.filter (AIConfigManager.enabled_as ty) (JsMap.values l))).
  { intros k c l. unfold JsMap.values. induction l as [|[k0 v0] r IH]; cbn; [discriminate|].
    destruct (String.eqb k k0).
    - intros [= ->] ->. cbn. lia.
    - intros H Hc. specialize (IH H Hc).
      destruct (AIConfigManager.enabled_as ty v0); cbn; lia. }
  revert H1 H2. unfold JsMap.values.
  induction cs as [|[k0 v0] r IH]; cbn; [discriminate|].
  destruct (String.eqb k1 k0) eqn:E1, (String.eqb k2 k0) eqn:E2.
  - apply String.eqb_eq in E1, E2. congruence.
  - intros [= ->] H2. rewrite Ha. cbn.
    pose proof (Hone _ _ _ H2 Hb) as H. unfold JsMap.values in H. lia.
  - intros H1 [= ->]. rewrite Hb. cbn.
    pose proof (Hone _ _ _ H1 Ha) as H. unfold JsMap.values in H. lia.
  - intros H1 H2. specialize (IH H1 H2).
    destruct (AIConfigManager.enabled_as ty v0); cbn; lia.
Qed.

Lemma find_sorted (l : list AIConfig.t) :
  List.find AIConfig.isEnabled (stable_sort AIConfigManager.enabled_first l)
  = List.find AIConfig.isEnabled l.
Proof.
  rewrite stable_sort_enabled_first.
  induction l as [|x l IH]; cbn; [reflexivity|].
  destruct (AIConfig.isEnabled x) eqn:E; cbn; [now rewrite E|].
  rewrite <- IH. clear IH.
  induction (List.filter AIConfig.isEnabled l) as [|y en IH]; cbn.
  - now rewrite E.
  - destruct (AIConfig.isEnabled y); [reflexivity | exact IH].
Qed.

Lemma find_filter_type ty (l : list AIConfig.t) :
  List.find AIConfig.isEnabled (List.filter (AIConfigManager.of_type ty) l)
  = List.find (AIConfigManager.enabled_as ty) l.
Proof.
  unfold AIConfigManager.enabled_as.
  induction l as [|x l IH]; cbn; [reflexivity|].
  destruct (AIConfigManager.of_type ty x); cbn.
  - destruct (AIConfig.isEnabled x); cbn; [reflexivity | exact IH].
  - rewrite andb_false_r. exact IH.
Qed.

Lemma getEnabledConfigByType_find ty m :
  AIConfigManager.getEnabledConfigByType ty m
  = List.find (AIConfigManager.enabled_as ty) (JsMap.values (AIConfigManager.configs m)).
Proof.
  unfold AIConfigManager.getEnabledConfigByType, AIConfigManager.getConfigsByType.
  now rewrite find_sorted, find_filter_type.
Qed.

Lemma find_unique {A : Type} (p : A -> bool) (a : A) (l : list A) :
  length (List.filter p l) <= 1 -> In a l -> p a = true -> List.find p l = Some a.
Proof.
  induction l as [|x l IH]; cbn; [tauto|].
  destruct (p x) eqn:E; cbn; intros Hlen [->|Hin] Ha.
  - reflexivity.
  - assert (Hin' : In a (List.filter p l)) by (apply List.filter_In; auto).
    destruct (List.filter p l); [destruct Hin' | cbn in Hlen; lia].
  - congruence.
  - now apply IH.
Qed.
End ConfigCountFacts.

Section ConfigManagerFacts.
Context {W : Type} (host : AIConfigManager.Host W).
Implicit Types (m : AIConfigManager.t) (c : AIConfig.t) (w : W).

Lemma addConfig_eq c m w :
  AIConfigManager.addConfig host c m w
  = let i := fst (AIConfigManager.nanoid host w) in
    let w1 := snd (AIConfigManager.nanoid host w) in
    match AIConfig.AIConfigSchema_parse (AIConfigManager.url host)
            (JObj (Js.spread (AIConfig.to_js c) [("id", JStr i)])) with
    | None => ((m, inl AIConfigManager.ZodError), w1)
    | Some n =>
        let m1 := if AIConfig.isEnabled n
                  then AIConfigManager.ensureSingleEnabledPerType
                         (AIConfig.modelType n) (AIConfig.id n) m
                  else m in
        let m2 := AIConfigManager.mk
                    (JsMap.set (AIConfig.id n) n (AIConfigManager.configs m1))
                    (AIConfigManager.initialized m1) in
        ((m2, inr n),
         snd (AIConfigManager.setStorage host (AIConfigManager.entries m2) w1))
    end.
Proof.
  unfold AIConfigManager.addConfig, AIConfigManager.saveToStorage, bind, ret.
  destruct (AIConfigManager.nanoid host w) as [i w1]. cbn [fst snd].
  destruct (AIConfig.AIConfigSchema_parse _ _) as [n|]; [|reflexivity].
  cbv zeta. now destruct (AIConfigManager.setStorage host _ w1).
Qed.

Lemma updateConfig_eq id updates m w :
  AIConfigManager.updateConfig host id updates m w
  = match JsMap.get id (AIConfigManager.configs m) with
    | None =>
        ((m, inl (AIConfigManager.Raised
                    (ErrorObj ("Configuration with id '" ++ id ++ "' not found")%string))),
         w)
    | Some e =>
        match AIConfig.AIConfigSchema_parse (AIConfigManager.url host)
                (JObj (Js.spread (Js.spread (AIConfig.to_js e) updates)
                         [("id", JStr id)])) with
        | None => ((m, inl AIConfigManager.ZodError), w)
        | Some u =>
            let m1 := if AIConfig.isEnabled u && negb (AIConfig.isEnabled e)
                      then AIConfigManager.ensureSingleEnabledPerType
                             (AIConfig.modelType u) id m
                      else m in
            let m2 := AIConfigManager.mk
                        (JsMap.set id u (AIConfigManager.configs m1))
                        (AIConfigManager.initialized m1) in
            ((m2, inr u),
             snd (AIConfigManager.setStorage host (AIConfigManager.entries m2) w))
        end
    end.
Proof.
  unfold AIConfigManager.updateConfig, AIConfigManager.saveToStorage, bind, ret.
  destruct (JsMap.get id _) as [e|]; [|reflexivity].
  destruct (AIConfig.AIConfigSchema_parse _ _) as [u|]; [|reflexivity].
  cbv zeta. now destruct (AIConfigManager.setStorage host _ w).
Qed.

Lemma deleteConfig_eq id m w :
  AIConfigManager.deleteConfig host id m w
  = if JsMap.has id (AIConfigManager.configs m)
    then
      let m1 := AIConfigManager.mk (JsMap.delete id (AIConfigManager.configs m))
                  (AIConfigManager.initialized m) in
      ((m1, true),
       snd (AIConfigManager.setStorage host (AIConfigManager.entries m1) w))
    else ((m, false), w).
Proof.
  unfold AIConfigManager.deleteConfig, AIConfigManager.saveToStorage, bind, ret.
  destruct (JsMap.has id _); [|reflexivity].
  cbv zeta. now destruct (AIConfigManager.setStorage host _ w).
Qed.

Lemma parse_id_forced (o : Obj) (i : string) (c : AIConfig.t) :
  AIConfig.AIConfigSchema_parse (AIConfigManager.url host)
    (JObj (Js.spread o [("id", JStr i)])) = Some c ->
  AIConfig.id c = i.
Proof.
  unfold Js.spread. cbn [fold_left fst snd]. unfold AIConfig.AIConfigSchema_parse.
  rewrite get_set, String.eqb_refl. cbn [AIConfig.non_empty].
  destruct (String.eqb i ""); [discriminate|].
  repeat match goal with
         | |- context [match ?x with _ => _ end] => destruct x; try discriminate
         end.
  now intros [= <-].
Qed.

Lemma ensure_keys ty i m :
  JsMap.keys (AIConfigManager.configs (AIConfigManager.ensureSingleEnabledPerType ty i m))
  = JsMap.keys (AIConfigManager.configs m).
Proof. apply keys_ensure. Qed.

Lemma ensure_count_le ty ty' i m :
  AIConfigManager.enabled_of_type ty'
    (AIConfigManager.ensureSingleEnabledPerType ty i m)
  <= AIConfigManager.enabled_of_type ty' m.
Proof. apply count_ensure_le. Qed.

(** Storing an enabled configuration after the others of its type were
    disabled leaves at most one enabled configuration of each type. *)
Lemma set_after_ensure i n m :
  NoDup (JsMap.keys (AIConfigManager.configs m)) ->
  AIConfigManager.single_enabled m ->
  forall b,
    AIConfigManager.single_enabled
      (AIConfigManager.mk
         (JsMap.set i n
            (AIConfigManager.configs
               (AIConfigManager.ensureSingleEnabledPerType (AIConfig.modelType n) i m)))
         b).
Proof.
  intros Hnd Hone b ty. unfold AIConfigManager.enabled_of_type. cbn.
  destruct (AIConfigManager.enabled_as ty n) eqn:En.
  - assert (Hty : AIConfig.modelType n = ty).
    { unfold AIConfigManager.enabled_as in En. apply andb_true_iff in En as [_ En].
      now apply of_type_eq in En. }
    rewrite Hty. apply count_set_only.
    + now rewrite keys_ensure.
    + intros k' v'. apply ensure_disables.
  - etransitivity; [apply count_set_le|]. rewrite En, Nat.add_0_r.
    etransitivity; [apply count_ensure_le|]. apply Hone.
Qed.

(** Storing a configuration that is not enabled never adds an enabled one. *)
Lemma set_disabled i n m :
  AIConfig.isEnabled n = false ->
  AIConfigManager.single_enabled m ->
  forall b,
    AIConfigManager.single_enabled
      (AIConfigManager.mk (JsMap.set i n (AIConfigManager.configs m)) b).
Proof.
  intros Hn Hone b ty. unfold AIConfigManager.enabled_of_type. cbn.
  etransitivity; [apply count_set_le|].
  unfold AIConfigManager.enabled_as at 2. rewrite Hn. cbn. rewrite Nat.add_0_r.
  apply Hone.
Qed.

Lemma import_fold data :
  forall cs n cs' n',
    fold_left (AIConfigManager.import_entry host) data (cs, n) = (cs', n') ->
    (forall k c, JsMap.get k cs = Some c -> JsMap.get k cs' = Some c)
    /\ length cs' + n = length cs + n'
    /\ n' <= n + length data
    /\ (forall k, JsMap.has k cs' = true ->
          JsMap.has k cs = true \/ In k (map fst data)).
Proof.
  induction data as [|[k0 v0] data IH]; intros cs n cs' n'; cbn [fold_left].
  - intros [= <- <-]. cbn. repeat split; auto with lia.
  - unfold AIConfigManager.import_entry at 2. cbn [fst snd].
    destruct (JsMap.has k0 cs) eqn:Eh.
    + intros H. apply IH in H as (H1 & H2 & H3 & H4). cbn [length map].
      repeat split; auto with lia. intros k Hk. destruct (H4 k Hk); auto.
      right. now right.
    + destruct (AIConfig.AIConfigSchema_parse _ v0) as [c0|].
      * intros H. apply IH in H as (H1 & H2 & H3 & H4). cbn [length map].
        rewrite jsmap_length_set, Eh in H2. repeat split; try lia.
        -- intros k c Hk. apply H1. rewrite jsmap_get_set_ne; [exact Hk|].
           intros ->. unfold JsMap.has in Eh. now rewrite Hk in Eh.
        -- intros k Hk. destruct (H4 k Hk) as [Hs|Hd]; [|right; now right].
           destruct (String.eqb k k0) eqn:E.
           ++ apply String.eqb_eq in E. right. now left.
           ++ apply String.eqb_neq in E. left. unfold JsMap.has in *.
              now rewrite jsmap_get_set_ne in Hs.
      * intros H. apply IH in H as (H1 & H2 & H3 & H4). cbn [length map].
        repeat split; auto with lia. intros k Hk. destruct (H4 k Hk); auto.
        right. now right.
Qed.

Lemma jsmap_set_fresh {V : Type} (k : string) (v : V) (cs : list (string * V)) :
  JsMap.has k cs = false -> JsMap.set k v cs = cs ++ [(k, v)].
Proof.
  unfold JsMap.has. induction cs as [|[k0 v0] r IH]; cbn; [reflexivity|].
  destruct (String.eqb k k0); [discriminate|]. intros H. now rewrite IH.
Qed.

Lemma load_fold (cs2 : list (string * AIConfig.t)) :
  forall cs1,
    NoDup (JsMap.keys (cs1 ++ cs2)) ->
    Forall (fun e => AIConfig.valid (AIConfigManager.url host) (snd e) = true) cs2 ->
    fold_left (AIConfigManager.load_entry host)
      (map (fun e => (fst e, JObj (AIConfig.to_js (snd e)))) cs2) cs1
    = cs1 ++ cs2.
Proof.
  induction cs2 as [|[k c] cs2 IH]; intros cs1 Hnd Hv; cbn [map fold_left].
  - now rewrite app_nil_r.
  - apply Forall_cons in Hv as [Hc Hv]. cbn [fst snd] in *.
    unfold AIConfigManager.load_entry at 2. cbn [fst snd].
    assert (Hp : AIConfig.AIConfigSchema_parse (AIConfigManager.url host)
                   (JObj (AIConfig.to_js c)) = Some c).
    { rewrite <- (spread_own_id c), parse_config_with_id.
      unfold AIConfig.valid in Hc.
      destruct c as [i n k' u mo d e ty dt]. cbn in *.
      destruct (String.eqb i ""), (String.eqb n ""), (String.eqb k' ""),
        (AIConfigManager.url host u) as [u0|], (String.eqb mo "");
        cbn in *; rewrite ?andb_true_r, ?andb_false_r in Hc; try discriminate.
      apply String.eqb_eq in Hc. now subst. }
    rewrite Hp. rewrite jsmap_set_fresh.
    + rewrite IH; [now rewrite <- app_assoc | now rewrite <- app_assoc | exact Hv].
    + destruct (JsMap.has k cs1) eqn:E; [|reflexivity]. exfalso.
      apply jsmap_has_keys in E. unfold JsMap.keys in *. rewrite map_app in Hnd.
      apply NoDup_app in Hnd as (_ & Hd & _). apply (Hd k).
      * now apply list_elem_of_In.
      * cbn. apply list_elem_of_here.
Qed.
End ConfigManagerFacts.

Section ConfigSchemaProperties.
Variable url : string -> option string.

(** X15.  AIConfig.ts, AIConfigSchema: a configuration, written out as the object
    it is at run time, validates to itself exactly when its id, name, API
    key and model are not empty and the URL check leaves its base URL as it
    is. *)
Theorem config_schema_round_trip (c : AIConfig.t) :
  AIConfig.AIConfigSchema_parse url (JObj (AIConfig.to_js c)) = Some c
  <-> AIConfig.valid url c = true.
Proof.
  rewrite <- (spread_own_id c), parse_config_with_id. unfold AIConfig.valid.
  destruct c as [i n k u mo d e ty dt]. cbn.
  destruct (String.eqb i ""), (String.eqb n ""), (String.eqb k ""),
    (url u) as [u0|], (String.eqb mo "");
    cbn; rewrite ?andb_true_r, ?andb_false_r; try (split; discriminate).
  split.
  - intros [= ->]. apply String.eqb_refl.
  - intros H. apply String.eqb_eq in H. now subst.
Qed.
End ConfigSchemaProperties.

Section ConfigManagerProperties.
Context {W : Type} (host : AIConfigManager.Host W).
Implicit Types (m : AIConfigManager.t) (c : AIConfig.t) (w : W).

(** X16.  AIConfig.ts, addConfig: a configuration that is accepted is returned with
    the generated id and otherwise the fields given (the base URL as the URL
    check leaves it), is stored under that id, and is written to the storage;
    every other entry is left as it was, except that an enabled newcomer
    switches off the entries of its own type. *)
Theorem addConfig_stores c m w m' c' w' :
  AIConfigManager.addConfig host c m w = ((m', inr c'), w') ->
  let i := fst (AIConfigManager.nanoid host w) in
  c' = AIConfig.mk i (AIConfig.name c) (AIConfig.apiKey c) (AIConfig.baseURL c')
         (AIConfig.model c) (AIConfig.description c) (AIConfig.isEnabled c)
         (AIConfig.modelType c) (AIConfig.deepThink c)
  /\ AIConfigManager.url host (AIConfig.baseURL c) = Some (AIConfig.baseURL c')
  /\ AIConfigManager.getConfig i m' = Some c'
  /\ (forall k, k <> i ->
        AIConfigManager.getConfig k m'
        = option_map
            (fun d => if AIConfig.isEnabled c
                         && AIConfigManager.of_type (AIConfig.modelType c) d
                      then AIConfig.with_isEnabled false d else d)
            (AIConfigManager.getConfig k m))
  /\ w' = snd (AIConfigManager.setStorage host (AIConfigManager.entries m')
                 (snd (AIConfigManager.nanoid host w))).
Proof.
  rewrite addConfig_eq. cbv zeta. rewrite parse_config_with_id.
  destruct (negb _ && _ && _ && _); [|discriminate].
  destruct (AIConfigManager.url host (AIConfig.baseURL c)) as [u|] eqn:Eu;
    [|discriminate].
  intros [= <- <- <-]. cbn [AIConfig.id AIConfig.baseURL AIConfig.isEnabled
    AIConfig.modelType AIConfigManager.configs AIConfigManager.initialized].
  split; [reflexivity|]. split; [reflexivity|].
  unfold AIConfigManager.getConfig. cbn [AIConfigManager.configs].
  split; [apply jsmap_get_set_eq|]. split; [|reflexivity].
  intros k Hk. rewrite jsmap_get_set_ne by exact Hk.
  destruct (AIConfig.isEnabled c); cbn [andb].
  - cbn [AIConfigManager.ensureSingleEnabledPerType AIConfigManager.configs].
    rewrite get_ensure. apply String.eqb_neq in Hk. rewrite Hk. cbn [negb].
    destruct (JsMap.get k (AIConfigManager.configs m)); cbn; [|reflexivity].
    now rewrite andb_true_r.
  - now destruct (JsMap.get k (AIConfigManager.configs m)).
Qed.

(** X17.  AIConfig.ts, addConfig: the only failure is the ZodError; it leaves the
    manager as it was and writes nothing to the storage, and it comes from an
    empty generated id, name, API key or model or from a base URL that is
    not a URL. *)
Theorem addConfig_rejects c m w m' e w' :
  AIConfigManager.addConfig host c m w = ((m', inl e), w') ->
  e = AIConfigManager.ZodError /\ m' = m
  /\ w' = snd (AIConfigManager.nanoid host w)
  /\ (fst (AIConfigManager.nanoid host w) = "" \/ AIConfig.name c = ""
      \/ AIConfig.apiKey c = "" \/ AIConfig.model c = ""
      \/ AIConfigManager.url host (AIConfig.baseURL c) = None)%string.
Proof.
  rewrite addConfig_eq. cbv zeta. rewrite parse_config_with_id.
  destruct (String.eqb (fst (AIConfigManager.nanoid host w)) "") eqn:E1;
    [apply String.eqb_eq in E1; cbn; intros [= <- <- <-]; auto 10|].
  destruct (String.eqb (AIConfig.name c) "") eqn:E2;
    [apply String.eqb_eq in E2; cbn; intros [= <- <- <-]; auto 10|].
  destruct (String.eqb (AIConfig.apiKey c) "") eqn:E3;
    [apply String.eqb_eq in E3; cbn; intros [= <- <- <-]; auto 10|].
  destruct (String.eqb (AIConfig.model c) "") eqn:E4;
    [apply String.eqb_eq in E4; cbn; intros [= <- <- <-]; auto 10|].
  cbn. destruct (AIConfigManager.url host (AIConfig.baseURL c)); [discriminate|].
  intros [= <- <- <-]. auto 10.
Qed.

(** X18.  AIConfig.ts, addConfig with ensureSingleEnabledPerType: when no id
    occurs twice and at most one configuration of each type is enabled,
    the same holds after addConfig, whatever its outcome; and an enabled
    configuration that was added is then the enabled one of its type. *)
Theorem addConfig_single_enabled c m w m' r w' :
  NoDup (JsMap.keys (AIConfigManager.configs m)) ->
  AIConfigManager.single_enabled m ->
  AIConfigManager.addConfig host c m w = ((m', r), w') ->
  NoDup (JsMap.keys (AIConfigManager.configs m'))
  /\ AIConfigManager.single_enabled m'
  /\ (forall c', r = inr c' -> AIConfig.isEnabled c' = true ->
        AIConfigManager.getEnabledConfigByType (AIConfig.modelType c') m' = Some c').
Proof.
  intros Hnd Hone. rewrite addConfig_eq. cbv zeta.
  destruct (AIConfig.AIConfigSchema_parse _ _) as [n|].
  - intros [= <- <- <-].
    assert (Hone' : AIConfigManager.single_enabled
              (AIConfigManager.mk
                 (JsMap.set (AIConfig.id n) n
                    (AIConfigManager.configs
                       (if AIConfig.isEnabled n
                        then AIConfigManager.ensureSingleEnabledPerType
                               (AIConfig.modelType n) (AIConfig.id n) m
                        else m)))
                 (AIConfigManager.initialized
                    (if AIConfig.isEnabled n
                     then AIConfigManager.ensureSingleEnabledPerType
                            (AIConfig.modelType n) (AIConfig.id n) m
                     else m)))).
    { destruct (AIConfig.isEnabled n) eqn:En.
      - now apply set_after_ensure.
      - now apply set_disabled. }
    split; [|split; [exact Hone'|]].
    + cbn [AIConfigManager.configs]. apply jsmap_NoDup_set.
      destruct (AIConfig.isEnabled n); [now rewrite ensure_keys | exact Hnd].
    + intros c' [= <-] En. rewrite getEnabledConfigByType_find.
      apply find_unique.
      * apply (Hone' (AIConfig.modelType n)).
      * cbn [AIConfigManager.configs]. unfold JsMap.values.
        apply in_map_iff. exists (AIConfig.id n, n). split; [reflexivity|].
        apply jsmap_get_In, jsmap_get_set_eq.
      * now apply enabled_as_same.
  - intros [= <- <- <-]. split; [exact Hnd|]. split; [exact Hone|]. discriminate.
Qed.

(** X19.  AIConfig.ts, updateConfig: an update never adds, removes or reorders
    ids; the configuration it returns carries the id asked for, whatever the
    updates say, and is the one stored under it; an unknown id raises the
    not-found error, and every failure leaves the manager and the storage
    as they were. *)
Theorem updateConfig_keeps_ids id updates m w m' r w' :
  AIConfigManager.updateConfig host id updates m w = ((m', r), w') ->
  JsMap.keys (AIConfigManager.configs m') = JsMap.keys (AIConfigManager.configs m)
  /\ match r with
     | inr u =>
         AIConfig.id u = id /\ AIConfigManager.getConfig id m' = Some u
         /\ JsMap.has id (AIConfigManager.configs m) = true
     | inl AIConfigManager.ZodError =>
         JsMap.has id (AIConfigManager.configs m) = true /\ m' = m /\ w' = w
     | inl (AIConfigManager.Raised e) =>
         JsMap.has id (AIConfigManager.configs m) = false /\ m' = m /\ w' = w
         /\ e = ErrorObj ("Configuration with id '" ++ id ++ "' not found")%string
     end.
Proof.
  rewrite updateConfig_eq. unfold JsMap.has.
  destruct (JsMap.get id (AIConfigManager.configs m)) as [e|] eqn:Eg.
  - destruct (AIConfig.AIConfigSchema_parse _ _) as [u|] eqn:Ep.
    + cbv zeta. intros [= <- <- <-]. cbn [AIConfigManager.configs]. split.
      * rewrite jsmap_keys_set.
        assert (Hk : JsMap.keys
                  (AIConfigManager.configs
                     (if AIConfig.isEnabled u && negb (AIConfig.isEnabled e)
                      then AIConfigManager.ensureSingleEnabledPerType
                             (AIConfig.modelType u) id m
                      else m))
                = JsMap.keys (AIConfigManager.configs m)).
        { destruct (_ && _); [apply ensure_keys | reflexivity]. }
        assert (Hh : JsMap.has id
                  (AIConfigManager.configs
                     (if AIConfig.isEnabled u && negb (AIConfig.isEnabled e)
                      then AIConfigManager.ensureSingleEnabledPerType
                             (AIConfig.modelType u) id m
                      else m)) = true).
        { apply jsmap_has_keys. rewrite Hk. apply jsmap_has_keys.
          unfold JsMap.has. now rewrite Eg. }
        now rewrite Hh.
      * split; [now apply parse_id_forced in Ep|]. split; [|reflexivity].
        unfold AIConfigManager.getConfig. cbn [AIConfigManager.configs].
        apply jsmap_get_set_eq.
    + intros [= <- <- <-]. auto.
  - intros [= <- <- <-]. auto.
Qed.

(** X20.  AIConfig.ts, updateConfig with ensureSingleEnabledPerType: when no id
    occurs twice and at most one configuration of each type is enabled, the
    same holds after an update, provided the update does not move an
    enabled configuration to the other type while leaving it enabled. *)
Theorem updateConfig_single_enabled id updates m w m' r w' e :
  NoDup (JsMap.keys (AIConfigManager.configs m)) ->
  AIConfigManager.single_enabled m ->
  AIConfigManager.getConfig id m = Some e ->
  AIConfigManager.updateConfig host id updates m w = ((m', r), w') ->
  (forall u, r = inr u -> AIConfig.isEnabled e = true -> AIConfig.isEnabled u = true ->
             AIConfig.modelType u = AIConfig.modelType e) ->
  AIConfigManager.single_enabled m'.
Proof.
  intros Hnd Hone Hg. rewrite updateConfig_eq. unfold AIConfigManager.getConfig in Hg.
  rewrite Hg. destruct (AIConfig.AIConfigSchema_parse _ _) as [u|];
    [|now intros [= <- <- <-]].
  cbv zeta. intros [= <- <- <-] Hty. specialize (Hty u eq_refl).
  destruct (AIConfig.isEnabled u) eqn:Eu; cbn [andb].
  - destruct (AIConfig.isEnabled e) eqn:Ee; cbn [negb].
    + specialize (Hty eq_refl eq_refl). intros ty.
      unfold AIConfigManager.enabled_of_type. cbn [AIConfigManager.configs].
      pose proof (count_set_get ty id u e _ Hg) as Hc.
      assert (Hsame : AIConfigManager.enabled_as ty u = AIConfigManager.enabled_as ty e).
      { unfold AIConfigManager.enabled_as, AIConfigManager.of_type.
        now rewrite Eu, Ee, Hty. }
      rewrite Hsame in Hc. specialize (Hone ty).
      unfold AIConfigManager.enabled_of_type in Hone. lia.
    + now apply set_after_ensure.
  - now apply set_disabled.
Qed.

(** X21.  AIConfig.ts, updateConfig: ensureSingleEnabledPerType runs only when the
    update switches a configuration on.  An update that moves an already
    enabled configuration to the type of another enabled one leaves both
    enabled: two enabled configurations of one type. *)
Theorem updateConfig_type_change id1 id2 e1 e2 updates m w m' u w' :
  id1 <> id2 ->
  AIConfigManager.getConfig id1 m = Some e1 ->
  AIConfigManager.getConfig id2 m = Some e2 ->
  AIConfig.isEnabled e1 = true -> AIConfig.isEnabled e2 = true ->
  AIConfigManager.updateConfig host id2 updates m w = ((m', inr u), w') ->
  AIConfig.isEnabled u = true -> AIConfig.modelType u = AIConfig.modelType e1 ->
  2 <= AIConfigManager.enabled_of_type (AIConfig.modelType e1) m'.
Proof.
  intros Hne H1 H2 He1 He2. rewrite updateConfig_eq.
  unfold AIConfigManager.getConfig in *. rewrite H2.
  destruct (AIConfig.AIConfigSchema_parse _ _) as [u0|]; [|discriminate].
  cbv zeta. intros [= <- <- <-] Hu Hty. rewrite He2, andb_false_r.
  unfold AIConfigManager.enabled_of_type. cbn [AIConfigManager.configs].
  apply (count_two _ id1 id2 e1 u0); [exact Hne | | | |].
  - rewrite jsmap_get_set_ne; [exact H1 | exact Hne].
  - apply jsmap_get_set_eq.
  - now apply enabled_as_same.
  - now apply enabled_as_same.
Qed.

(** X22.  AIConfig.ts, deleteConfig: it reports whether the id was there; after it
    the id is gone and every other id reads as before; no type gains an
    enabled configuration; and when the id was not there, neither the
    manager nor the storage is touched. *)
Theorem deleteConfig_removes id m w :
  let r := AIConfigManager.deleteConfig host id m w in
  snd (fst r) = JsMap.has id (AIConfigManager.configs m)
  /\ AIConfigManager.getConfig id (fst (fst r)) = None
  /\ (forall k, k <> id ->
        AIConfigManager.getConfig k (fst (fst r)) = AIConfigManager.getConfig k m)
  /\ (forall ty, AIConfigManager.enabled_of_type ty (fst (fst r))
                 <= AIConfigManager.enabled_of_type ty m)
  /\ (JsMap.has id (AIConfigManager.configs m) = false -> fst (fst r) = m /\ snd r = w).
Proof.
  cbv zeta. rewrite deleteConfig_eq. unfold AIConfigManager.getConfig.
  destruct (JsMap.has id (AIConfigManager.configs m)) eqn:Eh; cbn.
  - split; [reflexivity|]. split; [apply jsmap_get_delete_eq|].
    split; [intros k Hk; now apply jsmap_get_delete_ne|].
    split; [intros ty; apply count_delete_le | discriminate].
  - split; [reflexivity|]. unfold JsMap.has in Eh.
    destruct (JsMap.get id (AIConfigManager.configs m)); [discriminate|].
    repeat split; auto.
Qed.

(** X23.  AIConfig.ts, getAllConfigs, getConfigsByType and getDeepThinkConfigs:
    the sort puts the enabled configurations first and otherwise keeps the
    order in which the ids were first stored. *)
Theorem getAllConfigs_enabled_first m :
  let vs := JsMap.values (AIConfigManager.configs m) in
  let off := fun c => negb (AIConfig.isEnabled c) in
  AIConfigManager.getAllConfigs m
  = List.filter AIConfig.isEnabled vs ++ List.filter off vs
  /\ (forall ty,
        AIConfigManager.getConfigsByType ty m
        = List.filter AIConfig.isEnabled (List.filter (AIConfigManager.of_type ty) vs)
          ++ List.filter off (List.filter (AIConfigManager.of_type ty) vs))
  /\ AIConfigManager.getDeepThinkConfigs m
     = List.filter AIConfig.isEnabled
         (List.filter (fun c => AIConfig.enabled (AIConfig.deepThink c)) vs)
       ++ List.filter off
            (List.filter (fun c => AIConfig.enabled (AIConfig.deepThink c)) vs).
Proof.
  cbv zeta. unfold AIConfigManager.getAllConfigs, AIConfigManager.getConfigsByType,
    AIConfigManager.getDeepThinkConfigs.
  split; [apply stable_sort_enabled_first|].
  split; [intros ty|]; apply stable_sort_enabled_first.
Qed.

(** X24.  AIConfig.ts, getEnabledConfigByType: it returns the first enabled
    configuration of the type in the order of the ids, and nothing exactly
    when the type has no enabled configuration; when at most one
    configuration of each type is enabled, it returns a configuration
    exactly when that one is stored, enabled and of the type. *)
Theorem getEnabledConfigByType_picks ty m :
  AIConfigManager.single_enabled m ->
  (forall c, AIConfigManager.getEnabledConfigByType ty m = Some c
             <-> In c (JsMap.values (AIConfigManager.configs m))
                 /\ AIConfig.isEnabled c = true /\ AIConfig.modelType c = ty)
  /\ (AIConfigManager.getEnabledConfigByType ty m = None
      <-> AIConfigManager.enabled_of_type ty m = 0).
Proof.
  intros Hone. rewrite getEnabledConfigByType_find. split.
  - intros c. split.
    + intros H. apply List.find_some in H as [Hin Hc].
      unfold AIConfigManager.enabled_as in Hc. apply andb_true_iff in Hc as [He Ht].
      apply of_type_eq in Ht. auto.
    + intros (Hin & He & Ht). apply find_unique; [apply Hone | exact Hin |].
      now apply enabled_as_same.
  - unfold AIConfigManager.enabled_of_type.
    induction (JsMap.values (AIConfigManager.configs m)) as [|x l IH]; cbn.
    + tauto.
    + destruct (AIConfigManager.enabled_as ty x); cbn; [split; [discriminate | lia] | exact IH].
Qed.

(** X25.  AIConfig.ts, importConfigs: an import never changes a configuration
    that is already there; the number it returns is the number of entries
    the manager gained, at most the number of entries in the data; and every
    id in the manager afterwards was there before or is in the data. *)
Theorem importConfigs_keeps_existing jsonData m w m1 w1 m' n w' :
  AIConfigManager.initialize host m w = (m1, w1) ->
  AIConfigManager.importConfigs host jsonData m w = ((m', inr n), w') ->
  (forall k c, AIConfigManager.getConfig k m1 = Some c ->
               AIConfigManager.getConfig k m' = Some c)
  /\ length (AIConfigManager.configs m') = length (AIConfigManager.configs m1) + n
  /\ (exists data, AIConfigManager.JSON_parse host jsonData = inr (Some data)
        /\ n <= length data
        /\ forall k, JsMap.has k (AIConfigManager.configs m') = true ->
             JsMap.has k (AIConfigManager.configs m1) = true \/ In k (map fst data)).
Proof.
  intros Hi. unfold AIConfigManager.importConfigs, bind. rewrite Hi.
  destruct (AIConfigManager.JSON_parse host jsonData) as [e|[data|]];
    [discriminate | | discriminate].
  unfold AIConfigManager.saveToStorage, bind, ret.
  destruct (fold_left _ data _) as [cs k] eqn:Ef. cbn [fst snd].
  destruct (AIConfigManager.setStorage host _ w1) as [o w2].
  intros [= <- <- <-]. apply import_fold in Ef as (H1 & H2 & H3 & H4).
  unfold AIConfigManager.getConfig. cbn [AIConfigManager.configs].
  split; [exact H1|]. split; [lia|]. exists data. split; [reflexivity|].
  split; [lia | exact H4].
Qed.

(** X26.  AIConfig.ts, saveToStorage and loadFromStorage: when the storage hands
    back what saveToStorage wrote for a manager whose ids are distinct and
    whose configurations satisfy the schema, a manager that is not yet
    initialized loads exactly those configurations, in the same order, and
    is initialized, whatever it held before. *)
Theorem initialize_loads_saved m m0 w w' :
  NoDup (JsMap.keys (AIConfigManager.configs m)) ->
  Forall (fun e => AIConfig.valid (AIConfigManager.url host) (snd e) = true)
         (AIConfigManager.configs m) ->
  AIConfigManager.initialized m0 = false ->
  AIConfigManager.getStorage host w = (inr (Some (AIConfigManager.entries m)), w') ->
  AIConfigManager.initialize host m0 w
  = (AIConfigManager.mk (AIConfigManager.configs m) true, w').
Proof.
  intros Hnd Hv Hi Hs.
  unfold AIConfigManager.initialize, AIConfigManager.loadFromStorage, bind, ret.
  rewrite Hi, Hs. cbn [AIConfigManager.configs]. unfold AIConfigManager.entries.
  now rewrite (load_fold host (AIConfigManager.configs m) []).
Qed.
End ConfigManagerProperties.

(** Witness of X16: adding an enabled vision model to a manager that has one
    switches the old one off. *)
Lemma addConfig_stores_witness :
  AIConfigManager.getConfig "c1"
    (fst (fst (AIConfigManager.addConfig ConfigSamples.host
                 (ConfigSamples.vision "" true) ConfigSamples.two ConfigSamples.world)))
  = Some (ConfigSamples.vision "c1" false).
Proof.
  pose proof (addConfig_stores ConfigSamples.host (ConfigSamples.vision "" true)
                ConfigSamples.two ConfigSamples.world
                (fst (fst (AIConfigManager.addConfig ConfigSamples.host
                             (ConfigSamples.vision "" true) ConfigSamples.two
                             ConfigSamples.world)))
                (ConfigSamples.vision "c7" true)
                (snd (AIConfigManager.addConfig ConfigSamples.host
                        (ConfigSamples.vision "" true) ConfigSamples.two
                        ConfigSamples.world))) as H.
  cbv zeta in H. destruct H as (_ & _ & _ & Hk & _).
  - vm_compute. reflexivity.
  - rewrite (Hk "c1"); [vm_compute; reflexivity | vm_compute; discriminate].
Defined.

(** Witness of X17: a base URL that is not a URL. *)
Lemma addConfig_rejects_witness :
  fst (fst (AIConfigManager.addConfig ConfigSamples.host
              (AIConfig.mk "" "local" "sk-3" "localhost" "llama" None true
                 AIConfig.LANGUAGE (AIConfig.mkDeepThink false true))
              ConfigSamples.two ConfigSamples.world))
  = ConfigSamples.two.
Proof.
  destruct (addConfig_rejects ConfigSamples.host
              (AIConfig.mk "" "local" "sk-3" "localhost" "llama" None true
                 AIConfig.LANGUAGE (AIConfig.mkDeepThink false true))
              ConfigSamples.two ConfigSamples.world
              (fst (fst (AIConfigManager.addConfig ConfigSamples.host
                           (AIConfig.mk "" "local" "sk-3" "localhost" "llama" None true
                              AIConfig.LANGUAGE (AIConfig.mkDeepThink false true))
                           ConfigSamples.two ConfigSamples.world)))
              AIConfigManager.ZodError
              (["c8"], None)) as (_ & Hm & _).
  - vm_compute. reflexivity.
  - exact Hm.
Defined.

(** Witness of X18: after an enabled vision model is added to a manager with
    one enabled model of each type, still one of each type is enabled. *)
Lemma addConfig_single_enabled_witness :
  AIConfigManager.single_enabled
    (fst (fst (AIConfigManager.addConfig ConfigSamples.host
                 (ConfigSamples.vision "" true) ConfigSamples.two ConfigSamples.world))).
Proof.
  destruct (addConfig_single_enabled ConfigSamples.host (ConfigSamples.vision "" true)
              ConfigSamples.two ConfigSamples.world
              (fst (fst (AIConfigManager.addConfig ConfigSamples.host
                           (ConfigSamples.vision "" true) ConfigSamples.two
                           ConfigSamples.world)))
              (inr (ConfigSamples.vision "c7" true))
              (snd (AIConfigManager.addConfig ConfigSamples.host
                      (ConfigSamples.vision "" true) ConfigSamples.two
                      ConfigSamples.world))) as (_ & Hone & _).
  - apply (bool_decide_unpack _). vm_compute. exact I.
  - intros ty. destruct ty; vm_compute; repeat constructor.
  - vm_compute. reflexivity.
  - exact Hone.
Defined.

(** Witness of X19: an update that carries another id. *)
Lemma updateConfig_keeps_ids_witness :
  exists u,
    snd (fst (AIConfigManager.updateConfig ConfigSamples.host "c2"
                [("id", JStr "zz"); ("name", JStr "renamed")]
                ConfigSamples.two ConfigSamples.world)) = inr u
    /\ AIConfig.id u = "c2" /\ AIConfig.name u = "renamed".
Proof.
  eexists. split; [vm_compute; reflexivity|]. split; [|reflexivity].
  destruct (updateConfig_keeps_ids ConfigSamples.host "c2"
              [("id", JStr "zz"); ("name", JStr "renamed")]
              ConfigSamples.two ConfigSamples.world
              (fst (fst (AIConfigManager.updateConfig ConfigSamples.host "c2"
                           [("id", JStr "zz"); ("name", JStr "renamed")]
                           ConfigSamples.two ConfigSamples.world)))
              (inr (AIConfig.mk "c2" "renamed" "sk-2" "https://example.org/v1"
                      "deepseek-chat" (Some "chat") true AIConfig.LANGUAGE
                      (AIConfig.mkDeepThink true true)))
              (snd (AIConfigManager.updateConfig ConfigSamples.host "c2"
                      [("id", JStr "zz"); ("name", JStr "renamed")]
                      ConfigSamples.two ConfigSamples.world)))
    as (_ & Hid & _).
  - vm_compute. reflexivity.
  - exact Hid.
Defined.

(** Witness of X20: switching on a second vision model. *)
Lemma updateConfig_single_enabled_witness :
  AIConfigManager.single_enabled
    (fst (fst (AIConfigManager.updateConfig ConfigSamples.host "c5"
                 [("isEnabled", JBool true)]
                 (AIConfigManager.mk [("c1", ConfigSamples.vision "c1" true);
                                      ("c5", ConfigSamples.vision "c5" false)] true)
                 ConfigSamples.world))).
Proof.
  apply (updateConfig_single_enabled ConfigSamples.host "c5"
           [("isEnabled", JBool true)]
           (AIConfigManager.mk [("c1", ConfigSamples.vision "c1" true);
                                ("c5", ConfigSamples.vision "c5" false)] true)
           ConfigSamples.world _
           (inr (ConfigSamples.vision "c5" true))
           (snd (AIConfigManager.updateConfig ConfigSamples.host "c5"
                   [("isEnabled", JBool true)]
                   (AIConfigManager.mk [("c1", ConfigSamples.vision "c1" true);
                                        ("c5", ConfigSamples.vision "c5" false)] true)
                   ConfigSamples.world))
           (ConfigSamples.vision "c5" false)).
  - apply (bool_decide_unpack _). vm_compute. exact I.
  - intros ty. destruct ty; vm_compute; repeat constructor.
  - reflexivity.
  - vm_compute. reflexivity.
  - intros u _ He. vm_compute in He. discriminate.
Defined.

(** Witness of X21: the enabled language model is turned into a vision model
    while a vision model is enabled. *)
Lemma updateConfig_type_change_witness :
  2 <= AIConfigManager.enabled_of_type AIConfig.VISION
         (fst (fst (AIConfigManager.updateConfig ConfigSamples.host "c2"
                      [("modelType", JStr "vision")]
                      ConfigSamples.two ConfigSamples.world))).
Proof.
  apply (updateConfig_type_change ConfigSamples.host "c1" "c2"
           (ConfigSamples.vision "c1" true) (ConfigSamples.language "c2" true)
           [("modelType", JStr "vision")] ConfigSamples.two ConfigSamples.world _
           (AIConfig.mk "c2" "deepseek" "sk-2" "https://example.org/v1"
              "deepseek-chat" (Some "chat") true AIConfig.VISION
              (AIConfig.mkDeepThink true true))
           (snd (AIConfigManager.updateConfig ConfigSamples.host "c2"
                   [("modelType", JStr "vision")]
                   ConfigSamples.two ConfigSamples.world))).
  - discriminate.
  - reflexivity.
  - reflexivity.
  - reflexivity.
  - reflexivity.
  - vm_compute. reflexivity.
  - reflexivity.
  - reflexivity.
Defined.

(** Witness of X24: the enabled language model of the sample manager. *)
Lemma getEnabledConfigByType_picks_witness :
  AIConfigManager.getEnabledConfigByType AIConfig.LANGUAGE ConfigSamples.two
  = Some (ConfigSamples.language "c2" true).
Proof.
  destruct (getEnabledConfigByType_picks AIConfig.LANGUAGE ConfigSamples.two) as (H & _).
  - intros ty. destruct ty; vm_compute; repeat constructor.
  - apply H. split; [right; left; reflexivity|]. split; reflexivity.
Defined.

(** Witness of X25: of three entries, one has an id that is there, one is
    new and one does not validate. *)
Lemma importConfigs_keeps_existing_witness :
  AIConfigManager.getConfig "c1"
    (fst (fst (AIConfigManager.importConfigs ConfigSamples.host "{}"
                 ConfigSamples.two ConfigSamples.world)))
  = Some (ConfigSamples.vision "c1" true)
  /\ snd (fst (AIConfigManager.importConfigs ConfigSamples.host "{}"
                 ConfigSamples.two ConfigSamples.world)) = inr 1.
Proof.
  split; [|vm_compute; reflexivity].
  destruct (importConfigs_keeps_existing ConfigSamples.host "{}"
              ConfigSamples.two ConfigSamples.world
              ConfigSamples.two ConfigSamples.world
              (fst (fst (AIConfigManager.importConfigs ConfigSamples.host "{}"
                           ConfigSamples.two ConfigSamples.world)))
              1
              (snd (AIConfigManager.importConfigs ConfigSamples.host "{}"
                      ConfigSamples.two ConfigSamples.world))) as (Hk & _).
  - reflexivity.
  - vm_compute. reflexivity.
  - apply Hk. reflexivity.
Defined.

(** Witness of X26: a new manager on a storage that holds the two sample
    configurations. *)
Lemma initialize_loads_saved_witness :
  AIConfigManager.initialize ConfigSamples.host AIConfigManager.new
    ([], Some (AIConfigManager.entries ConfigSamples.two))
  = (ConfigSamples.two, ([], Some (AIConfigManager.entries ConfigSamples.two))).
Proof.
  apply (initialize_loads_saved ConfigSamples.host ConfigSamples.two
           AIConfigManager.new).
  - apply (bool_decide_unpack _). vm_compute. exact I.
  - repeat constructor.
  - reflexivity.
  - reflexivity.
Defined.

(* ====================================================================== *)
(** ** useChat.ts: the messages that follow a run *)
(* ====================================================================== *)

Section ChatFacts.
Implicit Types (step s : TestStep.t) (l : list TestStep.t) (msg : Chat.ChatMessage).

Lemma replace_step_ids step l :
  map TestStep.id (Chat.replace_step step l) = map TestStep.id l.
Proof.
  unfold Chat.replace_step. rewrite map_map. apply map_ext. intros s.
  unfold Chat.same_id. destruct (String.eqb (TestStep.id s) (TestStep.id step)) eqn:E;
    [apply String.eqb_eq in E; congruence | reflexivity].
Qed.

Lemma replace_step_notin step l :
  (forall s, In s l -> TestStep.id s <> TestStep.id step) ->
  Chat.replace_step step l = l.
Proof.
  intros H. unfold Chat.replace_step. rewrite <- (map_id l) at 2.
  apply map_ext_in. intros s Hs. unfold Chat.same_id.
  destruct (String.eqb (TestStep.id s) (TestStep.id step)) eqn:E; [|reflexivity].
  apply String.eqb_eq in E. now apply H in Hs.
Qed.

Lemma replace_step_twice step step' l :
  TestStep.id step = TestStep.id step' ->
  Chat.replace_step step' (Chat.replace_step step l) = Chat.replace_step step' l.
Proof.
  intros Hid. unfold Chat.replace_step. rewrite map_map. apply map_ext. intros s.
  unfold Chat.same_id. rewrite Hid.
  destruct (String.eqb (TestStep.id s) (TestStep.id step')) eqn:E; [|now rewrite E].
  now rewrite Hid, String.eqb_refl.
Qed.

Lemma existsb_same_id step l :
  existsb (Chat.same_id step) l = false ->
  forall s, In s l -> TestStep.id s <> TestStep.id step.
Proof.
  intros H s Hs Hid. apply not_true_iff_false in H. apply H.
  apply existsb_exists. exists s. split; [exact Hs|].
  unfold Chat.same_id. rewrite Hid. apply String.eqb_refl.
Qed.

Lemma existsb_replace step step' l :
  existsb (Chat.same_id step) (Chat.replace_step step' l)
  = existsb (Chat.same_id step) l.
Proof.
  unfold Chat.replace_step. induction l as [|s l IH]; cbn; [reflexivity|].
  rewrite IH. f_equal. unfold Chat.same_id.
  destruct (String.eqb (TestStep.id s) (TestStep.id step')) eqn:E; [|reflexivity].
  apply String.eqb_eq in E. now rewrite E.
Qed.

Lemma with_steps_same (c : TestCase.t) : TestCase.with_steps (TestCase.steps c) c = c.
Proof. now destruct c. Qed.

Lemma with_testCase_same msg (c : TestCase.t) :
  Chat.testCase msg = Some c -> Chat.with_testCase c msg = msg.
Proof. destruct msg. cbn. now intros ->. Qed.

(** On an assistant message that holds a case, the callback of [updateStep]
    replaces the steps whether or not one of them has the id. *)
Lemma update_message_eq step msg (c : TestCase.t) :
  Chat.type msg = Chat.Assistant -> Chat.testCase msg = Some c ->
  Chat.update_message step msg
  = Chat.with_testCase
      (TestCase.with_steps (Chat.replace_step step (TestCase.steps c)) c) msg.
Proof.
  intros Ht Hc. unfold Chat.update_message. rewrite Ht, Hc.
  destruct (existsb _ _) eqn:E; [reflexivity|].
  rewrite replace_step_notin by (now apply existsb_same_id).
  now rewrite with_steps_same, with_testCase_same.
Qed.

Lemma update_message_type step msg :
  Chat.type (Chat.update_message step msg) = Chat.type msg
  /\ Chat.id (Chat.update_message step msg) = Chat.id msg.
Proof.
  unfold Chat.update_message.
  destruct (Chat.type msg) eqn:Ht, (Chat.testCase msg) as [c|]; auto.
  now destruct (existsb (Chat.same_id step) (TestCase.steps c)).
Qed.

Lemma update_message_idem step msg :
  Chat.update_message step (Chat.update_message step msg)
  = Chat.update_message step msg.
Proof.
  destruct (Chat.type msg) eqn:Ht.
  - unfold Chat.update_message. now rewrite Ht, Ht.
  - destruct (Chat.testCase msg) as [c|] eqn:Hc.
    + rewrite (update_message_eq step msg c Ht Hc).
      rewrite (update_message_eq step _
                 (TestCase.with_steps (Chat.replace_step step (TestCase.steps c)) c))
        by (destruct msg; cbn in *; congruence).
      destruct msg, c. cbn -[Chat.replace_step]. now rewrite replace_step_twice.
    + unfold Chat.update_message. now rewrite Ht, Hc, Ht, Hc.
Qed.

Lemma follow_message (e : TestCaseExecutor.Event) msg (c : TestCase.t) :
  Chat.type msg = Chat.Assistant -> Chat.testCase msg = Some c ->
  forall ms k, ms !! k = Some msg ->
    Chat.on_step_event e ms !! k
    = Some (Chat.with_testCase
              (TestCase.with_steps (Chat.follow e (TestCase.steps c)) c) msg).
Proof.
  intros Ht Hc ms k Hk.
  assert (Hsame : Chat.with_testCase
                    (TestCase.with_steps (TestCase.steps c) c) msg = msg).
  { now rewrite with_steps_same, with_testCase_same. }
  destruct e; cbn [Chat.on_step_event Chat.follow]; rewrite ?Hsame; try exact Hk.
  - unfold Chat.updateStep. rewrite list_lookup_fmap, Hk. cbn.
    now rewrite (update_message_eq _ _ c).
  - unfold Chat.updateStep. rewrite list_lookup_fmap, Hk. cbn.
    now rewrite (update_message_eq _ _ c).
Qed.

Lemma replay_message (es : list TestCaseExecutor.Event) :
  forall msg (c : TestCase.t) ms k,
    Chat.type msg = Chat.Assistant -> Chat.testCase msg = Some c ->
    ms !! k = Some msg ->
    Chat.replay es ms !! k
    = Some (Chat.with_testCase
              (TestCase.with_steps
                 (fold_left (fun l e => Chat.follow e l) es (TestCase.steps c)) c)
              msg).
Proof.
  unfold Chat.replay.
  induction es as [|e es IH]; intros msg c ms k Ht Hc Hk; cbn [fold_left].
  - now rewrite with_steps_same, with_testCase_same.
  - pose proof (follow_message e msg c Ht Hc ms k Hk) as H1.
    rewrite (IH (Chat.with_testCase
                   (TestCase.with_steps (Chat.follow e (TestCase.steps c)) c) msg)
               (TestCase.with_steps (Chat.follow e (TestCase.steps c)) c)
               _ k Ht eq_refl H1).
    destruct msg, c. reflexivity.
Qed.

Lemma follow_paired (es : list TestCaseExecutor.Event) :
  Protocol.paired es = true ->
  forall l,
    fold_left (fun l e => Chat.follow e l) es l
    = fold_left (fun l s => Chat.replace_step s l)
        (TestCaseExecutor.completed_steps es) l.
Proof.
  assert (H : forall n (es : list TestCaseExecutor.Event),
            length es <= n -> Protocol.paired es = true ->
            forall l,
              fold_left (fun l e => Chat.follow e l) es l
              = fold_left (fun l s => Chat.replace_step s l)
                  (TestCaseExecutor.completed_steps es) l).
  { induction n as [|n IH]; intros es0 Hlen Hp l.
    - destruct es0; [reflexivity | cbn in Hlen; lia].
    - destruct es0 as [|e [|e' r]]; [reflexivity | destruct e; discriminate |].
      destruct e as [c|s|s|c|c]; try discriminate.
      destruct e' as [c'|s'|s'|c'|c']; try discriminate.
      cbn [Protocol.paired] in Hp.
      apply andb_true_iff in Hp as [Hp Hr]. apply andb_true_iff in Hp as [Hp _].
      apply andb_true_iff in Hp as [Hid _]. apply String.eqb_eq in Hid.
      cbn [fold_left Chat.follow TestCaseExecutor.completed_steps].
      rewrite replace_step_twice by exact Hid.
      apply IH; [cbn in Hlen; lia | exact Hr]. }
  intros Hp l. now apply (H (length es)).
Qed.

Lemma follow_status_events (c1 c2 : TestCase.t) (es : list TestCaseExecutor.Event) l :
  fold_left (fun l e => Chat.follow e l)
    ([TestCaseExecutor.caseStatusChanged c1] ++ es
       ++ [TestCaseExecutor.caseStatusChanged c2]) l
  = fold_left (fun l e => Chat.follow e l) es l.
Proof. cbn [app fold_left Chat.follow]. now rewrite fold_left_app. Qed.

(** Replacing, one after the other, the first [m] steps of a list, whose ids
    are distinct, by steps with the same ids. *)
Lemma replace_prefix (l l' : list TestStep.t) :
  NoDup (map TestStep.id l) ->
  map TestStep.id l' = map TestStep.id l ->
  forall m, m <= length l ->
    fold_left (fun l s => Chat.replace_step s l) (take m l') l
    = take m l' ++ drop m l.
Proof.
  intros Hnd Hids m. induction m as [|m IH]; intros Hm; [reflexivity|].
  assert (Hlen : length l' = length l).
  { now rewrite <- (length_map TestStep.id l'), Hids, length_map. }
  destruct (lookup_lt_is_Some_2 l' m) as [s' Hs']; [lia|].
  destruct (lookup_lt_is_Some_2 l m) as [s Hs]; [lia|].
  rewrite (take_S_r _ _ _ Hs'), fold_left_app, IH by lia. cbn [fold_left].
  assert (Hid : TestStep.id s' = TestStep.id s).
  { assert (H : map TestStep.id l' !! m = map TestStep.id l !! m) by now rewrite Hids.
    rewrite !list_lookup_fmap, Hs', Hs in H. now injection H. }
  rewrite (drop_S _ _ _ Hs).
  unfold Chat.replace_step. rewrite map_app. cbn [map].
  fold (Chat.replace_step s' (take m l')). fold (Chat.replace_step s' (drop (S m) l)).
  assert (Hsplit : map TestStep.id l
                   = map TestStep.id (take m l') ++ TestStep.id s
                       :: map TestStep.id (drop (S m) l)).
  { rewrite <- (take_drop m l) at 1. rewrite map_app, (drop_S _ _ _ Hs). cbn [map].
    f_equal. rewrite <- !List.firstn_map. now rewrite Hids. }
  rewrite Hsplit in Hnd. apply NoDup_app in Hnd as (_ & Hdisj & Hnd).
  apply NoDup_cons in Hnd as [Hnotin _].
  rewrite replace_step_notin, replace_step_notin.
  - unfold Chat.same_id. rewrite Hid, String.eqb_refl. now rewrite <- app_assoc.
  - intros x Hx Hxid. apply Hnotin. rewrite <- Hid, <- Hxid.
    apply list_elem_of_In, in_map, Hx.
  - intros x Hx Hxid. apply (Hdisj (TestStep.id x)).
    + apply list_elem_of_In, in_map, Hx.
    + rewrite Hxid, Hid. apply list_elem_of_here.
Qed.

Lemma same_identity_ids (l l' : list TestStep.t) :
  Forall2 Protocol.same_identity l l' -> map TestStep.id l' = map TestStep.id l.
Proof.
  induction 1 as [|s s' l l' (_ & Hid & _) _ IH]; cbn; [reflexivity|].
  now rewrite Hid, IH.
Qed.

Lemma count_all_success (l : list TestStep.t) :
  forallb TestCaseExecutor.succeeded l = true ->
  Chat.count_status StepSuccess l = length l.
Proof.
  unfold Chat.count_status, TestCaseExecutor.succeeded.
  induction l as [|s l IH]; cbn; [reflexivity|].
  intros H. apply andb_true_iff in H as [Hs Hl]. rewrite Hs. cbn. now rewrite IH.
Qed.

Lemma count_one {A : Type} (p : A -> bool) (l : list A) :
  forall k a, l !! k = Some a -> p a = true ->
    (forall j x, j <> k -> l !! j = Some x -> p x = false) ->
    length (List.filter p l) = 1.
Proof.
  induction l as [|y l IH]; intros k a Hk Ha Hothers; [discriminate|].
  destruct k as [|k]; cbn in Hk.
  - injection Hk as ->. cbn. rewrite Ha. cbn. f_equal.
    assert (Hnil : forall l0 : list A,
              (forall x, In x l0 -> p x = false) -> List.filter p l0 = []).
    { induction l0 as [|x l0 IH0]; cbn; intros H; [reflexivity|].
      rewrite (H x) by now left. apply IH0. intros; apply H. now right. }
    rewrite Hnil; [reflexivity|]. intros x Hx.
    apply list_elem_of_In, list_elem_of_lookup in Hx as [j Hj].
    apply (Hothers (S j) x); [lia | exact Hj].
  - cbn. rewrite (Hothers 0 y); [|lia|reflexivity].
    apply (IH k a Hk Ha). intros j x Hj Hx. apply (Hothers (S j) x); [lia | exact Hx].
Qed.

Lemma forallb_lookup {A : Type} (p : A -> bool) (l : list A) :
  (forall j x, l !! j = Some x -> p x = true) -> forallb p l = true.
Proof.
  intros H. apply forallb_forall. intros x Hx.
  apply list_elem_of_In, list_elem_of_lookup in Hx as [j Hj]. now apply (H j).
Qed.
End ChatFacts.

Section ChatProperties.
Context {W : Type} (host : Host W).

Import TestCaseExecutor.

(** X27.  useChat.ts, updateStep: the update keeps the messages, their ids
    and types and the ids of the steps of every case in place; it is
    idempotent; and after it every step with the id of the given step, in a
    case held by an assistant message, is the given step. *)
Theorem updateStep_frame (step : TestStep.t) (ms : list Chat.ChatMessage) :
  map Chat.id (Chat.updateStep step ms) = map Chat.id ms
  /\ map Chat.type (Chat.updateStep step ms) = map Chat.type ms
  /\ map (fun msg => option_map (fun c => map TestStep.id (TestCase.steps c))
                       (Chat.testCase msg)) (Chat.updateStep step ms)
     = map (fun msg => option_map (fun c => map TestStep.id (TestCase.steps c))
                         (Chat.testCase msg)) ms
  /\ Chat.updateStep step (Chat.updateStep step ms) = Chat.updateStep step ms
  /\ (forall msg c s,
        In msg (Chat.updateStep step ms) -> Chat.type msg = Chat.Assistant ->
        Chat.testCase msg = Some c -> In s (TestCase.steps c) ->
        TestStep.id s = TestStep.id step -> s = step).
Proof.
  unfold Chat.updateStep. rewrite !map_map.
  split; [apply map_ext; intros msg; apply update_message_type|].
  split; [apply map_ext; intros msg; apply update_message_type|].
  split.
  { apply map_ext. intros msg. unfold Chat.update_message.
    destruct (Chat.type msg); [reflexivity|].
    destruct (Chat.testCase msg) as [c|] eqn:Hc; [|now rewrite Hc].
    destruct (existsb _ _); [|now rewrite Hc].
    cbn. now rewrite replace_step_ids. }
  split; [apply map_ext; intros msg; apply update_message_idem|].
  intros msg c s Hin Ht Hc Hs Hid.
  apply in_map_iff in Hin as (msg0 & <- & _).
  destruct (update_message_type step msg0) as [Ht0 _]. rewrite Ht0 in Ht.
  unfold Chat.update_message in Hc, Hs. rewrite Ht in Hc.
  destruct (Chat.testCase msg0) as [c0|] eqn:Hc0.
  - destruct (existsb (Chat.same_id step) (TestCase.steps c0)) eqn:E.
    + cbn in Hc. injection Hc as <-. cbn in Hs.
      apply in_map_iff in Hs as (s0 & Hs0 & _).
      unfold Chat.same_id in Hs0.
      destruct (String.eqb (TestStep.id s0) (TestStep.id step)) eqn:E0;
        [congruence|]. subst s0. apply String.eqb_neq in E0. contradiction.
    + rewrite Hc0 in Hc. injection Hc as <-.
      exfalso. now apply (existsb_same_id _ _ E s).
  - congruence.
Qed.

(** X28.  TestCaseExecutor.ts, executeStepsWithProgress, with useChat.ts,
    updateStep: when the ids of the steps of a case are distinct, applying
    the [stepStarted] and [stepCompleted] listeners to the events of one
    [execute()], in order, turns an assistant message that holds the steps as
    they were before the call into the message that holds the steps as they
    are after it. *)
Theorem step_events_rebuild_case (ex : t) (w : W) (ms : list Chat.ChatMessage)
    (k : nat) (msg : Chat.ChatMessage) (c : TestCase.t) :
  NoDup (map TestStep.id (TestCase.steps (testCase ex))) ->
  ms !! k = Some msg -> Chat.type msg = Chat.Assistant ->
  Chat.testCase msg = Some c ->
  TestCase.steps c = TestCase.steps (testCase ex) ->
  let ex' := fst (fst (execute host ex w)) in
  Chat.replay (events_since ex ex') ms !! k
  = Some (Chat.with_testCase
            (TestCase.with_steps (TestCase.steps (testCase ex')) c) msg).
Proof.
  intros Hnd Hk Ht Hc Hsteps. cbv zeta.
  pose proof (execute_keeps host ex w) as Hkeep. cbv zeta in Hkeep.
  destruct (execute_runs host ex w)
    as (ex' & w' & m & es & c1 & t0 & t1 & Hex & _ & _ & _ & Hlen & Hm & _ & Hem
        & _ & _ & Hdone & _ & Hrest & _).
  rewrite Hex in Hkeep |- *. cbn [fst] in Hkeep |- *.
  destruct Hkeep as (c1' & es' & ds & Kem & _ & _ & _ & Kpair & _ & _ & _ & Kid & _).
  assert (Hes : es' = es).
  { rewrite Hem in Kem. apply app_inv_head in Kem. cbn [app] in Kem.
    injection Kem as _ Kem. now apply app_inv_tail in Kem. }
  subst es'.
  rewrite (replay_message _ msg c ms k Ht Hc Hk).
  rewrite (events_since_execute ex ex' c1 es Hem), follow_status_events.
  rewrite (follow_paired es Kpair), Hdone, Hsteps.
  rewrite (replace_prefix _ _ Hnd (same_identity_ids _ _ Kid) m Hm).
  do 3 f_equal.
  rewrite <- (take_drop m (TestCase.steps (testCase ex'))) at 2. f_equal.
  apply list_eq. intros j. rewrite !lookup_drop. symmetry. apply Hrest. lia.
Qed.

(** X29.  TestCaseExecutor.ts, execute, with useChat.ts,
    getExecutionResultMessage: for a case none of whose steps is [failed]
    beforehand, the message for the case that [execute()] returns is either
    the success message with the number of steps on both sides of the
    stroke, or the failure message with the count one. *)
Theorem result_message_of_run (show : nat -> string) (ex : t) (w : W) :
  Forall (fun s => TestStep.status s <> StepFailed) (TestCase.steps (testCase ex)) ->
  let c := testCase (fst (fst (execute host ex w))) in
  let n := length (TestCase.steps (testCase ex)) in
  (TestCase.status c = CaseCompleted
   /\ Chat.getExecutionResultMessage show c
      = ("Execution complete: " ++ show n ++ "/" ++ show n ++ " steps successful")
          %string)
  \/ (TestCase.status c = CaseFailed
      /\ Chat.getExecutionResultMessage show c
         = ("Execution failed: " ++ show 1 ++ " steps failed")%string).
Proof.
  intros Hfresh. cbv zeta.
  destruct (execute_runs host ex w)
    as (ex' & w' & m & es & c1 & t0 & t1 & Hex & Hstatus & _ & _ & Hlen & Hm & _ & _
        & _ & _ & _ & _ & Hrest & Hbefore & Hlast & Hbreak).
  rewrite Hex. cbn [fst]. unfold Chat.getExecutionResultMessage. rewrite Hstatus.
  destruct (forallb succeeded (TestCase.steps (testCase ex'))) eqn:Hall.
  - left. split; [reflexivity|]. now rewrite count_all_success, Hlen.
  - right. split; [reflexivity|].
    assert (Hfail : exists s, 1 <= m
                      /\ TestCase.steps (testCase ex') !! (m - 1) = Some s
                      /\ TestStep.status s = StepFailed).
    { destruct (Nat.lt_ge_cases m (length (TestCase.steps (testCase ex))))
        as [Hlt|Hge]; [now apply Hbreak|].
      assert (Hmlen : m = length (TestCase.steps (testCase ex'))) by lia.
      destruct m as [|m'].
      { destruct (TestCase.steps (testCase ex')); [discriminate | cbn in Hmlen; lia]. }
      destruct (lookup_lt_is_Some_2 (TestCase.steps (testCase ex')) m') as [s Hs];
        [lia|].
      replace (S m' - 1) with m' in * by lia.
      destruct (Hlast s ltac:(lia) Hs) as [Hok|Hko]; [|exists s; auto with lia].
      exfalso. apply not_true_iff_false in Hall. apply Hall.
      apply forallb_lookup. intros j x Hj. apply succeeded_true.
      pose proof (lookup_lt_Some _ _ _ Hj) as Hjlt.
      destruct (Nat.eq_dec j m') as [->|Hne]; [congruence|].
      apply (Hbefore j x); [lia | exact Hj]. }
    destruct Hfail as (s & H1 & Hs & Hst).
    unfold Chat.count_status.
    rewrite (count_one _ _ (m - 1) s Hs); [reflexivity | now rewrite Hst |].
    intros j x Hj Hx.
    destruct (Nat.lt_ge_cases j m) as [Hlt|Hge].
    + rewrite (Hbefore j x) by (lia || exact Hx). reflexivity.
    + rewrite Hrest in Hx by exact Hge.
      rewrite List.Forall_forall in Hfresh.
      assert (Hin : In x (TestCase.steps (testCase ex)))
        by (apply list_elem_of_In, list_elem_of_lookup; eauto).
      apply Hfresh in Hin. now destruct (TestStep.status x).
Qed.
End ChatProperties.

(** Witness of X28: the three-step case whose assertion fails, shown by the
    second message. *)
Lemma step_events_rebuild_case_witness :
  option_map
    (fun msg => option_map
                  (fun c => map TestStep.status (TestCase.steps c))
                  (Chat.testCase msg))
    (Chat.replay
       (TestCaseExecutor.events_since ChatSamples.executor
          (fst (fst (TestCaseExecutor.execute (Samples.host Samples.on_assert)
                       ChatSamples.executor 0))))
       ChatSamples.messages !! 1)
  = Some (Some [StepSuccess; StepFailed; StepPending]).
Proof.
  rewrite (step_events_rebuild_case (Samples.host Samples.on_assert)
             ChatSamples.executor 0 ChatSamples.messages 1
             (Chat.mk "m2" Chat.Assistant "" (Some "Executing test...") None
                (Some (Samples.case_of ChatSamples.steps)) 1 (Some false) (Some true)
                None)
             (Samples.case_of ChatSamples.steps)).
  - vm_compute. reflexivity.
  - apply (bool_decide_unpack _). vm_compute. exact I.
  - reflexivity.
  - reflexivity.
  - reflexivity.
  - reflexivity.
Defined.

(** Witness of X29: the same run, with lengths printed as strokes. *)
Lemma result_message_of_run_witness :
  Chat.getExecutionResultMessage (fun n => String.concat "" (repeat "|" n))
    (TestCaseExecutor.testCase
       (fst (fst (TestCaseExecutor.execute (Samples.host Samples.on_assert)
                    ChatSamples.executor 0))))
  = "Execution failed: | steps failed".
Proof.
  destruct (result_message_of_run (Samples.host Samples.on_assert)
              (fun n => String.concat "" (repeat "|" n)) ChatSamples.executor 0)
    as [[Hs _]|[_ Hm]].
  - repeat constructor; discriminate.
  - vm_compute in Hs. discriminate.
  - rewrite Hm. reflexivity.
Defined.
